(** * merge-coverage: an LCOV merger, embedded and verified

    Shallow embedding of [scripts/merge-coverage.py]: the line-oriented
    parser [parse_lcov_file], the max-merge [merge_coverage_files], the
    serializer [write_merged_lcov] and the driver [main].

    Conventions of the embedding.
    - Python [str] is [string], the text as the bytes of its UTF-8
      form.  [strip] and [int] are Python's on ASCII text
      ([PyStr.isascii]); on other text Python also knows the white space
      and the digits of Unicode, which the embedding leaves out.  A
      statement whose condition or conclusion depends on what [strip]
      or [int] do to a line is made for ASCII lines.
    - Python [int] is [Z].
    - A Python [dict] keeps its insertion order, and the serializer
      iterates over it: it is an association list whose keys stay put
      when a value is overwritten and whose new keys go to the end.
    - An exception is a value of [exn]; code that can raise returns a
      [result].
    - [print] appends an [event] to the standard output of the run, and
      [f.write] appends its argument to the list of chunks of the file. *)

From Stdlib Require Import ZArith List String Ascii Bool Lia.
From Stdlib Require Import Permutation Sorted DecimalString.
From Stdlib Require DecimalPos DecimalFacts.
Import ListNotations.

#[local] Open Scope string_scope.
#[local] Open Scope list_scope.
#[local] Open Scope Z_scope.

(** ** Exceptions and results *)

Inductive exn : Type :=
| ValueError (literal : string)   (* int() rejected this literal *)
| KeyError (key : string)         (* d[key] on an absent key *)
| ZeroDivisionError
| OSError (msg : string).         (* open, read, makedirs *)

Inductive result (A : Type) : Type :=
| Ok (a : A)
| Raise (e : exn).

Arguments Ok {A} a.
Arguments Raise {A} e.

Definition bind {A B : Type} (r : result A) (k : A -> result B) : result B :=
  match r with
  | Ok a => k a
  | Raise e => Raise e
  end.

Notation "x <- r ;; k" := (bind r (fun x => k))
  (at level 61, r at next level, right associativity).

(** ** Python strings *)

Module PyStr.

(** [str.isspace] on one ASCII character: 9-13, 28-31 and 32.  (Above
    ASCII, Python counts U+0085, U+00A0 and the spaces from U+1680 on as
    white space too.) *)
Definition isspace (c : ascii) : bool :=
  let n := nat_of_ascii c in
  ((9 <=? n) && (n <=? 13) || (28 <=? n) && (n <=? 32))%nat.

(** The white space [int()] skips around an ASCII literal: 9-13, 32. *)
Definition is_int_space (c : ascii) : bool :=
  let n := nat_of_ascii c in
  ((9 <=? n) && (n <=? 13) || (n =? 32))%nat.

Fixpoint lstrip (sp : ascii -> bool) (s : string) : string :=
  match s with
  | EmptyString => EmptyString
  | String c r => if sp c then lstrip sp r else s
  end.

Fixpoint rstrip (sp : ascii -> bool) (s : string) : string :=
  match s with
  | EmptyString => EmptyString
  | String c r =>
      match rstrip sp r with
      | EmptyString => if sp c then EmptyString else String c EmptyString
      | r' => String c r'
      end
  end.

(** [s.strip()] *)
Definition strip (s : string) : string := rstrip isspace (lstrip isspace s).

(** [s.startswith(p)] *)
Fixpoint startswith (s p : string) {struct p} : bool :=
  match p, s with
  | EmptyString, _ => true
  | String a p', String b s' => Ascii.eqb a b && startswith s' p'
  | String _ _, EmptyString => false
  end.

(** [s[n:]] *)
Fixpoint slice_from (n : nat) (s : string) : string :=
  match n, s with
  | O, _ => s
  | S n', String _ r => slice_from n' r
  | S _, EmptyString => EmptyString
  end.

(** [s.split(',')] *)
Fixpoint split_comma (s : string) : list string :=
  match s with
  | EmptyString => [EmptyString]
  | String c r =>
      if Ascii.eqb c "," then EmptyString :: split_comma r
      else match split_comma r with
           | h :: t => String c h :: t
           | [] => [String c EmptyString]
           end
  end.

(** [s.split(',', 1)] *)
Fixpoint split_comma_1 (s : string) : list string :=
  match s with
  | EmptyString => [EmptyString]
  | String c r =>
      if Ascii.eqb c "," then [EmptyString; r]
      else match split_comma_1 r with
           | h :: t => String c h :: t
           | [] => [String c EmptyString]
           end
  end.

(** [str(n)], also what an f-string does with an [int]. *)
Definition str (n : Z) : string := NilZero.string_of_int (Z.to_int n).

Definition digit (c : ascii) : option Z :=
  let n := nat_of_ascii c in
  if ((48 <=? n) && (n <=? 57))%nat then Some (Z.of_nat (n - 48)) else None.

(** The digits of a decimal literal, left to right; one underscore may
    sit between two digits.  Returns the value and the number of
    digits read. *)
Fixpoint scan_digits (s : string) (acc : Z) (ndigits : nat)
    (after_underscore : bool) : option (Z * nat) :=
  match s with
  | EmptyString => if after_underscore then None else Some (acc, ndigits)
  | String c r =>
      if Ascii.eqb c "_" then
        if after_underscore then None else scan_digits r acc ndigits true
      else
        match digit c with
        | Some d => scan_digits r (10 * acc + d) (S ndigits) false
        | None => None
        end
  end.

(** [sys.get_int_max_str_digits()], CPython's default. *)
Definition int_max_str_digits : nat := 4300.

(** [int(s)] for an ASCII string: white space around, an optional sign,
    then digits; more than [int_max_str_digits] digits are refused.
    (Above ASCII, Python also reads the decimal digits and the white
    space of Unicode.) *)
Definition int (s : string) : result Z :=
  let t := rstrip is_int_space (lstrip is_int_space s) in
  let '(negative, body) :=
    match t with
    | String "-" r => (true, r)
    | String "+" r => (false, r)
    | _ => (false, t)
    end in
  match body with
  | EmptyString => Raise (ValueError s)
  | String c _ =>
      if Ascii.eqb c "_" then Raise (ValueError s)
      else
        match scan_digits body 0 0 false with
        | Some (v, n) =>
            if (n <=? int_max_str_digits)%nat
            then Ok (if negative then - v else v)
            else Raise (ValueError s)
        | None => Raise (ValueError s)
        end
  end.

(** Truth value of an optional string: [None] and [''] are false. *)
Definition truthy (o : option string) : bool :=
  match o with
  | Some (String _ _) => true
  | _ => false
  end.

(** [s.isascii()]: every character is below 128. *)
Fixpoint isascii (s : string) : bool :=
  match s with
  | EmptyString => true
  | String c r => (nat_of_ascii c <? 128)%nat && isascii r
  end.

End PyStr.

(** ** Python dictionaries, in insertion order *)

Class EqKey (K : Type) : Type := {
  keqb : K -> K -> bool;
  keqb_eq : forall a b, keqb a b = true <-> a = b
}.

#[export] Instance EqKey_string : EqKey string :=
  {| keqb := String.eqb; keqb_eq := String.eqb_eq |}.

#[export] Instance EqKey_Z : EqKey Z :=
  {| keqb := Z.eqb; keqb_eq := Z.eqb_eq |}.

Module Dict.
Section Ops.
Context {K V : Type} `{EqKey K}.

Definition t : Type := list (K * V).

(** [{}] *)
Definition empty : t := [].

(** [d.get(k)] *)
Fixpoint get (d : t) (k : K) : option V :=
  match d with
  | [] => None
  | (k', v) :: r => if keqb k' k then Some v else get r k
  end.

(** [d.get(k, dflt)] *)
Definition get_default (d : t) (k : K) (dflt : V) : V :=
  match get d k with
  | Some v => v
  | None => dflt
  end.

(** [k in d] *)
Definition contains (d : t) (k : K) : bool :=
  match get d k with
  | Some _ => true
  | None => false
  end.

(** [d[k] = v]: an existing key keeps its place. *)
Fixpoint set (d : t) (k : K) (v : V) : t :=
  match d with
  | [] => [(k, v)]
  | (k', v') :: r =>
      if keqb k' k then (k', v) :: r else (k', v') :: set r k v
  end.

(** [d.items()], [d.keys()], [d.values()], [len(d)], [not d] *)
Definition items (d : t) : list (K * V) := d.
Definition keys (d : t) : list K := map fst d.
Definition values (d : t) : list V := map snd d.
Definition len (d : t) : Z := Z.of_nat (List.length d).
(** [d[k]] mutated in place by [f]; nothing happens on an absent
    key (the callers establish the key first). *)
Fixpoint update (d : t) (k : K) (f : V -> V) : t :=
  match d with
  | [] => []
  | (k', v) :: r =>
      if keqb k' k then (k', f v) :: r else (k', v) :: update r k f
  end.

Definition is_empty (d : t) : bool :=
  match d with
  | [] => true
  | _ :: _ => false
  end.
End Ops.
Arguments t : clear implicits.
End Dict.

(** ** The data model *)

(** The value stored per source file: the dictionary with the keys
    ['functions'], ['lines'], ['branches'], ['function_data'] and
    ['branch_data']. *)
Record entry : Type := {
  functions : Dict.t string Z;
  lines : Dict.t Z Z;
  branches : Dict.t string Z;
  function_data : list string;
  branch_data : list string
}.

Definition coverage : Type := Dict.t string entry.

Definition empty_entry : entry :=
  {| functions := Dict.empty; lines := Dict.empty; branches := Dict.empty;
     function_data := []; branch_data := [] |}.

Definition with_functions (e : entry) (d : Dict.t string Z) : entry :=
  {| functions := d; lines := lines e; branches := branches e;
     function_data := function_data e; branch_data := branch_data e |}.

Definition with_lines (e : entry) (d : Dict.t Z Z) : entry :=
  {| functions := functions e; lines := d; branches := branches e;
     function_data := function_data e; branch_data := branch_data e |}.

Definition with_branches (e : entry) (d : Dict.t string Z) : entry :=
  {| functions := functions e; lines := lines e; branches := d;
     function_data := function_data e; branch_data := branch_data e |}.

Definition append_function_data (l : string) (e : entry) : entry :=
  {| functions := functions e; lines := lines e; branches := branches e;
     function_data := function_data e ++ [l]; branch_data := branch_data e |}.

Definition append_branch_data (l : string) (e : entry) : entry :=
  {| functions := functions e; lines := lines e; branches := branches e;
     function_data := function_data e; branch_data := branch_data e ++ [l] |}.

(** [d[k] = max(d.get(k, 0), count)], the statement all three counters
    share, in the parser and in the merger. *)
Definition max_into {K : Type} `{EqKey K} (d : Dict.t K Z) (k : K) (count : Z)
  : Dict.t K Z :=
  Dict.set d k (Z.max (Dict.get_default d k 0) count).

(** ** parse_lcov_file *)

(** The two local variables of the loop. *)
Record pstate : Type := {
  coverage_data : coverage;
  current_file : option string
}.

Definition initial_pstate : pstate :=
  {| coverage_data := Dict.empty; current_file := None |}.

(** [coverage_data[current_file]] read and mutated in place: a
    [KeyError] when the key is absent. *)
Definition at_file (cd : coverage) (file : string) (f : entry -> entry)
  : result coverage :=
  match Dict.get cd file with
  | Some e => Ok (Dict.set cd file (f e))
  | None => Raise (KeyError file)
  end.

(** The value of [current_file] in a branch guarded by its truth. *)
Definition file_of (st : pstate) : string :=
  match current_file st with
  | Some f => f
  | None => EmptyString
  end.

(** The body of the loop, for one line of the file. *)
Definition parse_line (st : pstate) (raw : string) : result pstate :=
  let line := PyStr.strip raw in
  let cd := coverage_data st in
  let here := PyStr.truthy (current_file st) in
  if PyStr.startswith line "SF:" then
    let file := PyStr.slice_from 3 line in
    Ok {| coverage_data :=
            if Dict.contains cd file then cd else Dict.set cd file empty_entry;
          current_file := Some file |}
  else if PyStr.startswith line "FN:" && here then
    cd' <- at_file cd (file_of st) (append_function_data line) ;;
    Ok {| coverage_data := cd'; current_file := current_file st |}
  else if PyStr.startswith line "FNDA:" && here then
    match PyStr.split_comma_1 line with
    | [p0; p1] =>
        count <- PyStr.int (PyStr.slice_from 5 p0) ;;
        let func_name := p1 in
        cd' <- at_file cd (file_of st)
                 (fun e => with_functions e (max_into (functions e) func_name count)) ;;
        Ok {| coverage_data := cd'; current_file := current_file st |}
    | _ => Ok st
    end
  else if PyStr.startswith line "DA:" && here then
    match PyStr.split_comma line with
    | [p0; p1] =>
        line_num <- PyStr.int (PyStr.slice_from 3 p0) ;;
        count <- PyStr.int p1 ;;
        cd' <- at_file cd (file_of st)
                 (fun e => with_lines e (max_into (lines e) line_num count)) ;;
        Ok {| coverage_data := cd'; current_file := current_file st |}
    | _ => Ok st
    end
  else if PyStr.startswith line "BRDA:" && here then
    cd1 <- at_file cd (file_of st) (append_branch_data line) ;;
    match PyStr.split_comma line with
    | [p0; p1; p2; p3] =>
        let key := (PyStr.slice_from 5 p0 ++ ":" ++ p1 ++ ":" ++ p2)%string in
        count <- (if String.eqb p3 "-" then Ok 0 else PyStr.int p3) ;;
        cd2 <- at_file cd1 (file_of st)
                 (fun e => with_branches e (max_into (branches e) key count)) ;;
        Ok {| coverage_data := cd2; current_file := current_file st |}
    | _ => Ok {| coverage_data := cd1; current_file := current_file st |}
    end
  else Ok st.

(** The loop [for line in f]; it stops at the first exception. *)
Fixpoint parse_lines (st : pstate) (ls : list string) : result pstate :=
  match ls with
  | [] => Ok st
  | l :: rest => st' <- parse_line st l ;; parse_lines st' rest
  end.

(** What the program sees of the file system.  [read_lines p] is
    [open(p, 'r')] followed by the iteration over the lines (each with
    its line end): a failure to open and a failure while reading are
    both an exception raised inside the [try] of [parse_lcov_file].
    The program reads a line, parses it and reads the next one; here
    the lines are read first.  The two differ for a file that has a
    line raising in the parser before the place where reading fails:
    the result is the empty mapping both ways, the message names the
    parser's exception in the program and the read failure here.
    [mkdirs] is [os.makedirs(d, exist_ok=True)] on a non-empty [d] and
    [open_w] is [open(p, 'w')]; they answer [None] on success.
    [write_w p chunks] is what becomes of the chunks that [f.write] is
    given for the open file [p], up to the close at the end of the
    [with] block: [None] when all of them reach the file, or the
    exception that [f.write] or the close raises (a full device, a
    quota) with what the file holds then. *)
Record filesystem : Type := {
  path_exists : string -> bool;
  read_lines : string -> result (list string);
  mkdirs : string -> option exn;
  open_w : string -> option exn;
  write_w : string -> list string -> option (exn * list string)
}.

(** What goes to the standard output: one call of [print], or the help
    text of [argparse]. *)
Inductive event : Type :=
| Printed (s : string)
| PrintedErrorParsing (file_path : string) (e : exn)
    (* "Error parsing {file_path}: {e}" *)
| PrintedHelp.

Definition parse_lcov_file (fs : filesystem) (file_path : string)
  : coverage * list event :=
  match (ls <- read_lines fs file_path ;;
         st <- parse_lines initial_pstate ls ;;
         Ok (coverage_data st)) with
  | Ok cd => (cd, [])
  | Raise e => (Dict.empty, [PrintedErrorParsing file_path e])
  end.

(** ** merge_coverage_files *)

(** The loop over the items of one counter of the incoming record. *)
Definition merge_counts {K : Type} `{EqKey K} (agg incoming : Dict.t K Z)
  : Dict.t K Z :=
  fold_left (fun a kc => max_into a (fst kc) (snd kc)) (Dict.items incoming) agg.

(** The record a new source file starts with: empty counters and a copy
    of the definition lines of this first occurrence. *)
Definition seed (data : entry) : entry :=
  {| functions := Dict.empty; lines := Dict.empty; branches := Dict.empty;
     function_data := function_data data; branch_data := branch_data data |}.

Definition merge_entry (data e : entry) : entry :=
  {| functions := merge_counts (functions e) (functions data);
     lines := merge_counts (lines e) (lines data);
     branches := merge_counts (branches e) (branches data);
     function_data := function_data e;
     branch_data := branch_data e |}.

(** The body of [for source_file, data in file_data.items()]. *)
Definition merge_source (merged : coverage) (item : string * entry) : coverage :=
  let '(source_file, data) := item in
  let merged1 :=
    if Dict.contains merged source_file then merged
    else Dict.set merged source_file (seed data) in
  Dict.update merged1 source_file (merge_entry data).

Definition merge_file_data (merged file_data : coverage) : coverage :=
  fold_left merge_source (Dict.items file_data) merged.

(** The body of [for file_path in file_paths]. *)
Definition merge_step (fs : filesystem) (acc : coverage * list event)
    (file_path : string) : coverage * list event :=
  let '(merged, out) := acc in
  if negb (path_exists fs file_path) then
    (merged, out ++ [Printed ("Warning: File not found: " ++ file_path)])
  else
    let out1 := out ++ [Printed ("Processing: " ++ file_path)] in
    let '(file_data, out2) := parse_lcov_file fs file_path in
    (merge_file_data merged file_data, out1 ++ out2).

Definition merge_coverage_files (fs : filesystem) (file_paths : list string)
  : coverage * list event :=
  fold_left (merge_step fs) file_paths (Dict.empty, []).

(** ** write_merged_lcov *)

(** The line end. *)
Definition nl : string := String (ascii_of_nat 10) EmptyString.

(** An open output file: the chunks [f.write] has put so far. *)
Definition file : Type := list string.

Definition write (f : file) (s : string) : file := f ++ [s].

(** [x in seen] for a set of strings. *)
Definition mem (x : string) (seen : list string) : bool :=
  existsb (String.eqb x) seen.

(** The loop that writes definition lines through a [seen] set. *)
Definition write_dedup_step (st : file * list string) (l : string)
  : file * list string :=
  let '(f, seen) := st in
  if mem l seen then (f, seen) else (write f (l ++ nl), l :: seen).

Definition write_dedup (f : file) (data_lines : list string) : file :=
  fst (fold_left write_dedup_step data_lines (f, [])).

(** [sum(...)] of integers. *)
Definition py_sum (l : list Z) : Z := fold_left Z.add l 0.

(** [sum(1 for count in d.values() if count > 0)] *)
Definition covered {K : Type} (d : Dict.t K Z) : Z :=
  py_sum (map (fun _ => 1) (filter (fun count => count >? 0) (Dict.values d))).

(** The order of Python on pairs of integers. *)
Definition pair_leb (a b : Z * Z) : bool :=
  (fst a <? fst b) || ((fst a =? fst b) && (snd a <=? snd b)).

Fixpoint insert_sorted (x : Z * Z) (l : list (Z * Z)) : list (Z * Z) :=
  match l with
  | [] => [x]
  | y :: r => if pair_leb x y then x :: l else y :: insert_sorted x r
  end.

(** [sorted(l)] on pairs of integers: the order is total, so the result
    does not depend on the algorithm. *)
Fixpoint sorted (l : list (Z * Z)) : list (Z * Z) :=
  match l with
  | [] => []
  | x :: r => insert_sorted x (sorted r)
  end.

Definition fnda_line (item : string * Z) : string :=
  "FNDA:" ++ PyStr.str (snd item) ++ "," ++ fst item ++ nl.

Definition da_line (item : Z * Z) : string :=
  "DA:" ++ PyStr.str (fst item) ++ "," ++ PyStr.str (snd item) ++ nl.

(** The body of [for source_file, data in merged_data.items()]. *)
Definition write_entry (f : file) (item : string * entry) : file :=
  let '(source_file, data) := item in
  let f := write f ("TN:" ++ nl) in
  let f := write f ("SF:" ++ source_file ++ nl) in
  let f := write_dedup f (function_data data) in
  let f := fold_left (fun f it => write f (fnda_line it))
             (Dict.items (functions data)) f in
  let total_funcs := Dict.len (functions data) in
  let covered_funcs := covered (functions data) in
  let f := write f ("FNF:" ++ PyStr.str total_funcs ++ nl) in
  let f := write f ("FNH:" ++ PyStr.str covered_funcs ++ nl) in
  let f := write_dedup f (branch_data data) in
  let total_branches := Dict.len (branches data) in
  let covered_branches := covered (branches data) in
  let f := write f ("BRF:" ++ PyStr.str total_branches ++ nl) in
  let f := write f ("BRH:" ++ PyStr.str covered_branches ++ nl) in
  let f := fold_left (fun f it => write f (da_line it))
             (sorted (Dict.items (lines data))) f in
  let total_lines := Dict.len (lines data) in
  let covered_lines := covered (lines data) in
  let f := write f ("LF:" ++ PyStr.str total_lines ++ nl) in
  let f := write f ("LH:" ++ PyStr.str covered_lines ++ nl) in
  write f ("end_of_record" ++ nl).

(** What the [with] block writes into the fresh file. *)
Definition lcov_text (merged_data : coverage) : file :=
  fold_left write_entry (Dict.items merged_data) [].

(** [os.path.dirname] of [posixpath]. *)
Fixpoint upto_last_slash (p : string) : string :=
  match p with
  | EmptyString => EmptyString
  | String c r =>
      match upto_last_slash r with
      | EmptyString => if Ascii.eqb c "/" then String c EmptyString else EmptyString
      | h => String c h
      end
  end.

Fixpoint all_slashes (s : string) : bool :=
  match s with
  | EmptyString => true
  | String c r => Ascii.eqb c "/" && all_slashes r
  end.

Definition dirname (p : string) : string :=
  let head := upto_last_slash p in
  if negb (all_slashes head) then PyStr.rstrip (fun c => Ascii.eqb c "/") head
  else head.

(** [os.makedirs(d, exist_ok=True)]: the empty path is refused whatever
    the file system holds. *)
Definition os_makedirs (fs : filesystem) (d : string) : result unit :=
  match d with
  | EmptyString => Raise (OSError "[Errno 2] No such file or directory: ''")
  | _ => match mkdirs fs d with
         | None => Ok tt
         | Some e => Raise e
         end
  end.

Definition os_open_w (fs : filesystem) (p : string) : result unit :=
  match open_w fs p with
  | None => Ok tt
  | Some e => Raise e
  end.

(** The calls of [f.write] and the close of the file. *)
Definition os_write (fs : filesystem) (p : string) (text : file) : result unit :=
  match write_w fs p text with
  | None => Ok tt
  | Some (e, _) => Raise e
  end.

(** Returns the content of the file at [output_path] once it is closed
    without an error. *)
Definition write_merged_lcov (fs : filesystem) (merged_data : coverage)
    (output_path : string) : result file :=
  _ <- os_makedirs fs (dirname output_path) ;;
  _ <- os_open_w fs output_path ;;
  _ <- os_write fs output_path (lcov_text merged_data) ;;
  Ok (lcov_text merged_data).

(** The output file as a call of [write_merged_lcov] leaves it: none
    when the directory or the file could not be made, and what had
    reached the file when a write or the close failed. *)
Definition left_behind (fs : filesystem) (merged_data : coverage)
    (output_path : string) : option (string * file) :=
  match os_makedirs fs (dirname output_path) with
  | Raise _ => None
  | Ok _ =>
      match os_open_w fs output_path with
      | Raise _ => None
      | Ok _ =>
          match write_w fs output_path (lcov_text merged_data) with
          | Some (_, kept) => Some (output_path, kept)
          | None => Some (output_path, lcov_text merged_data)
          end
      end
  end.

(** ** main *)

(** The parsed command line: [files] has one path at least. *)
Record args : Type := {
  files : list string;
  output : string
}.

(** What [parser.parse_args()] makes of the command line (lines
    163-167): the arguments, or the help text on the standard output and
    [sys.exit(0)] when the help was asked for, or a usage message on the
    standard error and [sys.exit(2)] when a path or the output is
    missing or an option is not known.  Which command line gives which
    of the three is the business of [argparse]. *)
Inductive cmdline : Type :=
| Parsed (a : args)
| HelpExit
| UsageExit.

(** Arguments stand for the command line that is parsed into them. *)
Coercion Parsed : args >-> cmdline.

(** How a run ends: [sys.exit(n)] or the normal end ([Exit 0]), or an
    exception nobody caught (the interpreter then exits with 1). *)
Inductive ending : Type :=
| Exit (status : Z)
| Uncaught (e : exn).

Definition exit_status (t : ending) : Z :=
  match t with
  | Exit n => n
  | Uncaught _ => 1
  end.

(** A run of [main]: what it prints, the output file as it leaves it
    (if it opened one) and how it ends. *)
Record run : Type := {
  stdout : list event;
  written : option (string * file);
  ended : ending
}.

(** A coverage ratio: the integer [0], or the float
    [covered / total * 100], kept as its two operands. *)
Inductive percent : Type :=
| PInt (n : Z)
| PFloat (covered total : Z).

(** [a / b] on integers, then [* 100]. *)
Definition true_div_100 (a b : Z) : result percent :=
  if b =? 0 then Raise ZeroDivisionError else Ok (PFloat a b).

(** [(covered / total * 100) if total > 0 else 0] *)
Definition coverage_pct (covered total : Z) : result percent :=
  if total >? 0 then true_div_100 covered total else Ok (PInt 0).

(** [sum(len(data[...]) for data in merged_data.values())] and the like. *)
Definition total_of {K : Type} (counter : entry -> Dict.t K Z)
    (merged_data : coverage) : Z :=
  py_sum (map (fun data => Dict.len (counter data)) (Dict.values merged_data)).

Definition covered_of {K : Type} (counter : entry -> Dict.t K Z)
    (merged_data : coverage) : Z :=
  py_sum (map (fun data => covered (counter data)) (Dict.values merged_data)).

Section Driver.

(** The text of [f"{x:.2f}"] for the float [covered / total * 100];
    floating point is left outside of the embedding. *)
Variable float_2f : Z -> Z -> string.

(** [f"{x:.2f}"]; the only integer that reaches it is 0. *)
Definition format_2f (x : percent) : string :=
  match x with
  | PInt n => PyStr.str n ++ ".00"
  | PFloat c t => float_2f c t
  end.

Definition summary_line (label : string) (cov total : Z) (pct : percent)
  : event :=
  Printed ("  " ++ label ++ ": " ++ PyStr.str cov ++ "/" ++ PyStr.str total
         ++ " (" ++ format_2f pct ++ "%)").

(** The part of [main] after the file is written. *)
Definition print_summary (merged_data : coverage) (output_path : string)
  : result (list event) :=
  let total_files := Dict.len merged_data in
  let total_lines := total_of lines merged_data in
  let covered_lines := covered_of lines merged_data in
  let total_functions := total_of functions merged_data in
  let covered_functions := covered_of functions merged_data in
  let total_branches := total_of branches merged_data in
  let covered_branches := covered_of branches merged_data in
  coverage_pct' <- coverage_pct covered_lines total_lines ;;
  function_pct <- coverage_pct covered_functions total_functions ;;
  branch_pct <- coverage_pct covered_branches total_branches ;;
  Ok [ Printed (nl ++ "Merged coverage summary:");
       Printed ("  Files: " ++ PyStr.str total_files);
       summary_line "Lines" covered_lines total_lines coverage_pct';
       summary_line "Functions" covered_functions total_functions function_pct;
       summary_line "Branches" covered_branches total_branches branch_pct;
       Printed ("  Output: " ++ output_path) ].

(** [main], on what [parse_args] has made of the command line.  It
    describes a run whose standard output takes what is printed. *)
Definition main (fs : filesystem) (c : cmdline) : run :=
  match c with
  | HelpExit => {| stdout := [PrintedHelp]; written := None; ended := Exit 0 |}
  | UsageExit => {| stdout := []; written := None; ended := Exit 2 |}
  | Parsed a =>
      let out0 :=
        [Printed ("Merging " ++ PyStr.str (Z.of_nat (List.length (files a)))
                ++ " coverage files...")] in
      let '(merged_data, out1) := merge_coverage_files fs (files a) in
      if Dict.is_empty merged_data then
        {| stdout := out0 ++ out1 ++ [Printed "No coverage data found!"];
           written := None;
           ended := Exit 1 |}
      else
        match write_merged_lcov fs merged_data (output a) with
        | Raise e =>
            {| stdout := out0 ++ out1;
               written := left_behind fs merged_data (output a);
               ended := Uncaught e |}
        | Ok text =>
            match print_summary merged_data (output a) with
            | Raise e =>
                {| stdout := out0 ++ out1;
                   written := Some (output a, text);
                   ended := Uncaught e |}
            | Ok out2 =>
                {| stdout := out0 ++ out1 ++ out2;
                   written := Some (output a, text);
                   ended := Exit 0 |}
            end
        end
  end.

(** The script run as a process (lines 198-199).  When the standard
    output does not take what is printed (a closed pipe, a full device)
    [print], or the flush when the interpreter exits, fails, and the
    interpreter ends the process with a status of its own: the
    embedding leaves such a run open. *)
Definition script (fs : filesystem) (stdout_accepts : bool) (c : cmdline)
  : option run :=
  if stdout_accepts then Some (main fs c) else None.

End Driver.

(** ** Definitions used to state the properties *)

(** The merger proper, on the parse results. *)
Definition merge_all (inputs : list coverage) : coverage :=
  fold_left merge_file_data inputs Dict.empty.

(** The parse results that [merge_coverage_files] folds in: one per path
    that exists, in the order of the command line. *)
Definition parsed_inputs (fs : filesystem) (file_paths : list string)
  : list coverage :=
  map (fun p => fst (parse_lcov_file fs p)) (filter (path_exists fs) file_paths).

(** The count stored for a key of a source file, if any. *)
Definition merged_count {K : Type} `{EqKey K} (counter : entry -> Dict.t K Z)
    (m : coverage) (source_file : string) (k : K) : option Z :=
  match Dict.get m source_file with
  | Some e => Dict.get (counter e) k
  | None => None
  end.

(** The counts the inputs hold for that key, in input order. *)
Definition observed {K : Type} `{EqKey K} (counter : entry -> Dict.t K Z)
    (inputs : list coverage) (source_file : string) (k : K) : list Z :=
  flat_map (fun d => match merged_count counter d source_file k with
                     | Some c => [c]
                     | None => []
                     end) inputs.

Definition maximum (l : list Z) : option Z :=
  match l with
  | [] => None
  | x :: r => Some (fold_left Z.max r x)
  end.

(** One step of [d[k] = max(d.get(k, 0), c)] seen from the key [k]. *)
Definition upd (o : option Z) (c : Z) : option Z :=
  Some (Z.max (match o with Some v => v | None => 0 end) c).

(** The counts the items of a counter carry for [k], in iteration order. *)
Definition hits {K : Type} `{EqKey K} (d : Dict.t K Z) (k : K) : list Z :=
  map snd (filter (fun kc => keqb (fst kc) k) d).

Definition file_hits {K : Type} `{EqKey K} (counter : entry -> Dict.t K Z)
    (source_file : string) (k : K) (d : coverage) : list Z :=
  flat_map (fun it => if String.eqb (fst it) source_file
                      then hits (counter (snd it)) k else []) d.

Definition all_hits {K : Type} `{EqKey K} (counter : entry -> Dict.t K Z)
    (source_file : string) (k : K) (inputs : list coverage) : list Z :=
  flat_map (file_hits counter source_file k) inputs.

(** Equality of two counters as Python compares dictionaries. *)
Definition same_counts {K : Type} `{EqKey K} (d d' : Dict.t K Z) : Prop :=
  forall k, Dict.get d k = Dict.get d' k.

(** Well-formed counters: keys met once, counts not negative. *)
Definition counter_ok {K : Type} (d : Dict.t K Z) : Prop :=
  NoDup (Dict.keys d) /\ Forall (fun v => 0 <= v) (Dict.values d).

Definition entry_ok (e : entry) : Prop :=
  counter_ok (functions e) /\ counter_ok (lines e) /\ counter_ok (branches e).

Definition coverage_ok (m : coverage) : Prop :=
  NoDup (Dict.keys m) /\ Forall (fun it => entry_ok (snd it)) m.

(** The definition lines of a record carry their tags. *)
Definition defs_ok (e : entry) : Prop :=
  Forall (fun l => PyStr.startswith l "FN:" = true) (function_data e) /\
  Forall (fun l => PyStr.startswith l "BRDA:" = true) (branch_data e).

Definition parsed_ok (m : coverage) : Prop :=
  coverage_ok m /\ Forall (fun it => defs_ok (snd it)) m.

(** The invariant of the parsing loop. *)
Definition pstate_ok (st : pstate) : Prop :=
  parsed_ok (coverage_data st) /\
  match current_file st with
  | Some f => Dict.contains (coverage_data st) f = true
  | None => True
  end.

(** Whether a parse result names a source file. *)
Definition names (sf : string) (d : coverage) : bool :=
  existsb (fun it => String.eqb (fst it) sf) d.

(** A file system that holds the given files, each as its list of
    lines, and accepts every write. *)
Definition fs_of (content : list (string * list string)) : filesystem :=
  {| path_exists := fun p => Dict.contains content p;
     read_lines := fun p => match Dict.get content p with
                            | Some ls => Ok ls
                            | None => Raise (OSError "No such file or directory")
                            end;
     mkdirs := fun _ => None;
     open_w := fun _ => None;
     write_w := fun _ _ => None |}.

(** The two inputs of the end-to-end scenario. *)
Definition scenario_A : list string :=
  ["SF:x.c" ++ nl; "DA:1,5" ++ nl; "DA:2,0" ++ nl; "end_of_record" ++ nl]%string.

Definition scenario_B : list string :=
  ["SF:x.c" ++ nl; "DA:1,2" ++ nl; "DA:3,4" ++ nl; "end_of_record" ++ nl]%string.

Definition scenario_fs : filesystem :=
  fs_of [("a.info", scenario_A); ("b.info", scenario_B)].

(** Two inputs that report line 10 of [x.c] with the counts 3 and 7. *)
Definition twice_fs : filesystem :=
  fs_of [("a.info", ["SF:x.c"; "DA:10,3"]); ("b.info", ["SF:x.c"; "DA:10,7"])].

(** The first occurrences of the lines of [l] that are not in [seen],
    in the order in which they are met. *)
Fixpoint dedup_from (seen l : list string) : list string :=
  match l with
  | [] => []
  | x :: r =>
      if mem x seen then dedup_from seen r else x :: dedup_from (x :: seen) r
  end.

Definition dedup (l : list string) : list string := dedup_from [] l.

(** The two numbers of a summary: the keys, and the keys hit. *)
Definition count_all {K : Type} (d : Dict.t K Z) : Z := Z.of_nat (List.length d).

Definition count_hit {K : Type} (d : Dict.t K Z) : Z :=
  Z.of_nat (List.length (filter (fun kc => 0 <? snd kc) d)).

Definition with_nl (l : string) : string := l ++ nl.

(** The record block of one source file, as the specification lists
    it, each line with its text spelled out. *)
Definition block (source_file : string) (data : entry) : list string :=
  [("TN:" ++ nl)%string; ("SF:" ++ source_file ++ nl)%string]
  ++ map with_nl (dedup (function_data data))
  ++ map (fun item : string * Z =>
            ("FNDA:" ++ PyStr.str (snd item) ++ "," ++ fst item ++ nl)%string)
       (functions data)
  ++ [("FNF:" ++ PyStr.str (count_all (functions data)) ++ nl)%string;
      ("FNH:" ++ PyStr.str (count_hit (functions data)) ++ nl)%string]
  ++ map with_nl (dedup (branch_data data))
  ++ [("BRF:" ++ PyStr.str (count_all (branches data)) ++ nl)%string;
      ("BRH:" ++ PyStr.str (count_hit (branches data)) ++ nl)%string]
  ++ map (fun item : Z * Z =>
            ("DA:" ++ PyStr.str (fst item) ++ "," ++ PyStr.str (snd item)
             ++ nl)%string)
       (sorted (lines data))
  ++ [("LF:" ++ PyStr.str (count_all (lines data)) ++ nl)%string;
      ("LH:" ++ PyStr.str (count_hit (lines data)) ++ nl)%string;
      ("end_of_record" ++ nl)%string].

(** The summary tags of an input, which the parser does not read. *)
Definition summary_tags : list string :=
  ["FNF:"; "FNH:"; "BRF:"; "BRH:"; "LF:"; "LH:"].

(** The key and the count the parser takes from the four fields of a
    [BRDA] line. *)
Definition branch_key (p0 p1 p2 : string) : string :=
  PyStr.slice_from 5 p0 ++ ":" ++ p1 ++ ":" ++ p2.

Definition branch_count (p3 : string) : result Z :=
  if String.eqb p3 "-" then Ok 0 else PyStr.int p3.

Definition raises {A : Type} (r : result A) : bool :=
  match r with
  | Raise _ => true
  | Ok _ => false
  end.


(** The state after a step that replaces the record of the current file. *)
Definition put_current (st : pstate) (e : entry) : pstate :=
  {| coverage_data := Dict.set (coverage_data st) (file_of st) e;
     current_file := current_file st |}.

(** A parser state inside the record of [a.c], nothing read yet. *)
Definition in_a_c : pstate :=
  {| coverage_data := [("a.c", empty_entry)]; current_file := Some "a.c" |}.

(** The definition lines of a record. *)
Definition defs_of (e : entry) : list string * list string :=
  (function_data e, branch_data e).

Definition orelse {A : Type} (a b : option A) : option A :=
  match a with
  | Some x => Some x
  | None => b
  end.

(** The definition lines of the first input, in merge order, that holds
    the source file. *)
Fixpoint first_defs (sf : string) (inputs : list coverage)
  : option (list string * list string) :=
  match inputs with
  | [] => None
  | d :: r => orelse (option_map defs_of (Dict.get d sf)) (first_defs sf r)
  end.



(** A file system whose output device is full: the file is opened, and
    nothing of what is written reaches it. *)
Definition full_fs : filesystem :=
  {| path_exists := fun p => String.eqb p "a.info";
     read_lines := fun _ => Ok ["SF:a.c"; "DA:1,1"];
     mkdirs := fun _ => None;
     open_w := fun _ => None;
     write_w := fun _ _ => Some (OSError "[Errno 28] No space left on device", []) |}.

(** Two parse results for [x.c], as in the end-to-end scenario. *)
Definition parsed_A : coverage := [("x.c", with_lines empty_entry [(1, 5); (2, 0)])].
Definition parsed_B : coverage := [("x.c", with_lines empty_entry [(1, 2); (3, 4)])].





(** An input whose third line carries a count that is no integer. *)
Definition bad_count_fs : filesystem :=
  fs_of [("a.info", ["SF:a.c"; "DA:1,5"; "DA:1,abc"; "DA:2,2"])].

(** A count as a list of zero or one element. *)
Definition opt_list (o : option Z) : list Z :=
  match o with
  | Some c => [c]
  | None => []
  end.

(** [agg] holds every key of [incoming] with a count at least as high. *)
Definition dominates {K : Type} `{EqKey K} (agg incoming : Dict.t K Z) : Prop :=
  forall k c, In (k, c) incoming ->
    exists v, Dict.get agg k = Some v /\ c <= v.

(** The aggregate holds every record of a parse result, key by key
    with a count at least as high. *)
Definition covers (m d : coverage) : Prop :=
  forall sf data, In (sf, data) d ->
    exists e, Dict.get m sf = Some e /\
              dominates (functions e) (functions data) /\
              dominates (lines e) (lines data) /\
              dominates (branches e) (branches data).

(** Every key of [d] is a key of [d'] with a count at least as high. *)
Definition grows {K : Type} `{EqKey K} (d d' : Dict.t K Z) : Prop :=
  forall k v, Dict.get d k = Some v ->
    exists v', Dict.get d' k = Some v' /\ v <= v'.

Definition grows_coverage (m m' : coverage) : Prop :=
  forall sf e, Dict.get m sf = Some e ->
    exists e', Dict.get m' sf = Some e' /\
               grows (functions e) (functions e') /\
               grows (lines e) (lines e') /\
               grows (branches e) (branches e').

(** What the merge prints for one input path. *)
Definition messages_of (fs : filesystem) (file_path : string) : list event :=
  if path_exists fs file_path
  then Printed ("Processing: " ++ file_path) :: snd (parse_lcov_file fs file_path)
  else [Printed ("Warning: File not found: " ++ file_path)].

(** A line that carries none of the five tags the parser reads. *)
Definition untagged (line : string) : bool :=
  negb (PyStr.startswith line "SF:") && negb (PyStr.startswith line "FN:")
  && negb (PyStr.startswith line "FNDA:") && negb (PyStr.startswith line "DA:")
  && negb (PyStr.startswith line "BRDA:").

(** Every character of the string passes the test. *)
Fixpoint all_chars (p : ascii -> bool) (s : string) : bool :=
  match s with
  | EmptyString => true
  | String c r => p c && all_chars p r
  end.

(** The characters of the decimal text of an integer. *)
Definition is_numeral_char (c : ascii) : bool :=
  match PyStr.digit c with
  | Some _ => true
  | None => Ascii.eqb c "-"
  end.

Definition not_comma (c : ascii) : bool := negb (Ascii.eqb c ",").

(** An integer whose decimal text has no more digits than [int()]
    accepts. *)
Definition capped (z : Z) : Prop :=
  (String.length (PyStr.str (Z.abs z)) <= PyStr.int_max_str_digits)%nat.

(** A file system in which every path exists but only [a.info] can be
    read. *)
Definition broken_fs : filesystem :=
  {| path_exists := fun _ => true;
     read_lines := fun p => if String.eqb p "a.info" then Ok scenario_A
                            else Raise (OSError "[Errno 5] Input/output error");
     mkdirs := fun _ => None;
     open_w := fun _ => None;
     write_w := fun _ _ => None |}.

(** An input with a header, an empty source path and a record. *)
Definition odd_lines : list string :=
  ["TN:suite"; "DA:9,9"; "SF:"; "DA:1,1"; "SF:a.c"; "DA:1,5"; "end_of_record";
   "DA:2,3"].

(** A string that does not end in white space. *)
Definition rstripped (s : string) : Prop := PyStr.rstrip PyStr.isspace s = s.

(** A [BRDA] line whose count, if it has four fields, can be read. *)
Definition brda_reads (l : string) : bool :=
  match PyStr.split_comma l with
  | [_; _; _; p3] => negb (raises (branch_count p3))
  | _ => true
  end.

(** What one readable [BRDA] line does to the branch counter. *)
Definition brda_count_step (b : Dict.t string Z) (l : string) : Dict.t string Z :=
  match PyStr.split_comma l with
  | [p0; p1; p2; p3] =>
      match branch_count p3 with
      | Ok c => max_into b (branch_key p0 p1 p2) c
      | Raise _ => b
      end
  | _ => b
  end.

(** The record that the parser builds from the block written for a
    record: the function and line counters come back (the lines in the
    order of the line numbers), the definition lines come back without
    their repetitions, and the branch counter is the one that the
    branch definition lines carry. *)
Definition reread (data : entry) : entry :=
  {| functions := functions data;
     lines := sorted (lines data);
     branches := fold_left brda_count_step (dedup (branch_data data)) Dict.empty;
     function_data := dedup (function_data data);
     branch_data := dedup (branch_data data) |}.

(** The records whose block can be read back. *)
Definition rereadable_entry (e : entry) : Prop :=
  entry_ok e /\
  Forall (fun kc => rstripped (fst kc) /\ capped (snd kc)) (functions e) /\
  Forall (fun kc => capped (fst kc) /\ capped (snd kc)) (lines e) /\
  Forall (fun l => PyStr.strip l = l /\ PyStr.startswith l "FN:" = true)
         (function_data e) /\
  Forall (fun l => PyStr.strip l = l /\ PyStr.startswith l "BRDA:" = true /\
                   brda_reads l = true)
         (branch_data e).

Definition rereadable (m : coverage) : Prop :=
  NoDup (Dict.keys m) /\
  Forall (fun it => rstripped (fst it) /\ rereadable_entry (snd it) /\
                    (fst it = EmptyString -> snd it = empty_entry)) m.

(** The lines [ls], read inside a record, turn the record of the current
    file from [e] into [f e] and leave the rest of the state alone. *)
Definition acts (ls : list string) (f : entry -> entry) : Prop :=
  forall st e,
    PyStr.truthy (current_file st) = true ->
    Dict.get (coverage_data st) (file_of st) = Some e ->
    parse_lines st ls = Ok (put_current st (f e)).

(** The lines of a block after its [TN] and [SF] lines. *)
Definition record_body (data : entry) : list string :=
  map with_nl (dedup (function_data data))
  ++ map fnda_line (functions data)
  ++ [("FNF:" ++ PyStr.str (count_all (functions data)) ++ nl)%string;
      ("FNH:" ++ PyStr.str (count_hit (functions data)) ++ nl)%string]
  ++ map with_nl (dedup (branch_data data))
  ++ [("BRF:" ++ PyStr.str (count_all (branches data)) ++ nl)%string;
      ("BRH:" ++ PyStr.str (count_hit (branches data)) ++ nl)%string]
  ++ map da_line (sorted (lines data))
  ++ [("LF:" ++ PyStr.str (count_all (lines data)) ++ nl)%string;
      ("LH:" ++ PyStr.str (count_hit (lines data)) ++ nl)%string;
      ("end_of_record" ++ nl)%string].

(** The aggregate that comes back from its own text. *)
Definition reread_all (m : coverage) : coverage :=
  map (fun it => (fst it, reread (snd it))) m.

(** The current file after the blocks of [m]. *)
Definition last_source (m : coverage) (cur : option string) : option string :=
  fold_left (fun _ it => Some (fst it)) m cur.

(** The digits of a literal without its underscores, as a decimal
    numeral. *)
Fixpoint uint_of_digits (s : string) : Decimal.uint :=
  match s with
  | EmptyString => Decimal.Nil
  | String c r =>
      let u := uint_of_digits r in
      match PyStr.digit c with
      | Some 0 => Decimal.D0 u
      | Some 1 => Decimal.D1 u
      | Some 2 => Decimal.D2 u
      | Some 3 => Decimal.D3 u
      | Some 4 => Decimal.D4 u
      | Some 5 => Decimal.D5 u
      | Some 6 => Decimal.D6 u
      | Some 7 => Decimal.D7 u
      | Some 8 => Decimal.D8 u
      | Some 9 => Decimal.D9 u
      | _ => u
      end
  end.

(** The texts of a record as the parser leaves them: names without
    trailing white space, numbers that [int()] accepts, definition lines
    stripped and tagged, branch definition lines with a readable
    count. *)
Definition texts_ok (e : entry) : Prop :=
  Forall (fun kc => rstripped (fst kc) /\ capped (snd kc)) (functions e) /\
  Forall (fun kc => capped (fst kc) /\ capped (snd kc)) (lines e) /\
  Forall (fun l => PyStr.strip l = l /\ PyStr.startswith l "FN:" = true)
         (function_data e) /\
  Forall (fun l => PyStr.strip l = l /\ PyStr.startswith l "BRDA:" = true /\
                   brda_reads l = true)
         (branch_data e).

Definition all_texts_ok (m : coverage) : Prop :=
  Forall (fun it => rstripped (fst it) /\ texts_ok (snd it)) m.

(** A string that does not start with white space. *)
Definition starts_visible (sp : ascii -> bool) (s : string) : Prop :=
  match s with
  | EmptyString => True
  | String c _ => sp c = false
  end.

(** An aggregate whose branch count, 3, was merged from a later input:
    the stored [BRDA] line still carries the count of the first one. *)
Definition sample_aggregate : coverage :=
  [("x.c",
    {| functions := [("f", 2)];
       lines := [(3, 4); (1, 5)];
       branches := [("1:0:0", 3)];
       function_data := ["FN:1,f"; "FN:1,f"];
       branch_data := ["BRDA:1,0,0,1"] |})].

(** A file system that holds one file, with the given lines. *)
Definition holding (path : string) (ls : list string) : filesystem :=
  fs_of [(path, ls)].

Definition not_slash (c : ascii) : bool := negb (Ascii.eqb c "/").

Definition not_newline (c : ascii) : bool := negb (Ascii.eqb c (ascii_of_nat 10)).

(** A string without a line break. *)
Definition no_break (s : string) : Prop := all_chars not_newline s = true.

(** What iterating over a text file yields: a line, with its line end
    unless it is the last one. *)
Definition one_line (raw : string) : Prop :=
  exists l, no_break l /\ (raw = l \/ raw = (l ++ nl)%string).

(** A chunk that is exactly one line of the output. *)
Definition line_chunk (chunk : string) : Prop :=
  exists l, chunk = (l ++ nl)%string /\ no_break l.

(** The names and the definition lines of a record have no line break. *)
Definition breaks_ok (e : entry) : Prop :=
  Forall (fun kc => no_break (fst kc)) (functions e) /\
  Forall no_break (function_data e) /\
  Forall no_break (branch_data e).

Definition all_breaks_ok (m : coverage) : Prop :=
  Forall (fun it => no_break (fst it) /\ breaks_ok (snd it)) m.




(** A character that ends a line of a text file as Python reads it: a
    line feed or a carriage return. *)
Definition line_end (c : ascii) : bool :=
  Ascii.eqb c (ascii_of_nat 10) || Ascii.eqb c (ascii_of_nat 13).

Definition plain_char (c : ascii) : bool :=
  (nat_of_ascii c <? 128)%nat && negb (line_end c).

(** ASCII text without a line end in it: written inside one line, it is
    read back inside one line, character by character. *)
Definition plain (s : string) : Prop := all_chars plain_char s = true.

(** A chunk that is one line of plain text and its line end. *)
Definition plain_chunk (chunk : string) : Prop :=
  exists l, chunk = (l ++ nl)%string /\ plain l.

(** The names and the definition lines of a record are plain. *)
Definition plain_entry (e : entry) : Prop :=
  Forall (fun kc => plain (fst kc)) (functions e) /\
  Forall plain (function_data e) /\
  Forall plain (branch_data e).

Definition plain_coverage (m : coverage) : Prop :=
  Forall (fun it => plain (fst it) /\ plain_entry (snd it)) m.

(** * Properties *)

(** ** Dictionaries *)

Section DictFacts.
Context {K V : Type} `{EqKey K}.

Lemma keqb_refl (k : K) : keqb k k = true.
Proof. now apply keqb_eq. Qed.

Lemma keqb_neq (a b : K) : a <> b -> keqb a b = false.
Proof.
  intros Hab. destruct (keqb a b) eqn:E; [|reflexivity].
  apply keqb_eq in E. contradiction.
Qed.

Lemma keqb_true (a b : K) : keqb a b = true -> a = b.
Proof. apply keqb_eq. Qed.

Lemma keqb_false (a b : K) : keqb a b = false -> a <> b.
Proof. intros E Hab. subst. rewrite keqb_refl in E. discriminate. Qed.

Lemma get_set_same (d : Dict.t K V) k v : Dict.get (Dict.set d k v) k = Some v.
Proof.
  induction d as [|[k0 v0] r IH]; simpl.
  - now rewrite keqb_refl.
  - destruct (keqb k0 k) eqn:E; simpl; rewrite E; auto.
Qed.

Lemma get_set_other (d : Dict.t K V) k v k' :
  k <> k' -> Dict.get (Dict.set d k v) k' = Dict.get d k'.
Proof.
  intros Hne. induction d as [|[k0 v0] r IH]; simpl.
  - now rewrite keqb_neq.
  - destruct (keqb k0 k) eqn:E; simpl.
    + apply keqb_true in E. subst k0. now rewrite (keqb_neq _ _ Hne).
    + destruct (keqb k0 k'); auto.
Qed.

Lemma get_set (d : Dict.t K V) k v k' :
  Dict.get (Dict.set d k v) k' = if keqb k k' then Some v else Dict.get d k'.
Proof.
  destruct (keqb k k') eqn:E.
  - apply keqb_true in E. subst. apply get_set_same.
  - apply get_set_other. now apply keqb_false.
Qed.

Lemma get_update (d : Dict.t K V) k f k' :
  Dict.get (Dict.update d k f) k' =
  if keqb k k' then option_map f (Dict.get d k) else Dict.get d k'.
Proof.
  induction d as [|[k0 v0] r IH]; simpl.
  - now destruct (keqb k k').
  - destruct (keqb k0 k) eqn:E; simpl.
    + apply keqb_true in E. subst k0.
      destruct (keqb k k') eqn:E'; reflexivity.
    + rewrite IH. destruct (keqb k0 k') eqn:E'; [|reflexivity].
      apply keqb_true in E'. subst k0. now rewrite (keqb_neq k k') by
        (intros ->; rewrite keqb_refl in E; discriminate).
Qed.

Lemma contains_get (d : Dict.t K V) k :
  Dict.contains d k = true <-> exists v, Dict.get d k = Some v.
Proof.
  unfold Dict.contains. destruct (Dict.get d k).
  - split; eauto.
  - split; [discriminate | intros [v Hv]; discriminate].
Qed.

Lemma get_none_keys (d : Dict.t K V) k :
  Dict.get d k = None <-> ~ In k (Dict.keys d).
Proof.
  induction d as [|[k0 v0] r IH]; simpl.
  - tauto.
  - destruct (keqb k0 k) eqn:E.
    + apply keqb_true in E. split; [discriminate | intros Hn; exfalso; auto].
    + apply keqb_false in E. rewrite IH. tauto.
Qed.

Lemma get_In (d : Dict.t K V) k v : Dict.get d k = Some v -> In (k, v) d.
Proof.
  induction d as [|[k0 v0] r IH]; simpl; [discriminate|].
  destruct (keqb k0 k) eqn:E.
  - apply keqb_true in E. intros [= ->]. subst. auto.
  - auto.
Qed.

Lemma In_get (d : Dict.t K V) k v :
  NoDup (Dict.keys d) -> In (k, v) d -> Dict.get d k = Some v.
Proof.
  induction d as [|[k0 v0] r IH]; simpl; [tauto|].
  intros Hnd [Hin | Hin].
  - injection Hin as -> ->. now rewrite keqb_refl.
  - inversion Hnd as [|? ? Hno Hnd']; subst.
    destruct (keqb k0 k) eqn:E.
    + apply keqb_true in E. subst k0. exfalso. apply Hno.
      change (In (fst (k, v)) (map fst r)). now apply in_map.
    + auto.
Qed.

Lemma keys_set (d : Dict.t K V) k v :
  Dict.keys (Dict.set d k v) =
  if Dict.contains d k then Dict.keys d else Dict.keys d ++ [k].
Proof.
  unfold Dict.contains. induction d as [|[k0 v0] r IH]; simpl; [reflexivity|].
  destruct (keqb k0 k) eqn:E; simpl; [reflexivity|].
  rewrite IH. now destruct (Dict.get r k).
Qed.

Lemma keys_update (d : Dict.t K V) k f :
  Dict.keys (Dict.update d k f) = Dict.keys d.
Proof.
  induction d as [|[k0 v0] r IH]; simpl; [reflexivity|].
  destruct (keqb k0 k); simpl; [reflexivity|]. now rewrite IH.
Qed.

Lemma NoDup_keys_set (d : Dict.t K V) k v :
  NoDup (Dict.keys d) -> NoDup (Dict.keys (Dict.set d k v)).
Proof.
  intros Hnd. rewrite keys_set. unfold Dict.contains.
  destruct (Dict.get d k) eqn:E; [assumption|].
  apply get_none_keys in E.
  apply NoDup_rev in Hnd. rewrite <- (rev_involutive (Dict.keys d ++ [k])).
  apply NoDup_rev. rewrite rev_app_distr. simpl. constructor; [|assumption].
  now rewrite <- in_rev.
Qed.

Lemma In_set (d : Dict.t K V) k v k' v' :
  In (k', v') (Dict.set d k v) -> (k' = k /\ v' = v) \/ In (k', v') d.
Proof.
  induction d as [|[k0 v0] r IH]; simpl.
  - intros [[= <- <-] | []]. auto.
  - destruct (keqb k0 k) eqn:E; simpl.
    + apply keqb_true in E. subst k0.
      intros [[= <- <-] | Hin]; auto.
    + intros [Heq | Hin]; auto. destruct (IH Hin); auto.
Qed.

Lemma In_update (d : Dict.t K V) k f k' v' :
  In (k', v') (Dict.update d k f) ->
  In (k', v') d \/ (k' = k /\ exists v, In (k, v) d /\ v' = f v).
Proof.
  induction d as [|[k0 v0] r IH]; simpl; [tauto|].
  destruct (keqb k0 k) eqn:E; simpl.
  - apply keqb_true in E. subst k0.
    intros [[= <- <-] | Hin]; eauto 6.
  - intros [Heq | Hin]; auto.
    destruct (IH Hin) as [?|[-> [v [? ?]]]]; eauto 7.
Qed.

End DictFacts.

(** ** The max-merge of one counter *)

Lemma upd_Some (v c : Z) : upd (Some v) c = Some (Z.max v c).
Proof. reflexivity. Qed.

Lemma upd_comm (o : option Z) (a b : Z) : upd (upd o a) b = upd (upd o b) a.
Proof. unfold upd. f_equal. lia. Qed.

Lemma fold_upd_perm (l l' : list Z) :
  Permutation l l' -> forall o, fold_left upd l o = fold_left upd l' o.
Proof.
  induction 1 as [|x l l' _ IH|x y l|l l' l'' _ IH1 _ IH2]; intros o;
    cbn [fold_left].
  - reflexivity.
  - apply IH.
  - now rewrite upd_comm.
  - now rewrite IH1.
Qed.

Lemma fold_upd_Some (l : list Z) (v : Z) :
  fold_left upd l (Some v) = Some (fold_left Z.max l v).
Proof.
  revert v. induction l as [|c l IH]; intros v; cbn [fold_left].
  - reflexivity.
  - rewrite upd_Some. apply IH.
Qed.

Lemma fold_upd_maximum (l : list Z) :
  Forall (fun c => 0 <= c) l -> fold_left upd l None = maximum l.
Proof.
  destruct l as [|c l]; intros Hpos; cbn [fold_left maximum].
  - reflexivity.
  - inversion Hpos; subst. unfold upd at 2. rewrite fold_upd_Some.
    now rewrite Z.max_r.
Qed.

Section CounterFacts.
Context {K : Type} `{EqKey K}.

Lemma get_max_into (d : Dict.t K Z) k c k' :
  Dict.get (max_into d k c) k' =
  if keqb k k' then upd (Dict.get d k) c else Dict.get d k'.
Proof. unfold max_into. now rewrite get_set. Qed.

Lemma get_merge_counts (agg incoming : Dict.t K Z) k :
  Dict.get (merge_counts agg incoming) k =
  fold_left upd (hits incoming k) (Dict.get agg k).
Proof.
  unfold merge_counts, Dict.items, hits. revert agg.
  induction incoming as [|[k0 c0] r IH]; intros agg; cbn [fold_left].
  - reflexivity.
  - rewrite IH, get_max_into. cbn [fst snd filter].
    destruct (keqb k0 k) eqn:E; cbn [map fold_left snd]; [|reflexivity].
    apply keqb_true in E. now subst k0.
Qed.

Lemma keys_max_into (d : Dict.t K Z) k c :
  NoDup (Dict.keys d) -> NoDup (Dict.keys (max_into d k c)).
Proof. apply NoDup_keys_set. Qed.

Lemma max_into_nonneg (d : Dict.t K Z) k c :
  Forall (fun v => 0 <= v) (Dict.values d) ->
  Forall (fun v => 0 <= v) (Dict.values (max_into d k c)).
Proof.
  unfold max_into, Dict.values. rewrite !Forall_forall. intros Hd v Hv.
  apply in_map_iff in Hv. destruct Hv as [[k' v'] [<- Hin]]. cbn [snd].
  apply In_set in Hin. destruct Hin as [[_ ->] | Hin].
  - assert (0 <= Dict.get_default d k 0); [|lia].
    unfold Dict.get_default. destruct (Dict.get d k) as [v|] eqn:G; [|lia].
    apply Hd. apply get_In in G. change v with (snd (k, v)). now apply in_map.
  - apply Hd. change v' with (snd (k', v')). now apply in_map.
Qed.

Lemma merge_counts_wf (agg incoming : Dict.t K Z) :
  NoDup (Dict.keys agg) /\ Forall (fun v => 0 <= v) (Dict.values agg) ->
  NoDup (Dict.keys (merge_counts agg incoming)) /\
  Forall (fun v => 0 <= v) (Dict.values (merge_counts agg incoming)).
Proof.
  unfold merge_counts, Dict.items. revert agg.
  induction incoming as [|[k0 c0] r IH]; intros agg [Hk Hv]; cbn [fold_left].
  - auto.
  - apply IH. split; [now apply keys_max_into | now apply max_into_nonneg].
Qed.

(** With unique keys, iterating over the items meets a key once. *)
Lemma hits_get (d : Dict.t K Z) k :
  NoDup (Dict.keys d) ->
  hits d k = match Dict.get d k with Some c => [c] | None => [] end.
Proof.
  unfold hits. induction d as [|[k0 c0] r IH]; intros Hnd; [reflexivity|].
  inversion Hnd as [|? ? Hno Hnd']; subst. cbn [filter fst Dict.get].
  destruct (keqb k0 k) eqn:E; cbn [map snd].
  - apply keqb_true in E. subst k0. rewrite (IH Hnd').
    apply get_none_keys in Hno. now rewrite Hno.
  - auto.
Qed.

(** *** One counter through the whole merge *)

Variable counter : entry -> Dict.t K Z.
Hypothesis counter_merge : forall data e,
  counter (merge_entry data e) = merge_counts (counter e) (counter data).
Hypothesis counter_seed : forall data, counter (seed data) = Dict.empty.

Lemma merged_count_source (m : coverage) sf' data sf k :
  merged_count counter (merge_source m (sf', data)) sf k =
  if String.eqb sf' sf
  then fold_left upd (hits (counter data) k) (merged_count counter m sf k)
  else merged_count counter m sf k.
Proof.
  unfold merged_count, merge_source. rewrite get_update.
  change (@keqb string _ sf' sf) with (String.eqb sf' sf).
  destruct (String.eqb sf' sf) eqn:E.
  - apply String.eqb_eq in E. subst sf'. unfold Dict.contains.
    destruct (Dict.get m sf) as [e|] eqn:G.
    + rewrite G. cbn [option_map]. now rewrite counter_merge, get_merge_counts.
    + rewrite get_set_same. cbn [option_map].
      now rewrite counter_merge, get_merge_counts, counter_seed.
  - destruct (Dict.contains m sf'); [reflexivity|].
    rewrite get_set_other; [reflexivity|]. now apply String.eqb_neq.
Qed.

Lemma merged_count_file (d m : coverage) sf k :
  merged_count counter (merge_file_data m d) sf k =
  fold_left upd (file_hits counter sf k d) (merged_count counter m sf k).
Proof.
  unfold merge_file_data, Dict.items, file_hits. revert m.
  induction d as [|[sf' data] r IH]; intros m; cbn [fold_left flat_map].
  - reflexivity.
  - rewrite IH, fold_left_app, merged_count_source. cbn [fst snd].
    now destruct (String.eqb sf' sf).
Qed.

Lemma merged_count_inputs (inputs : list coverage) (m : coverage) sf k :
  merged_count counter (fold_left merge_file_data inputs m) sf k =
  fold_left upd (all_hits counter sf k inputs) (merged_count counter m sf k).
Proof.
  unfold all_hits. revert m.
  induction inputs as [|d r IH]; intros m; cbn [fold_left flat_map].
  - reflexivity.
  - now rewrite IH, fold_left_app, merged_count_file.
Qed.

Lemma merged_count_all (inputs : list coverage) sf k :
  merged_count counter (merge_all inputs) sf k =
  fold_left upd (all_hits counter sf k inputs) None.
Proof. unfold merge_all. now rewrite merged_count_inputs. Qed.

Lemma all_hits_perm (inputs inputs' : list coverage) sf k :
  Permutation inputs inputs' ->
  Permutation (all_hits counter sf k inputs) (all_hits counter sf k inputs').
Proof. apply Permutation_flat_map. Qed.

Lemma merged_count_perm (inputs inputs' : list coverage) sf k :
  Permutation inputs inputs' ->
  merged_count counter (merge_all inputs) sf k =
  merged_count counter (merge_all inputs') sf k.
Proof.
  intros Hp. rewrite !merged_count_all.
  apply fold_upd_perm. now apply all_hits_perm.
Qed.

End CounterFacts.

(** ** Well-formedness through the merge *)

Lemma counter_ok_empty {K : Type} : counter_ok (@Dict.empty K Z).
Proof. split; constructor. Qed.

Lemma entry_ok_seed (data : entry) : entry_ok (seed data).
Proof. repeat split; constructor. Qed.

Lemma entry_ok_merge (data e : entry) : entry_ok e -> entry_ok (merge_entry data e).
Proof.
  intros (Hf & Hl & Hb). unfold entry_ok, counter_ok. cbn [functions lines branches merge_entry].
  repeat apply conj; now apply merge_counts_wf.
Qed.

Lemma coverage_ok_set (m : coverage) k e :
  coverage_ok m -> entry_ok e -> coverage_ok (Dict.set m k e).
Proof.
  intros [Hk Hall] He. split; [now apply NoDup_keys_set|].
  rewrite Forall_forall in *. intros [k' e'] Hin.
  apply In_set in Hin. destruct Hin as [[_ ->] | Hin]; [exact He|].
  now apply (Hall (k', e')).
Qed.

Lemma coverage_ok_update (m : coverage) k f :
  (forall e, entry_ok e -> entry_ok (f e)) ->
  coverage_ok m -> coverage_ok (Dict.update m k f).
Proof.
  intros Hf [Hk Hall]. split; [now rewrite keys_update|].
  rewrite Forall_forall in *. intros [k' e'] Hin.
  apply In_update in Hin. destruct Hin as [Hin | [_ [e [Hin ->]]]].
  - now apply (Hall (k', e')).
  - apply Hf. now apply (Hall (k, e)).
Qed.

Lemma coverage_ok_get (m : coverage) k e :
  coverage_ok m -> Dict.get m k = Some e -> entry_ok e.
Proof.
  intros [_ Hall] G. apply get_In in G. rewrite Forall_forall in Hall.
  now apply (Hall (k, e)).
Qed.

Lemma coverage_ok_source (m : coverage) it :
  coverage_ok m -> coverage_ok (merge_source m it).
Proof.
  destruct it as [sf data]. intros Hm. unfold merge_source.
  apply coverage_ok_update; [apply entry_ok_merge|].
  destruct (Dict.contains m sf); [assumption|].
  apply coverage_ok_set; [assumption | apply entry_ok_seed].
Qed.

Lemma coverage_ok_file (d m : coverage) :
  coverage_ok m -> coverage_ok (merge_file_data m d).
Proof.
  unfold merge_file_data, Dict.items. revert m.
  induction d as [|it r IH]; intros m Hm; cbn [fold_left]; [assumption|].
  apply IH. now apply coverage_ok_source.
Qed.

Lemma coverage_ok_inputs (inputs : list coverage) (m : coverage) :
  coverage_ok m -> coverage_ok (fold_left merge_file_data inputs m).
Proof.
  revert m. induction inputs as [|d r IH]; intros m Hm; cbn [fold_left];
    [assumption|].
  apply IH. now apply coverage_ok_file.
Qed.

Lemma coverage_ok_all (inputs : list coverage) : coverage_ok (merge_all inputs).
Proof. apply coverage_ok_inputs. split; constructor. Qed.

(** ** Which source files the aggregate holds *)

Lemma contains_source (m : coverage) sf' data sf :
  Dict.contains (merge_source m (sf', data)) sf =
  Dict.contains m sf || String.eqb sf' sf.
Proof.
  unfold merge_source, Dict.contains at 1. rewrite get_update.
  change (@keqb string _ sf' sf) with (String.eqb sf' sf).
  destruct (String.eqb sf' sf) eqn:E.
  - apply String.eqb_eq in E. subst sf'. rewrite orb_true_r.
    destruct (Dict.contains m sf) eqn:C.
    + apply contains_get in C. destruct C as [e ->]. reflexivity.
    + now rewrite get_set_same.
  - rewrite orb_false_r. destruct (Dict.contains m sf'); [reflexivity|].
    rewrite get_set_other; [reflexivity|]. now apply String.eqb_neq.
Qed.

Lemma contains_file (d m : coverage) sf :
  Dict.contains (merge_file_data m d) sf = Dict.contains m sf || names sf d.
Proof.
  unfold merge_file_data, Dict.items, names. revert m.
  induction d as [|[sf' data] r IH]; intros m; cbn [fold_left existsb fst].
  - now rewrite orb_false_r.
  - now rewrite IH, contains_source, orb_assoc.
Qed.

Lemma contains_inputs (inputs : list coverage) (m : coverage) sf :
  Dict.contains (fold_left merge_file_data inputs m) sf =
  Dict.contains m sf || existsb (names sf) inputs.
Proof.
  revert m. induction inputs as [|d r IH]; intros m; cbn [fold_left existsb].
  - now rewrite orb_false_r.
  - now rewrite IH, contains_file, orb_assoc.
Qed.

Lemma existsb_perm {A : Type} (f : A -> bool) (l l' : list A) :
  Permutation l l' -> existsb f l = existsb f l'.
Proof.
  induction 1 as [|x l l' _ IH|x y l|l l' l'' _ IH1 _ IH2]; cbn [existsb].
  - reflexivity.
  - now rewrite IH.
  - now rewrite !orb_assoc, (orb_comm (f y)).
  - now rewrite IH1.
Qed.

(** Two well-formed counters that answer alike hold the same items. *)
Lemma same_counts_items {K : Type} `{EqKey K} (d d' : Dict.t K Z) :
  NoDup (Dict.keys d) -> NoDup (Dict.keys d') -> same_counts d d' ->
  Permutation d d'.
Proof.
  intros Hd Hd' Hs. apply NoDup_Permutation.
  - eapply NoDup_map_inv. exact Hd.
  - eapply NoDup_map_inv. exact Hd'.
  - intros [k v]. split; intros Hin.
    + apply get_In. rewrite <- Hs. now apply In_get.
    + apply get_In. rewrite Hs. now apply In_get.
Qed.

(** ** C2: the order of the inputs *)

(** C2. For every list of input mappings and every permutation of it,
    the merge holds the same source files, and for each of them the
    three counters [functions], [lines] and [branches] are equal as
    dictionaries: every key has the same count, and the items are the
    same up to their order. *)
Theorem merge_order_independent (inputs inputs' : list coverage) :
  Permutation inputs inputs' ->
  forall sf,
    match Dict.get (merge_all inputs) sf, Dict.get (merge_all inputs') sf with
    | Some e, Some e' =>
        (same_counts (functions e) (functions e') /\
         same_counts (lines e) (lines e') /\
         same_counts (branches e) (branches e')) /\
        (Permutation (functions e) (functions e') /\
         Permutation (lines e) (lines e') /\
         Permutation (branches e) (branches e'))
    | None, None => True
    | _, _ => False
    end.
Proof.
  intros Hp sf.
  assert (Hc : Dict.contains (merge_all inputs) sf =
               Dict.contains (merge_all inputs') sf).
  { unfold merge_all. rewrite !contains_inputs. f_equal.
    now apply existsb_perm. }
  assert (Hf := fun k => merged_count_perm functions
            (fun _ _ => eq_refl) (fun _ => eq_refl) _ _ sf k Hp).
  assert (Hl := fun k => merged_count_perm lines
            (fun _ _ => eq_refl) (fun _ => eq_refl) _ _ sf k Hp).
  assert (Hb := fun k => merged_count_perm branches
            (fun _ _ => eq_refl) (fun _ => eq_refl) _ _ sf k Hp).
  unfold merged_count, Dict.contains in *.
  destruct (Dict.get (merge_all inputs) sf) as [e|] eqn:G;
    destruct (Dict.get (merge_all inputs') sf) as [e'|] eqn:G';
    try discriminate; [|exact I].
  assert (He : entry_ok e) by (eapply coverage_ok_get; [apply coverage_ok_all | exact G]).
  assert (He' : entry_ok e') by (eapply coverage_ok_get; [apply coverage_ok_all | exact G']).
  destruct He as ((? & _) & (? & _) & (? & _)).
  destruct He' as ((? & _) & (? & _) & (? & _)).
  split; [now repeat split|].
  repeat split; now apply same_counts_items.
Qed.

(** ** The parser, line by line *)

Lemma startswith_app (s p : string) :
  PyStr.startswith s p = true -> exists r, s = (p ++ r)%string.
Proof.
  revert s. induction p as [|a p IH]; intros s; cbn [PyStr.startswith].
  - intros _. now exists s.
  - destruct s as [|b s]; [discriminate|]. intros Hs.
    apply andb_true_iff in Hs. destruct Hs as [Hab Hs].
    apply Ascii.eqb_eq in Hab. subst b.
    destruct (IH _ Hs) as [r ->]. now exists r.
Qed.

Lemma contains_set (m : coverage) k e k' :
  Dict.contains (Dict.set m k e) k' = String.eqb k k' || Dict.contains m k'.
Proof.
  unfold Dict.contains. rewrite get_set.
  change (@keqb string _ k k') with (String.eqb k k').
  now destruct (String.eqb k k').
Qed.

Lemma Forall_set {P : entry -> Prop} (m : coverage) k e :
  Forall (fun it => P (snd it)) m -> P e ->
  Forall (fun it => P (snd it)) (Dict.set m k e).
Proof.
  rewrite !Forall_forall. intros Hall He [k' e'] Hin.
  apply In_set in Hin. destruct Hin as [[_ ->] | Hin]; [exact He|].
  now apply (Hall (k', e')).
Qed.

Lemma parsed_ok_set (m : coverage) k e :
  parsed_ok m -> entry_ok e -> defs_ok e -> parsed_ok (Dict.set m k e).
Proof.
  intros [Hc Hd] He Hde. split.
  - now apply coverage_ok_set.
  - now apply Forall_set.
Qed.

Lemma parsed_ok_get (m : coverage) k e :
  parsed_ok m -> Dict.get m k = Some e -> entry_ok e /\ defs_ok e.
Proof.
  intros [Hc Hd] G. split; [now apply (coverage_ok_get m k)|].
  apply get_In in G. rewrite Forall_forall in Hd. now apply (Hd (k, e)).
Qed.

Lemma at_file_ok (cd : coverage) file f cd' :
  parsed_ok cd ->
  (forall e, entry_ok e -> defs_ok e -> entry_ok (f e) /\ defs_ok (f e)) ->
  at_file cd file f = Ok cd' ->
  parsed_ok cd' /\ forall k, Dict.contains cd' k = Dict.contains cd k.
Proof.
  intros Hcd Hf. unfold at_file. destruct (Dict.get cd file) as [e|] eqn:G;
    [|discriminate].
  intros [= <-]. destruct (parsed_ok_get _ _ _ Hcd G) as [He Hde].
  destruct (Hf e He Hde). split; [now apply parsed_ok_set|].
  intros k. rewrite contains_set. destruct (String.eqb file k) eqn:E;
    [|reflexivity].
  apply String.eqb_eq in E. subst k. unfold Dict.contains. now rewrite G.
Qed.

Lemma max_into_ok {K : Type} `{EqKey K} (d : Dict.t K Z) k c :
  counter_ok d -> counter_ok (max_into d k c).
Proof.
  intros [Hk Hv]. split; [now apply keys_max_into | now apply max_into_nonneg].
Qed.

Lemma pstate_ok_initial : pstate_ok initial_pstate.
Proof. repeat split; constructor. Qed.

Lemma pstate_ok_step (st st' : pstate) (cd' : coverage) :
  pstate_ok st ->
  parsed_ok cd' /\ (forall k, Dict.contains cd' k = Dict.contains (coverage_data st) k) ->
  st' = {| coverage_data := cd'; current_file := current_file st |} ->
  pstate_ok st'.
Proof.
  intros [Hp Hc] [Hp' Hk] ->. split; [exact Hp'|]. cbn [current_file coverage_data].
  destruct (current_file st); [|exact I]. now rewrite Hk.
Qed.

Lemma parse_line_ok (st st' : pstate) (raw : string) :
  pstate_ok st -> parse_line st raw = Ok st' -> pstate_ok st'.
Proof.
  intros Hst. pose proof Hst as [Hp Hc]. unfold parse_line.
  set (line := PyStr.strip raw).
  destruct (PyStr.startswith line "SF:") eqn:Esf.
  { intros [= <-]. split; cbn [coverage_data current_file].
    - destruct (Dict.contains (coverage_data st) _); [exact Hp|].
      apply parsed_ok_set; [exact Hp | repeat split; constructor
                           | split; constructor].
    - destruct (Dict.contains (coverage_data st) _) eqn:C; [exact C|].
      rewrite contains_set, String.eqb_refl. reflexivity. }
  destruct (PyStr.startswith line "FN:" && _) eqn:Efn.
  { apply andb_true_iff in Efn. destruct Efn as [Efn _].
    destruct (at_file _ _ _) as [cd'|] eqn:A; [|discriminate].
    intros [= <-]. eapply pstate_ok_step; [exact Hst| |reflexivity].
    eapply at_file_ok; [exact Hp| |exact A].
    intros e He [Hd1 Hd2]. split; [exact He|]. split; [|exact Hd2].
    cbn [function_data append_function_data]. apply Forall_app. split; [exact Hd1|].
    now constructor. }
  destruct (PyStr.startswith line "FNDA:" && _) eqn:Efnda.
  { destruct (PyStr.split_comma_1 line) as [|p0 [|p1 [|? ?]]];
      try (intros [= <-]; exact Hst).
    destruct (PyStr.int _) as [count|]; [|discriminate]. cbn [bind].
    destruct (at_file _ _ _) as [cd'|] eqn:A; [|discriminate].
    intros [= <-]. eapply pstate_ok_step; [exact Hst| |reflexivity].
    eapply at_file_ok; [exact Hp| |exact A].
    intros e (Hf & Hl & Hb) Hd. split; [|exact Hd].
    split; [now apply max_into_ok | split; assumption]. }
  destruct (PyStr.startswith line "DA:" && _) eqn:Eda.
  { destruct (PyStr.split_comma line) as [|p0 [|p1 [|? ?]]];
      try (intros [= <-]; exact Hst).
    destruct (PyStr.int _) as [line_num|]; [|discriminate]. cbn [bind].
    destruct (PyStr.int _) as [count|]; [|discriminate]. cbn [bind].
    destruct (at_file _ _ _) as [cd'|] eqn:A; [|discriminate].
    intros [= <-]. eapply pstate_ok_step; [exact Hst| |reflexivity].
    eapply at_file_ok; [exact Hp| |exact A].
    intros e (Hf & Hl & Hb) Hd. split; [|exact Hd].
    split; [assumption | split; [now apply max_into_ok | assumption]]. }
  destruct (PyStr.startswith line "BRDA:" && _) eqn:Ebrda.
  { apply andb_true_iff in Ebrda. destruct Ebrda as [Ebrda _].
    destruct (at_file _ _ (append_branch_data line)) as [cd1|] eqn:A1;
      [|discriminate]. cbn [bind].
    assert (H1 : parsed_ok cd1 /\
                 forall k, Dict.contains cd1 k = Dict.contains (coverage_data st) k).
    { eapply at_file_ok; [exact Hp| |exact A1].
      intros e He [Hd1 Hd2]. split; [exact He|]. split; [exact Hd1|].
      cbn [branch_data append_branch_data]. apply Forall_app. split; [exact Hd2|].
      now constructor. }
    destruct (PyStr.split_comma line) as [|p0 [|p1 [|p2 [|p3 [|? ?]]]]];
      try (intros [= <-]; eapply pstate_ok_step; [exact Hst|exact H1|reflexivity]).
    destruct (if String.eqb p3 "-" then _ else _) as [count|]; [|discriminate].
    cbn [bind].
    destruct (at_file cd1 _ _) as [cd2|] eqn:A2; [|discriminate].
    intros [= <-]. eapply pstate_ok_step; [exact Hst| |reflexivity].
    destruct H1 as [Hp1 Hk1].
    assert (H2 : parsed_ok cd2 /\ forall k, Dict.contains cd2 k = Dict.contains cd1 k).
    { eapply at_file_ok; [exact Hp1| |exact A2].
      intros e (Hf & Hl & Hb) Hd. split; [|exact Hd].
      split; [assumption | split; [assumption | now apply max_into_ok]]. }
    destruct H2 as [Hp2 Hk2]. split; [exact Hp2|].
    intros k. now rewrite Hk2. }
  intros [= <-]. exact Hst.
Qed.

Lemma parse_lines_ok (ls : list string) (st st' : pstate) :
  pstate_ok st -> parse_lines st ls = Ok st' -> pstate_ok st'.
Proof.
  revert st. induction ls as [|l rest IH]; intros st Hst; cbn [parse_lines].
  - now intros [= <-].
  - destruct (parse_line st l) as [st1|] eqn:E; cbn [bind]; [|discriminate].
    apply IH. now apply (parse_line_ok st st1 l).
Qed.

Lemma parsed_ok_empty : parsed_ok Dict.empty.
Proof. repeat split; constructor. Qed.

Lemma parse_lcov_file_ok (fs : filesystem) (file_path : string) :
  parsed_ok (fst (parse_lcov_file fs file_path)).
Proof.
  unfold parse_lcov_file. destruct (read_lines fs file_path) as [ls|];
    cbn [bind]; [|apply parsed_ok_empty].
  destruct (parse_lines initial_pstate ls) as [st|] eqn:E; cbn [bind fst];
    [|apply parsed_ok_empty].
  now apply (parse_lines_ok ls initial_pstate st pstate_ok_initial).
Qed.

Lemma parsed_inputs_ok (fs : filesystem) (file_paths : list string) :
  Forall parsed_ok (parsed_inputs fs file_paths).
Proof.
  unfold parsed_inputs. apply Forall_forall. intros d Hd.
  apply in_map_iff in Hd. destruct Hd as [p [<- _]]. apply parse_lcov_file_ok.
Qed.

(** The aggregate is the fold of the parse results of the existing paths. *)
Lemma merge_step_fold (fs : filesystem) (file_paths : list string)
    (m : coverage) (out : list event) :
  fst (fold_left (merge_step fs) file_paths (m, out)) =
  fold_left merge_file_data (parsed_inputs fs file_paths) m.
Proof.
  unfold parsed_inputs. revert m out.
  induction file_paths as [|p rest IH]; intros m out; cbn [fold_left filter].
  - reflexivity.
  - unfold merge_step at 2. destruct (path_exists fs p); cbn [negb map fold_left].
    + destruct (parse_lcov_file fs p) as [file_data out2]. cbn [fst]. apply IH.
    + apply IH.
Qed.

Lemma merge_coverage_files_all (fs : filesystem) (file_paths : list string) :
  fst (merge_coverage_files fs file_paths) =
  merge_all (parsed_inputs fs file_paths).
Proof. apply merge_step_fold. Qed.

(** ** C1: the merged count is the maximum *)

Lemma flat_absent {V A : Type} (g : V -> list A) (d : Dict.t string V) sf :
  ~ In sf (Dict.keys d) ->
  flat_map (fun it => if String.eqb (fst it) sf then g (snd it) else []) d = [].
Proof.
  induction d as [|[k0 e0] r IH]; intros Hno; cbn [flat_map fst snd];
    [reflexivity|].
  destruct (String.eqb k0 sf) eqn:E.
  - apply String.eqb_eq in E. subst. exfalso. apply Hno. now left.
  - apply IH. intros Hin. apply Hno. now right.
Qed.

Lemma flat_get {V A : Type} (g : V -> list A) (d : Dict.t string V) sf :
  NoDup (Dict.keys d) ->
  flat_map (fun it => if String.eqb (fst it) sf then g (snd it) else []) d =
  match Dict.get d sf with Some e => g e | None => [] end.
Proof.
  induction d as [|[k0 e0] r IH]; intros Hnd; [reflexivity|].
  inversion Hnd as [|? ? Hno Hnd']; subst. cbn [flat_map fst snd Dict.get].
  change (@keqb string _ k0 sf) with (String.eqb k0 sf).
  destruct (String.eqb k0 sf) eqn:E.
  - apply String.eqb_eq in E. subst k0. rewrite flat_absent by exact Hno.
    apply app_nil_r.
  - now apply IH.
Qed.

Section Observed.
Context {K : Type} `{EqKey K}.
Variable counter : entry -> Dict.t K Z.
Hypothesis counter_wf : forall e, entry_ok e -> counter_ok (counter e).

Lemma file_hits_observed (d : coverage) sf k :
  coverage_ok d ->
  file_hits counter sf k d =
  match merged_count counter d sf k with Some c => [c] | None => [] end.
Proof.
  intros Hd. unfold file_hits, merged_count.
  rewrite (flat_get (fun e => hits (counter e) k)) by apply Hd.
  destruct (Dict.get d sf) as [e|] eqn:G; [|reflexivity].
  apply hits_get. apply counter_wf. now apply (coverage_ok_get d sf).
Qed.

Lemma all_hits_observed (inputs : list coverage) sf k :
  Forall coverage_ok inputs ->
  all_hits counter sf k inputs = observed counter inputs sf k.
Proof.
  unfold all_hits, observed. induction 1 as [|d r Hd _ IH]; cbn [flat_map];
    [reflexivity|].
  now rewrite IH, file_hits_observed.
Qed.

Lemma observed_nonneg (inputs : list coverage) sf k :
  Forall coverage_ok inputs ->
  Forall (fun c => 0 <= c) (observed counter inputs sf k).
Proof.
  unfold observed. induction 1 as [|d r Hd _ IH]; cbn [flat_map];
    [constructor|].
  apply Forall_app. split; [|exact IH].
  unfold merged_count. destruct (Dict.get d sf) as [e|] eqn:G; [|constructor].
  destruct (Dict.get (counter e) k) as [c|] eqn:Gc; constructor; [|constructor].
  destruct (counter_wf e (coverage_ok_get d sf e Hd G)) as [_ Hv].
  rewrite Forall_forall in Hv. apply Hv. apply get_In in Gc.
  change c with (snd (k, c)). now apply in_map.
Qed.

Hypothesis counter_merge : forall data e,
  counter (merge_entry data e) = merge_counts (counter e) (counter data).
Hypothesis counter_seed : forall data, counter (seed data) = Dict.empty.

Lemma merged_count_maximum (inputs : list coverage) sf k :
  Forall coverage_ok inputs ->
  merged_count counter (merge_all inputs) sf k =
  maximum (observed counter inputs sf k).
Proof.
  intros Hin. rewrite (merged_count_all counter counter_merge counter_seed).
  rewrite all_hits_observed by exact Hin.
  apply fold_upd_maximum. now apply observed_nonneg.
Qed.

End Observed.

Lemma parsed_inputs_coverage_ok (fs : filesystem) (file_paths : list string) :
  Forall coverage_ok (parsed_inputs fs file_paths).
Proof.
  eapply Forall_impl; [|apply parsed_inputs_ok]. now intros d [Hd _].
Qed.

(** C1. For every file system, every list of input paths, every source
    file and every key of a counter (function name, line number, branch
    key), the count the merge stores is the maximum of the counts that
    the parsed inputs hold for that key, and it is absent when no input
    holds the key.  Two inputs with the counts 3 and 7 for line 10 of
    [x.c] give 7, and the end-to-end scenario writes [DA:1,5], [DA:2,0],
    [DA:3,4], [LF:3] and [LH:2]. *)
Theorem merged_count_is_maximum :
  (forall (fs : filesystem) (file_paths : list string) (sf : string),
     let merged := fst (merge_coverage_files fs file_paths) in
     let inputs := parsed_inputs fs file_paths in
     (forall name, merged_count functions merged sf name =
                   maximum (observed functions inputs sf name)) /\
     (forall line_num, merged_count lines merged sf line_num =
                       maximum (observed lines inputs sf line_num)) /\
     (forall key, merged_count branches merged sf key =
                  maximum (observed branches inputs sf key))) /\
  merged_count lines (fst (merge_coverage_files twice_fs ["a.info"; "b.info"]))
    "x.c" 10 = Some 7 /\
  (let text :=
     lcov_text (fst (merge_coverage_files scenario_fs ["a.info"; "b.info"])) in
   In ("DA:1,5" ++ nl)%string text /\ In ("DA:2,0" ++ nl)%string text /\
   In ("DA:3,4" ++ nl)%string text /\ In ("LF:3" ++ nl)%string text /\
   In ("LH:2" ++ nl)%string text).
Proof.
  split; [|split].
  - intros fs file_paths sf merged inputs. subst merged inputs.
    rewrite merge_coverage_files_all.
    pose proof (parsed_inputs_coverage_ok fs file_paths) as Hok.
    split; [|split]; intros k.
    + apply merged_count_maximum; try reflexivity; [|exact Hok].
      now intros e (Hf & _).
    + apply merged_count_maximum; try reflexivity; [|exact Hok].
      now intros e (_ & Hl & _).
    + apply merged_count_maximum; try reflexivity; [|exact Hok].
      now intros e (_ & _ & Hb).
  - vm_compute. reflexivity.
  - vm_compute. tauto.
Qed.

(** ** The serializer *)

Lemma write_dedup_from (l : list string) (f : file) (seen : list string) :
  fst (fold_left write_dedup_step l (f, seen)) =
  f ++ map with_nl (dedup_from seen l).
Proof.
  revert f seen. induction l as [|x r IH]; intros f seen;
    cbn [fold_left dedup_from write_dedup_step].
  - cbn [map fst]. now rewrite app_nil_r.
  - destruct (mem x seen).
    + apply IH.
    + rewrite IH. unfold write. cbn [map]. now rewrite <- app_assoc.
Qed.

Lemma write_dedup_spec (f : file) (l : list string) :
  write_dedup f l = f ++ map with_nl (dedup l).
Proof. apply write_dedup_from. Qed.

Lemma write_each {A : Type} (g : A -> string) (l : list A) (f : file) :
  fold_left (fun f it => write f (g it)) l f = f ++ map g l.
Proof.
  revert f. induction l as [|x r IH]; intros f; cbn [fold_left map].
  - now rewrite app_nil_r.
  - rewrite IH. unfold write. now rewrite <- app_assoc.
Qed.

Lemma py_sum_ones_from {A : Type} (l : list A) (acc : Z) :
  fold_left Z.add (map (fun _ => 1) l) acc = acc + Z.of_nat (List.length l).
Proof.
  revert acc. induction l as [|x r IH]; intros acc; cbn [map fold_left List.length].
  - lia.
  - rewrite IH. lia.
Qed.

Lemma filter_values {K : Type} (p : Z -> bool) (d : Dict.t K Z) :
  List.length (filter p (Dict.values d)) =
  List.length (filter (fun kc => p (snd kc)) d).
Proof.
  unfold Dict.values. induction d as [|[k c] r IH]; cbn [map filter snd];
    [reflexivity|].
  destruct (p c); cbn [List.length]; now rewrite IH.
Qed.

Lemma covered_count_hit {K : Type} (d : Dict.t K Z) : covered d = count_hit d.
Proof.
  unfold covered, count_hit, py_sum. rewrite py_sum_ones_from, filter_values.
  cbn [Z.add]. f_equal. f_equal. apply filter_ext. intros [k c]. cbn [snd].
  destruct (Z.ltb_spec 0 c), (Z.gtb_spec c 0); reflexivity || lia.
Qed.

Lemma write_entry_block (f : file) (sf : string) (data : entry) :
  write_entry f (sf, data) = f ++ block sf data.
Proof.
  unfold write_entry, block, Dict.items, Dict.len.
  rewrite !write_each, !write_dedup_spec, !covered_count_hit.
  unfold write, count_all. repeat rewrite <- app_assoc. reflexivity.
Qed.

Lemma lcov_text_from (m : coverage) (f : file) :
  fold_left write_entry (Dict.items m) f =
  f ++ flat_map (fun it => block (fst it) (snd it)) m.
Proof.
  unfold Dict.items. revert f.
  induction m as [|[sf data] r IH]; intros f; cbn [fold_left flat_map fst snd].
  - now rewrite app_nil_r.
  - now rewrite IH, write_entry_block, <- app_assoc.
Qed.

Lemma pair_leb_total (a b : Z * Z) : pair_leb a b = false -> pair_leb b a = true.
Proof.
  unfold pair_leb. destruct a as [a1 a2], b as [b1 b2]. cbn [fst snd].
  intros Hf. apply orb_false_iff in Hf. destruct Hf as [H1 H2].
  apply Z.ltb_ge in H1. apply andb_false_iff in H2.
  apply orb_true_iff. destruct (Z.eq_dec a1 b1) as [->|Hne].
  - right. rewrite Z.eqb_refl. cbn [andb]. apply Z.leb_le.
    destruct H2 as [H2|H2]; [rewrite Z.eqb_refl in H2; discriminate|].
    apply Z.leb_gt in H2. lia.
  - left. apply Z.ltb_lt. lia.
Qed.

Lemma pair_leb_fst (a b : Z * Z) : pair_leb a b = true -> fst a <= fst b.
Proof.
  unfold pair_leb. intros Ht. apply orb_true_iff in Ht.
  destruct Ht as [Ht|Ht]; [apply Z.ltb_lt in Ht; lia|].
  apply andb_true_iff in Ht. destruct Ht as [Ht _]. apply Z.eqb_eq in Ht. lia.
Qed.

Lemma insert_sorted_perm (x : Z * Z) (l : list (Z * Z)) :
  Permutation (insert_sorted x l) (x :: l).
Proof.
  induction l as [|y r IH]; cbn [insert_sorted]; [reflexivity|].
  destruct (pair_leb x y); [reflexivity|].
  rewrite IH. apply perm_swap.
Qed.

Lemma sorted_perm (l : list (Z * Z)) : Permutation (sorted l) l.
Proof.
  induction l as [|x r IH]; cbn [sorted]; [reflexivity|].
  rewrite insert_sorted_perm. now constructor.
Qed.

Lemma insert_sorted_ascending (x : Z * Z) (l : list (Z * Z)) :
  StronglySorted (fun a b => fst a <= fst b) l ->
  StronglySorted (fun a b => fst a <= fst b) (insert_sorted x l).
Proof.
  induction 1 as [|y r Hr IH Hy]; cbn [insert_sorted].
  - repeat constructor.
  - destruct (pair_leb x y) eqn:E.
    + apply pair_leb_fst in E. constructor; [now constructor|].
      constructor; [exact E|]. rewrite Forall_forall in *.
      intros z Hz. specialize (Hy z Hz). lia.
    + apply pair_leb_total in E. apply pair_leb_fst in E.
      constructor; [exact IH|].
      rewrite Forall_forall in *. intros z Hz.
      apply (Permutation_in _ (insert_sorted_perm x r)) in Hz.
      destruct Hz as [<-|Hz]; [exact E | now apply Hy].
Qed.

Lemma sorted_ascending (l : list (Z * Z)) :
  StronglySorted (fun a b => fst a <= fst b) (sorted l).
Proof.
  induction l as [|x r IH]; cbn [sorted]; [constructor|].
  now apply insert_sorted_ascending.
Qed.

Lemma tag_summary (line tag : string) :
  In tag summary_tags -> PyStr.startswith line tag = true ->
  PyStr.startswith line "SF:" = false /\
  PyStr.startswith line "FN:" = false /\
  PyStr.startswith line "FNDA:" = false /\
  PyStr.startswith line "DA:" = false /\
  PyStr.startswith line "BRDA:" = false.
Proof.
  intros Htag Hs. apply startswith_app in Hs. destruct Hs as [r ->].
  cbn [summary_tags In] in Htag.
  repeat (destruct Htag as [<-|Htag]; [repeat split; reflexivity|]).
  contradiction.
Qed.

(** C6. The text written is one block per source file of the aggregate,
    in its insertion order (the merge puts a source file it meets for
    the first time after the ones it holds); a block holds, in this order, [TN:], [SF:],
    the definition lines of the functions, the [FNDA] lines, [FNF] and
    [FNH], the definition lines of the branches, [BRF] and [BRH], the
    [DA] lines in ascending order of the line number, [LF], [LH] and
    [end_of_record].  An [FNDA] line reads [FNDA:count,name] and a [DA]
    line [DA:line,count].  The six summaries are computed from the merged
    counters (all keys, and the keys whose count is positive), and a
    summary line of an input changes nothing in the parser.  The text of
    an aggregate of two source files is given in full. *)
Theorem serialization_layout :
  (forall merged : coverage,
     lcov_text merged = flat_map (fun it => block (fst it) (snd it)) merged) /\
  (forall (merged : coverage) (source_file : string) (data : entry),
     Dict.keys (merge_source merged (source_file, data)) =
     if Dict.contains merged source_file
     then Dict.keys merged else Dict.keys merged ++ [source_file]) /\
  (forall data : entry,
     StronglySorted (fun a b => fst a <= fst b) (sorted (lines data)) /\
     Permutation (sorted (lines data)) (lines data)) /\
  (forall (st : pstate) (raw tag : string),
     In tag summary_tags -> PyStr.startswith (PyStr.strip raw) tag = true ->
     parse_line st raw = Ok st) /\
  lcov_text
    [("x.c", {| functions := [("g", 0); ("f", 2)];
                lines := [(30, 4); (1, 5); (7, 0)];
                branches := [("1:0:0", 3); ("1:0:1", 0)];
                function_data := ["FN:1,f"; "FN:9,g"; "FN:1,f"];
                branch_data := ["BRDA:1,0,0,1"; "BRDA:1,0,1,-"] |});
     ("y.c", {| functions := []; lines := [(2, 1)]; branches := [];
                function_data := []; branch_data := [] |})] =
  [("TN:" ++ nl)%string; ("SF:x.c" ++ nl)%string;
   ("FN:1,f" ++ nl)%string; ("FN:9,g" ++ nl)%string;
   ("FNDA:0,g" ++ nl)%string; ("FNDA:2,f" ++ nl)%string;
   ("FNF:2" ++ nl)%string; ("FNH:1" ++ nl)%string;
   ("BRDA:1,0,0,1" ++ nl)%string; ("BRDA:1,0,1,-" ++ nl)%string;
   ("BRF:2" ++ nl)%string; ("BRH:1" ++ nl)%string;
   ("DA:1,5" ++ nl)%string; ("DA:7,0" ++ nl)%string; ("DA:30,4" ++ nl)%string;
   ("LF:3" ++ nl)%string; ("LH:2" ++ nl)%string; ("end_of_record" ++ nl)%string;
   ("TN:" ++ nl)%string; ("SF:y.c" ++ nl)%string;
   ("FNF:0" ++ nl)%string; ("FNH:0" ++ nl)%string;
   ("BRF:0" ++ nl)%string; ("BRH:0" ++ nl)%string;
   ("DA:2,1" ++ nl)%string;
   ("LF:1" ++ nl)%string; ("LH:1" ++ nl)%string; ("end_of_record" ++ nl)%string].
Proof.
  split; [|split; [|split; [|split]]].
  - intros merged. unfold lcov_text. now rewrite lcov_text_from.
  - intros merged source_file data. unfold merge_source. rewrite keys_update.
    destruct (Dict.contains merged source_file) eqn:C; [reflexivity|].
    now rewrite keys_set, C.
  - intros data. split; [apply sorted_ascending | apply sorted_perm].
  - intros st raw tag Htag Hs.
    destruct (tag_summary _ _ Htag Hs) as (E1 & E2 & E3 & E4 & E5).
    unfold parse_line. now rewrite E1, E2, E3, E4, E5.
  - vm_compute. reflexivity.
Qed.

(** ** The parser, tag by tag *)

Lemma tag_FNDA (line : string) :
  PyStr.startswith line "FNDA:" = true ->
  PyStr.startswith line "SF:" = false /\ PyStr.startswith line "FN:" = false.
Proof.
  intros Hs. apply startswith_app in Hs. destruct Hs as [r ->].
  split; reflexivity.
Qed.

Lemma tag_DA (line : string) :
  PyStr.startswith line "DA:" = true ->
  PyStr.startswith line "SF:" = false /\ PyStr.startswith line "FN:" = false /\
  PyStr.startswith line "FNDA:" = false /\ PyStr.startswith line "BRDA:" = false.
Proof.
  intros Hs. apply startswith_app in Hs. destruct Hs as [r ->].
  repeat split; reflexivity.
Qed.

Lemma tag_BRDA (line : string) :
  PyStr.startswith line "BRDA:" = true ->
  PyStr.startswith line "SF:" = false /\ PyStr.startswith line "FN:" = false /\
  PyStr.startswith line "FNDA:" = false /\ PyStr.startswith line "DA:" = false.
Proof.
  intros Hs. apply startswith_app in Hs. destruct Hs as [r ->].
  repeat split; reflexivity.
Qed.

Lemma parse_line_SF (st : pstate) (raw : string) :
  PyStr.startswith (PyStr.strip raw) "SF:" = true ->
  parse_line st raw =
  Ok {| coverage_data :=
          if Dict.contains (coverage_data st) (PyStr.slice_from 3 (PyStr.strip raw))
          then coverage_data st
          else Dict.set (coverage_data st) (PyStr.slice_from 3 (PyStr.strip raw))
                 empty_entry;
        current_file := Some (PyStr.slice_from 3 (PyStr.strip raw)) |}.
Proof. intros Hs. unfold parse_line. now rewrite Hs. Qed.

Lemma parse_line_FNDA (st : pstate) (raw : string) :
  PyStr.startswith (PyStr.strip raw) "FNDA:" = true ->
  PyStr.truthy (current_file st) = true ->
  parse_line st raw =
  match PyStr.split_comma_1 (PyStr.strip raw) with
  | [p0; p1] =>
      count <- PyStr.int (PyStr.slice_from 5 p0) ;;
      cd' <- at_file (coverage_data st) (file_of st)
               (fun e => with_functions e (max_into (functions e) p1 count)) ;;
      Ok {| coverage_data := cd'; current_file := current_file st |}
  | _ => Ok st
  end.
Proof.
  intros Hs Ht. destruct (tag_FNDA _ Hs) as (E1 & E2).
  unfold parse_line. now rewrite E1, E2, Hs, Ht.
Qed.

Lemma parse_line_DA (st : pstate) (raw : string) :
  PyStr.startswith (PyStr.strip raw) "DA:" = true ->
  PyStr.truthy (current_file st) = true ->
  parse_line st raw =
  match PyStr.split_comma (PyStr.strip raw) with
  | [p0; p1] =>
      line_num <- PyStr.int (PyStr.slice_from 3 p0) ;;
      count <- PyStr.int p1 ;;
      cd' <- at_file (coverage_data st) (file_of st)
               (fun e => with_lines e (max_into (lines e) line_num count)) ;;
      Ok {| coverage_data := cd'; current_file := current_file st |}
  | _ => Ok st
  end.
Proof.
  intros Hs Ht. destruct (tag_DA _ Hs) as (E1 & E2 & E3 & _).
  unfold parse_line. now rewrite E1, E2, E3, Hs, Ht.
Qed.

Lemma parse_line_BRDA (st : pstate) (raw : string) :
  PyStr.startswith (PyStr.strip raw) "BRDA:" = true ->
  PyStr.truthy (current_file st) = true ->
  parse_line st raw =
  (cd1 <- at_file (coverage_data st) (file_of st)
            (append_branch_data (PyStr.strip raw)) ;;
   match PyStr.split_comma (PyStr.strip raw) with
   | [p0; p1; p2; p3] =>
       count <- branch_count p3 ;;
       cd2 <- at_file cd1 (file_of st)
                (fun e => with_branches e
                            (max_into (branches e) (branch_key p0 p1 p2) count)) ;;
       Ok {| coverage_data := cd2; current_file := current_file st |}
   | _ => Ok {| coverage_data := cd1; current_file := current_file st |}
   end).
Proof.
  intros Hs Ht. destruct (tag_BRDA _ Hs) as (E1 & E2 & E3 & E4).
  unfold parse_line. now rewrite E1, E2, E3, E4, Hs, Ht.
Qed.

(** Outside of a record, a counted line is not read at all. *)
Lemma parse_line_outside (st : pstate) (raw : string) :
  PyStr.startswith (PyStr.strip raw) "SF:" = false ->
  PyStr.truthy (current_file st) = false ->
  parse_line st raw = Ok st.
Proof.
  intros Hs Ht. unfold parse_line. rewrite Hs, Ht, !andb_false_r. reflexivity.
Qed.

Lemma at_file_get (cd : coverage) (file : string) (f : entry -> entry) (e : entry) :
  Dict.get cd file = Some e -> at_file cd file f = Ok (Dict.set cd file (f e)).
Proof. intros G. unfold at_file. now rewrite G. Qed.

Lemma set_set {K V : Type} `{EqKey K} (d : Dict.t K V) k v v' :
  Dict.set (Dict.set d k v) k v' = Dict.set d k v'.
Proof.
  induction d as [|[k0 v0] r IH]; cbn [Dict.set].
  - now rewrite keqb_refl.
  - destruct (keqb k0 k) eqn:E; cbn [Dict.set]; rewrite E; [reflexivity|].
    now rewrite IH.
Qed.


Lemma parse_lines_app (l1 l2 : list string) (st : pstate) :
  parse_lines st (l1 ++ l2) =
  (st' <- parse_lines st l1 ;; parse_lines st' l2).
Proof.
  revert st. induction l1 as [|l r IH]; intros st; cbn [app parse_lines bind].
  - reflexivity.
  - destruct (parse_line st l); cbn [bind]; [apply IH | reflexivity].
Qed.

(** ** C3: a source file met again, a key met again *)




(** ** C4: lines with a wrong number of fields *)

Lemma parse_lines_skip (st : pstate) (raw : string) (rest : list string) :
  parse_line st raw = Ok st -> parse_lines st (raw :: rest) = parse_lines st rest.
Proof. intros E. cbn [parse_lines]. now rewrite E. Qed.



(** A line that no state reacts to can be taken out of the file. *)
Lemma parse_lines_without (raw : string) (pre post : list string) (st : pstate) :
  (forall st', parse_line st' raw = Ok st') ->
  parse_lines st (pre ++ raw :: post) = parse_lines st (pre ++ post).
Proof.
  intros Hskip. rewrite !parse_lines_app.
  destruct (parse_lines st pre) as [st'|]; cbn [bind]; [|reflexivity].
  now apply parse_lines_skip.
Qed.

(** ** C5: the placeholder of a branch count *)

Lemma set_absent {K V : Type} `{EqKey K} (d : Dict.t K V) k v :
  Dict.get d k = None -> Dict.set d k v = d ++ [(k, v)].
Proof.
  induction d as [|[k0 v0] r IH]; cbn [Dict.get Dict.set app]; [reflexivity|].
  destruct (keqb k0 k); [discriminate|]. intros G. now rewrite IH.
Qed.

Lemma in_block_BRF (sf : string) (data : entry) :
  In ("BRF:" ++ PyStr.str (count_all (branches data)) ++ nl)%string (block sf data) /\
  In ("BRH:" ++ PyStr.str (count_hit (branches data)) ++ nl)%string (block sf data).
Proof.
  unfold block. rewrite !in_app_iff. cbn [In].
  split; do 5 right; left; [left | right; left]; reflexivity.
Qed.

(** C5. Inside a record, a [BRDA] line of four fields whose last field
    is [-] is kept as a definition line and enters branchCounts with the
    count 0: the key holds [max (old or 0) 0], which is 0 for a key not
    met before; outside of a record the line adds nothing.  The block written for a source file gives [BRF] as the
    number of branch keys and [BRH] as the number of those with a
    positive count: a key with the count 0 is among the former and not
    among the latter. *)
Theorem placeholder_branch_counts_zero :
  (forall (st : pstate) (raw : string) (e : entry) (p0 p1 p2 : string),
     PyStr.truthy (current_file st) = true ->
     Dict.get (coverage_data st) (file_of st) = Some e ->
     PyStr.startswith (PyStr.strip raw) "BRDA:" = true ->
     PyStr.split_comma (PyStr.strip raw) = [p0; p1; p2; "-"] ->
     parse_line st raw =
     Ok (put_current st
           (with_branches (append_branch_data (PyStr.strip raw) e)
              (max_into (branches e) (branch_key p0 p1 p2) 0))) /\
     Dict.get (max_into (branches e) (branch_key p0 p1 p2) 0) (branch_key p0 p1 p2) =
     Some (Z.max (Dict.get_default (branches e) (branch_key p0 p1 p2) 0) 0) /\
     (Dict.get (branches e) (branch_key p0 p1 p2) = None ->
      Dict.get (max_into (branches e) (branch_key p0 p1 p2) 0) (branch_key p0 p1 p2) =
      Some 0)) /\
  (forall (st : pstate) (raw : string),
     PyStr.truthy (current_file st) = false ->
     PyStr.startswith (PyStr.strip raw) "BRDA:" = true ->
     parse_line st raw = Ok st) /\
  (forall (f : file) (sf : string) (data : entry),
     In ("BRF:" ++ PyStr.str (count_all (branches data)) ++ nl)%string
        (write_entry f (sf, data)) /\
     In ("BRH:" ++ PyStr.str (count_hit (branches data)) ++ nl)%string
        (write_entry f (sf, data))) /\
  (forall (d : Dict.t string Z) (key : string),
     Dict.get d key = None ->
     count_all (max_into d key 0) = count_all d + 1 /\
     count_hit (max_into d key 0) = count_hit d) /\
  (forall (d : Dict.t string Z) (key : string),
     Dict.get d key = Some 0 ->
     In (key, 0) d /\ ~ In (key, 0) (filter (fun kc => 0 <? snd kc) d)) /\
  lcov_text (fst (merge_coverage_files
                    (fs_of [("a.info", ["SF:a.c"; "BRDA:7,0,1,-"])]) ["a.info"])) =
  [("TN:" ++ nl)%string; ("SF:a.c" ++ nl)%string; ("FNF:0" ++ nl)%string;
   ("FNH:0" ++ nl)%string; ("BRDA:7,0,1,-" ++ nl)%string; ("BRF:1" ++ nl)%string;
   ("BRH:0" ++ nl)%string; ("LF:0" ++ nl)%string; ("LH:0" ++ nl)%string;
   ("end_of_record" ++ nl)%string].
Proof.
  split; [|split; [|split; [|split; [|split]]]].
  - intros st raw e p0 p1 p2 Ht G Hs Hsp. split; [|split].
    + rewrite (parse_line_BRDA st raw Hs Ht), (at_file_get _ _ _ e G).
      cbn [bind]. rewrite Hsp. cbn [branch_count String.eqb Ascii.eqb Bool.eqb bind].
      rewrite (at_file_get _ _ _ (append_branch_data (PyStr.strip raw) e))
        by apply get_set_same.
      cbn [bind]. now rewrite set_set.
    + unfold max_into. apply get_set_same.
    + intros Hnone. unfold max_into, Dict.get_default. rewrite Hnone.
      apply get_set_same.
  - intros st raw Ht Hs. apply parse_line_outside; [|exact Ht].
    apply (tag_BRDA _ Hs).
  - intros f sf data. rewrite write_entry_block, !in_app_iff.
    destruct (in_block_BRF sf data). auto.
  - intros d key Hnone. unfold max_into, Dict.get_default. rewrite Hnone.
    rewrite (set_absent d key _ Hnone). unfold count_all, count_hit.
    rewrite filter_app, !length_app. cbn. lia.
  - intros d key G. split; [now apply get_In|].
    intros Hin. apply filter_In in Hin. destruct Hin as [_ Hpos].
    discriminate.
  - vm_compute. reflexivity.
Qed.

(** ** A conversion that raises *)



Lemma parsed_inputs_app (fs : filesystem) (l1 l2 : list string) :
  parsed_inputs fs (l1 ++ l2) = parsed_inputs fs l1 ++ parsed_inputs fs l2.
Proof. unfold parsed_inputs. now rewrite filter_app, map_app. Qed.

(** A file whose parse result is empty does not count in the merge. *)
Lemma merge_skips_empty (fs : filesystem) (file_path : string)
    (before after : list string) :
  fst (parse_lcov_file fs file_path) = Dict.empty ->
  fst (merge_coverage_files fs (before ++ file_path :: after)) =
  fst (merge_coverage_files fs (before ++ after)).
Proof.
  intros He. rewrite !merge_coverage_files_all. unfold merge_all.
  change (file_path :: after) with ([file_path] ++ after).
  rewrite !parsed_inputs_app, !fold_left_app.
  replace (fold_left merge_file_data (parsed_inputs fs [file_path])
             (fold_left merge_file_data (parsed_inputs fs before) Dict.empty))
    with (fold_left merge_file_data (parsed_inputs fs before) Dict.empty);
    [reflexivity|].
  unfold parsed_inputs. cbn [filter]. destruct (path_exists fs file_path);
    [|reflexivity].
  cbn [map fold_left]. now rewrite He.
Qed.

(** ** C7: the definition lines *)

Lemma mem_In (x : string) (seen : list string) : mem x seen = true <-> In x seen.
Proof.
  unfold mem. rewrite existsb_exists. split.
  - intros [y [Hy E]]. apply String.eqb_eq in E. now subst.
  - intros Hin. exists x. split; [exact Hin | apply String.eqb_refl].
Qed.

Lemma dedup_from_In (l seen : list string) (x : string) :
  In x (dedup_from seen l) <-> In x l /\ ~ In x seen.
Proof.
  revert seen. induction l as [|y r IH]; intros seen; cbn [dedup_from In].
  - tauto.
  - destruct (mem y seen) eqn:E.
    + apply mem_In in E. rewrite IH. split; [tauto|].
      intros [[->|Hin] Hno]; tauto.
    + assert (Hy : ~ In y seen) by (rewrite <- mem_In, E; discriminate).
      cbn [In]. rewrite IH. cbn [In]. split.
      * intros [->|[Hin Hno]]; [tauto|]. split; [tauto|]. intros Hs. apply Hno. now right.
      * intros [[->|Hin] Hno]; [now left|].
        destruct (string_dec y x) as [->|Hne]; [now left|]. right.
        split; [exact Hin|]. intros [?|?]; contradiction.
Qed.

Lemma dedup_from_NoDup (l seen : list string) : NoDup (dedup_from seen l).
Proof.
  revert seen. induction l as [|y r IH]; intros seen; cbn [dedup_from].
  - constructor.
  - destruct (mem y seen); [apply IH|]. constructor; [|apply IH].
    rewrite dedup_from_In. intros [_ Hno]. apply Hno. now left.
Qed.











Lemma defs_source (m : coverage) (sf' : string) (data : entry) (sf : string) :
  option_map defs_of (Dict.get (merge_source m (sf', data)) sf) =
  orelse (option_map defs_of (Dict.get m sf))
         (if String.eqb sf' sf then Some (defs_of data) else None).
Proof.
  unfold merge_source. rewrite get_update.
  change (@keqb string _ sf' sf) with (String.eqb sf' sf).
  destruct (String.eqb sf' sf) eqn:E.
  - apply String.eqb_eq in E. subst sf'. unfold Dict.contains.
    destruct (Dict.get m sf) as [e|] eqn:G.
    + now rewrite G.
    + now rewrite get_set_same.
  - destruct (Dict.contains m sf').
    + now destruct (Dict.get m sf).
    + rewrite get_set_other by now apply String.eqb_neq.
      now destruct (Dict.get m sf).
Qed.

Lemma defs_file (d m : coverage) (sf : string) :
  option_map defs_of (Dict.get (merge_file_data m d) sf) =
  orelse (option_map defs_of (Dict.get m sf)) (option_map defs_of (Dict.get d sf)).
Proof.
  unfold merge_file_data, Dict.items. revert m.
  induction d as [|[sf' data] r IH]; intros m; cbn [fold_left Dict.get].
  - now destruct (Dict.get m sf).
  - rewrite IH, defs_source.
    change (@keqb string _ sf' sf) with (String.eqb sf' sf).
    destruct (Dict.get m sf); [reflexivity|].
    now destruct (String.eqb sf' sf).
Qed.

Lemma defs_inputs (inputs : list coverage) (m : coverage) (sf : string) :
  option_map defs_of (Dict.get (fold_left merge_file_data inputs m) sf) =
  orelse (option_map defs_of (Dict.get m sf)) (first_defs sf inputs).
Proof.
  revert m. induction inputs as [|d r IH]; intros m; cbn [fold_left first_defs].
  - now destruct (Dict.get m sf).
  - rewrite IH, defs_file. now destruct (Dict.get m sf).
Qed.

Lemma first_defs_In (sf : string) (inputs : list coverage)
    (p : list string * list string) :
  first_defs sf inputs = Some p ->
  exists d e, In d inputs /\ Dict.get d sf = Some e /\ p = defs_of e.
Proof.
  induction inputs as [|d r IH]; cbn [first_defs]; [discriminate|].
  destruct (Dict.get d sf) as [e|] eqn:G; cbn [option_map orelse].
  - intros [= <-]. exists d, e. repeat split; [now left | exact G].
  - intros Hp. destruct (IH Hp) as (d' & e & Hin & G' & ->).
    exists d', e. repeat split; [now right | exact G'].
Qed.



(** ** C4: lines with a wrong number of fields *)









(** ** The driver *)

Lemma fold_add_from (l : list Z) (a : Z) : fold_left Z.add l a = a + py_sum l.
Proof.
  unfold py_sum. revert a. induction l as [|x r IH]; intros a; cbn [fold_left].
  - lia.
  - rewrite (IH (a + x)), (IH (0 + x)). lia.
Qed.

Lemma py_sum_cons (x : Z) (l : list Z) : py_sum (x :: l) = x + py_sum l.
Proof. unfold py_sum at 1. cbn [fold_left]. rewrite fold_add_from. lia. Qed.

Lemma py_sum_bounds {A : Type} (f g : A -> Z) (l : list A) :
  (forall a, 0 <= f a <= g a) -> 0 <= py_sum (map f l) <= py_sum (map g l).
Proof.
  intros Hfg. induction l as [|x r IH]; cbn [map].
  - unfold py_sum. cbn. lia.
  - rewrite !py_sum_cons. specialize (Hfg x). lia.
Qed.

Lemma covered_bounds {K : Type} (d : Dict.t K Z) : 0 <= covered d <= Dict.len d.
Proof.
  rewrite covered_count_hit. unfold count_hit, Dict.len.
  induction d as [|[k c] r IH]; cbn [filter snd List.length]; [lia|].
  destruct (0 <? c); cbn [List.length]; lia.
Qed.

Lemma covered_of_bounds {K : Type} (counter : entry -> Dict.t K Z) (m : coverage) :
  0 <= covered_of counter m <= total_of counter m.
Proof.
  unfold covered_of, total_of. apply py_sum_bounds. intros e.
  apply covered_bounds.
Qed.

Lemma coverage_pct_eq (cov total : Z) :
  coverage_pct cov total = Ok (if total >? 0 then PFloat cov total else PInt 0).
Proof.
  unfold coverage_pct, true_div_100. destruct (Z.gtb_spec total 0); [|reflexivity].
  destruct (Z.eqb_spec total 0); [lia | reflexivity].
Qed.

Lemma print_summary_eq (float_2f : Z -> Z -> string) (m : coverage) (o : string) :
  print_summary float_2f m o =
  Ok [ Printed (nl ++ "Merged coverage summary:");
       Printed ("  Files: " ++ PyStr.str (Dict.len m));
       summary_line float_2f "Lines" (covered_of lines m) (total_of lines m)
         (if total_of lines m >? 0
          then PFloat (covered_of lines m) (total_of lines m) else PInt 0);
       summary_line float_2f "Functions" (covered_of functions m)
         (total_of functions m)
         (if total_of functions m >? 0
          then PFloat (covered_of functions m) (total_of functions m) else PInt 0);
       summary_line float_2f "Branches" (covered_of branches m)
         (total_of branches m)
         (if total_of branches m >? 0
          then PFloat (covered_of branches m) (total_of branches m) else PInt 0);
       Printed ("  Output: " ++ o) ].
Proof. unfold print_summary. now rewrite !coverage_pct_eq. Qed.

Lemma summary_line_zero {K : Type} (float_2f : Z -> Z -> string) (label : string)
    (counter : entry -> Dict.t K Z) (m : coverage) :
  total_of counter m = 0 ->
  summary_line float_2f label (covered_of counter m) (total_of counter m)
    (if total_of counter m >? 0
     then PFloat (covered_of counter m) (total_of counter m) else PInt 0) =
  Printed ("  " ++ label ++ ": 0/0 (0.00%)").
Proof.
  intros Ht. pose proof (covered_of_bounds counter m) as Hb.
  assert (Hc : covered_of counter m = 0) by lia. now rewrite Hc, Ht.
Qed.

Lemma main_empty (float_2f : Z -> Z -> string) (fs : filesystem) (a : args) :
  Dict.is_empty (fst (merge_coverage_files fs (files a))) = true ->
  main float_2f fs a =
  {| stdout :=
       [Printed ("Merging " ++ PyStr.str (Z.of_nat (List.length (files a)))
               ++ " coverage files...")]
       ++ snd (merge_coverage_files fs (files a))
       ++ [Printed "No coverage data found!"];
     written := None;
     ended := Exit 1 |}.
Proof.
  unfold main. destruct (merge_coverage_files fs (files a)) as [m out1].
  cbn [fst snd]. now intros ->.
Qed.

Lemma main_written (float_2f : Z -> Z -> string) (fs : filesystem) (a : args)
    (text : file) :
  Dict.is_empty (fst (merge_coverage_files fs (files a))) = false ->
  write_merged_lcov fs (fst (merge_coverage_files fs (files a))) (output a) = Ok text ->
  exists out2,
    print_summary float_2f (fst (merge_coverage_files fs (files a))) (output a) =
    Ok out2 /\
    main float_2f fs a =
    {| stdout :=
         [Printed ("Merging " ++ PyStr.str (Z.of_nat (List.length (files a)))
                 ++ " coverage files...")]
         ++ snd (merge_coverage_files fs (files a)) ++ out2;
       written := Some (output a, text);
       ended := Exit 0 |}.
Proof.
  unfold main. destruct (merge_coverage_files fs (files a)) as [m out1].
  cbn [fst snd]. intros -> ->. rewrite print_summary_eq. eexists.
  split; reflexivity.
Qed.

Lemma main_failed (float_2f : Z -> Z -> string) (fs : filesystem) (a : args)
    (e : exn) :
  Dict.is_empty (fst (merge_coverage_files fs (files a))) = false ->
  write_merged_lcov fs (fst (merge_coverage_files fs (files a))) (output a) =
  Raise e ->
  main float_2f fs a =
  {| stdout :=
       [Printed ("Merging " ++ PyStr.str (Z.of_nat (List.length (files a)))
               ++ " coverage files...")]
       ++ snd (merge_coverage_files fs (files a));
     written := left_behind fs (fst (merge_coverage_files fs (files a))) (output a);
     ended := Uncaught e |}.
Proof.
  unfold main. destruct (merge_coverage_files fs (files a)) as [m out1].
  cbn [fst snd]. now intros -> ->.
Qed.


(** ** C8: a total of zero *)

(** C8. The ratio of a counter is computed without error for every pair
    of covered and total: the division is reached only when the total
    is positive, and a total of zero gives the integer 0, printed as
    [0.00].  The summary of [main] never raises; when the merged total
    of lines, functions or branches is zero its line reads [0/0
    (0.00%)], and a run whose output was written ends with status 0. *)
Theorem zero_total_ratio (float_2f : Z -> Z -> string) :
  (forall cov total : Z,
     exists p, coverage_pct cov total = Ok p /\
               (total = 0 -> p = PInt 0) /\
               (forall c t, p = PFloat c t -> 0 < total /\ c = cov /\ t = total)) /\
  format_2f float_2f (PInt 0) = "0.00" /\
  (forall (merged : coverage) (output_path : string),
     exists out, print_summary float_2f merged output_path = Ok out /\
       (total_of lines merged = 0 -> In (Printed "  Lines: 0/0 (0.00%)") out) /\
       (total_of functions merged = 0 ->
        In (Printed "  Functions: 0/0 (0.00%)") out) /\
       (total_of branches merged = 0 ->
        In (Printed "  Branches: 0/0 (0.00%)") out)) /\
  (forall (fs : filesystem) (a : args) (text : file),
     Dict.is_empty (fst (merge_coverage_files fs (files a))) = false ->
     write_merged_lcov fs (fst (merge_coverage_files fs (files a))) (output a) =
     Ok text ->
     ended (main float_2f fs a) = Exit 0 /\
     (total_of lines (fst (merge_coverage_files fs (files a))) = 0 ->
      In (Printed "  Lines: 0/0 (0.00%)") (stdout (main float_2f fs a)))).
Proof.
  assert (Hsum : forall (merged : coverage) (output_path : string),
     exists out, print_summary float_2f merged output_path = Ok out /\
       (total_of lines merged = 0 -> In (Printed "  Lines: 0/0 (0.00%)") out) /\
       (total_of functions merged = 0 ->
        In (Printed "  Functions: 0/0 (0.00%)") out) /\
       (total_of branches merged = 0 ->
        In (Printed "  Branches: 0/0 (0.00%)") out)).
  { intros merged output_path. eexists. split; [apply print_summary_eq|].
    split; [|split]; intros Ht.
    - rewrite (summary_line_zero float_2f "Lines" lines merged Ht).
      cbn [In]. auto.
    - rewrite (summary_line_zero float_2f "Functions" functions merged Ht).
      cbn [In]. auto.
    - rewrite (summary_line_zero float_2f "Branches" branches merged Ht).
      cbn [In]. auto 6. }
  split; [|split; [reflexivity | split; [exact Hsum|]]].
  - intros cov total. eexists. split; [apply coverage_pct_eq|].
    destruct (Z.gtb_spec total 0); split.
    + lia.
    + intros c t [= -> ->]. lia.
    + reflexivity.
    + discriminate.
  - intros fs a text Hne Hw.
    destruct (main_written float_2f fs a text Hne Hw) as (out2 & Hp & ->).
    cbn [ended stdout]. split; [reflexivity|]. intros Ht.
    destruct (Hsum (fst (merge_coverage_files fs (files a))) (output a))
      as (out & Hout & Hl & _).
    rewrite Hp in Hout. injection Hout as <-.
    rewrite !in_app_iff. right. right. now apply Hl.
Qed.

(** ** C9: nothing to write *)



(** ** The theorems at concrete inputs *)

Lemma merge_order_independent_witness :
  Permutation [parsed_A; parsed_B] [parsed_B; parsed_A] /\
  match Dict.get (merge_all [parsed_A; parsed_B]) "x.c",
        Dict.get (merge_all [parsed_B; parsed_A]) "x.c" with
  | Some e, Some e' =>
      (same_counts (functions e) (functions e') /\
       same_counts (lines e) (lines e') /\
       same_counts (branches e) (branches e')) /\
      (Permutation (functions e) (functions e') /\
       Permutation (lines e) (lines e') /\
       Permutation (branches e) (branches e'))
  | None, None => True
  | _, _ => False
  end.
Proof.
  split; [apply perm_swap|].
  apply (merge_order_independent [parsed_A; parsed_B] [parsed_B; parsed_A]).
  apply perm_swap.
Defined.



Lemma placeholder_branch_counts_zero_witness :
  parse_line in_a_c "BRDA:7,0,1,-" =
  Ok (put_current in_a_c
        (with_branches (append_branch_data (PyStr.strip "BRDA:7,0,1,-") empty_entry)
           (max_into (branches empty_entry) (branch_key "BRDA:7" "0" "1") 0))) /\
  (count_all (max_into (@Dict.empty string Z) "7:0:1" 0) =
   count_all (@Dict.empty string Z) + 1 /\
   count_hit (max_into (@Dict.empty string Z) "7:0:1" 0) =
   count_hit (@Dict.empty string Z)) /\
  (In ("7:0:1", 0) [("7:0:1", 0)] /\
   ~ In ("7:0:1", 0) (filter (fun kc => 0 <? snd kc) [("7:0:1", 0)])).
Proof.
  destruct placeholder_branch_counts_zero as (H1 & _ & _ & H3 & H4 & _).
  split; [|split].
  - exact (proj1 (H1 in_a_c "BRDA:7,0,1,-" empty_entry "BRDA:7" "0" "1"
                    eq_refl eq_refl eq_refl eq_refl)).
  - exact (H3 Dict.empty "7:0:1" eq_refl).
  - exact (H4 [("7:0:1", 0)] "7:0:1" eq_refl).
Defined.

Lemma serialization_layout_witness :
  In "LF:" summary_tags /\
  PyStr.startswith (PyStr.strip "LF:3") "LF:" = true /\
  parse_line in_a_c "LF:3" = Ok in_a_c /\
  lcov_text [("y.c", {| functions := [("f", 1)]; lines := [(2, 1); (1, 0)];
                        branches := []; function_data := ["FN:1,f"];
                        branch_data := [] |})] =
  [("TN:" ++ nl)%string; ("SF:y.c" ++ nl)%string; ("FN:1,f" ++ nl)%string;
   ("FNDA:1,f" ++ nl)%string; ("FNF:1" ++ nl)%string; ("FNH:1" ++ nl)%string;
   ("BRF:0" ++ nl)%string; ("BRH:0" ++ nl)%string;
   ("DA:1,0" ++ nl)%string; ("DA:2,1" ++ nl)%string;
   ("LF:2" ++ nl)%string; ("LH:1" ++ nl)%string; ("end_of_record" ++ nl)%string] /\
  Dict.keys (merge_source [("x.c", empty_entry)] ("y.c", empty_entry)) =
  ["x.c"; "y.c"].
Proof.
  assert (Htag : In "LF:" summary_tags) by (cbn; auto 10).
  destruct serialization_layout as (Htext & Hkeys & _ & Hsum & _).
  split; [exact Htag|]. split; [reflexivity|].
  split; [exact (Hsum in_a_c "LF:3" "LF:" Htag eq_refl)|].
  split; [rewrite Htext; reflexivity|].
  rewrite Hkeys. reflexivity.
Defined.


Lemma zero_total_ratio_witness :
  (exists p, coverage_pct 0 0 = Ok p /\ p = PInt 0) /\
  (exists out,
     print_summary (fun _ _ => EmptyString) [("a.c", empty_entry)] "out/m.info" =
     Ok out /\
     In (Printed "  Lines: 0/0 (0.00%)") out /\
     In (Printed "  Functions: 0/0 (0.00%)") out /\
     In (Printed "  Branches: 0/0 (0.00%)") out) /\
  (ended (main (fun _ _ => EmptyString) (fs_of [("a.info", ["SF:a.c"])])
            {| files := ["a.info"]; output := "out/m.info" |}) = Exit 0 /\
   In (Printed "  Lines: 0/0 (0.00%)")
      (stdout (main (fun _ _ => EmptyString) (fs_of [("a.info", ["SF:a.c"])])
                 {| files := ["a.info"]; output := "out/m.info" |}))).
Proof.
  destruct (zero_total_ratio (fun _ _ => EmptyString)) as (H1 & _ & H3 & H4).
  split; [|split].
  - destruct (H1 0 0) as (p & Hp & Hz & _). exists p. split; [exact Hp|].
    now apply Hz.
  - destruct (H3 [("a.c", empty_entry)] "out/m.info") as (out & Ho & Hl & Hf & Hb).
    exists out. split; [exact Ho|].
    split; [|split]; [apply Hl | apply Hf | apply Hb]; reflexivity.
  - destruct (H4 (fs_of [("a.info", ["SF:a.c"])])
                {| files := ["a.info"]; output := "out/m.info" |}
                (lcov_text [("a.c", empty_entry)]) eq_refl eq_refl) as [He Hl].
    split; [exact He|]. apply Hl. reflexivity.
Defined.


(** * Further properties of the merge *)

Lemma fold_max_le (l : list Z) (v : Z) : v <= fold_left Z.max l v.
Proof.
  revert v. induction l as [|c l IH]; intros v; cbn [fold_left]; [lia|].
  specialize (IH (Z.max v c)). lia.
Qed.

Lemma fold_max_max (l : list Z) (a b : Z) :
  fold_left Z.max l (Z.max a b) = Z.max a (fold_left Z.max l b).
Proof.
  revert b. induction l as [|c l IH]; intros b; cbn [fold_left]; [reflexivity|].
  now rewrite <- IH, <- Z.max_assoc.
Qed.

Lemma fold_max_In (l : list Z) (v c : Z) : In c l -> c <= fold_left Z.max l v.
Proof.
  revert v. induction l as [|x l IH]; intros v; cbn [fold_left In]; [tauto|].
  intros [->|Hin]; [|now apply IH].
  pose proof (fold_max_le l (Z.max v c)). lia.
Qed.

(** From a count [v] on, the steps only raise the count. *)
Lemma fold_upd_grows (l : list Z) (v : Z) :
  exists v', fold_left upd l (Some v) = Some v' /\ v <= v'.
Proof.
  rewrite fold_upd_Some. eexists. split; [reflexivity | apply fold_max_le].
Qed.

Lemma fold_upd_In (l : list Z) (o : option Z) (c : Z) :
  In c l -> exists v, fold_left upd l o = Some v /\ c <= v.
Proof.
  destruct l as [|x l]; [intros []|]. intros Hin. cbn [fold_left].
  destruct (upd o x) as [w|] eqn:Ew; [|discriminate].
  assert (Hx : x <= w) by (unfold upd in Ew; injection Ew as <-; lia).
  rewrite fold_upd_Some. eexists. split; [reflexivity|].
  pose proof (fold_max_le l w).
  destruct Hin as [->|Hin]; [lia | now apply fold_max_In].
Qed.

Lemma fold_upd_None_nonneg (l : list Z) (v : Z) :
  fold_left upd l None = Some v -> 0 <= v.
Proof.
  destruct l as [|x l]; cbn [fold_left]; [discriminate|].
  rewrite (eq_refl : upd None x = Some (Z.max 0 x)), fold_upd_Some.
  intros [= <-]. pose proof (fold_max_le l (Z.max 0 x)). lia.
Qed.

Lemma upd_None (c : Z) : upd None c = Some (Z.max 0 c).
Proof. reflexivity. Qed.

(** Merging two partial results is merging everything. *)
Lemma fold_upd_join (h1 h2 : list Z) :
  fold_left upd (opt_list (fold_left upd h1 None)
                 ++ opt_list (fold_left upd h2 None)) None =
  fold_left upd (h1 ++ h2) None.
Proof.
  rewrite (fold_left_app upd h1 h2 None).
  destruct (fold_left upd h1 None) as [va|] eqn:Ea.
  - pose proof (fold_upd_None_nonneg h1 va Ea) as Hva.
    cbn [opt_list app fold_left]. rewrite upd_None, (Z.max_r 0 va Hva).
    destruct h2 as [|c r]; [reflexivity|]. cbn [fold_left].
    rewrite upd_None, upd_Some, !fold_upd_Some. cbn [opt_list fold_left].
    f_equal. rewrite (fold_max_max r 0 c), (fold_max_max r va c). lia.
  - cbn [opt_list app].
    destruct (fold_left upd h2 None) as [vb|] eqn:Eb; [|reflexivity].
    pose proof (fold_upd_None_nonneg h2 vb Eb) as Hvb.
    cbn [opt_list fold_left]. now rewrite upd_None, Z.max_r.
Qed.

Section MergeAlgebra.
Context {K : Type} `{EqKey K}.
Variable counter : entry -> Dict.t K Z.
Hypothesis counter_wf : forall e, entry_ok e -> counter_ok (counter e).
Hypothesis counter_merge : forall data e,
  counter (merge_entry data e) = merge_counts (counter e) (counter data).
Hypothesis counter_seed : forall data, counter (seed data) = Dict.empty.

Lemma merged_count_more (inputs more : list coverage) sf k v :
  merged_count counter (merge_all inputs) sf k = Some v ->
  exists v', merged_count counter (merge_all (inputs ++ more)) sf k = Some v' /\
             v <= v'.
Proof.
  intros Hv. unfold merge_all. rewrite fold_left_app.
  rewrite (merged_count_inputs counter counter_merge counter_seed).
  fold (merge_all inputs). rewrite Hv. apply fold_upd_grows.
Qed.

Lemma merged_count_join (l1 l2 : list coverage) sf k :
  merged_count counter (merge_all [merge_all l1; merge_all l2]) sf k =
  merged_count counter (merge_all (l1 ++ l2)) sf k.
Proof.
  rewrite !(merged_count_all counter counter_merge counter_seed).
  rewrite (all_hits_observed counter counter_wf)
    by (repeat constructor; apply coverage_ok_all).
  unfold observed. cbn [flat_map]. rewrite app_nil_r.
  rewrite !(merged_count_all counter counter_merge counter_seed).
  unfold all_hits. rewrite flat_map_app. apply fold_upd_join.
Qed.

End MergeAlgebra.

Lemma contains_all (inputs : list coverage) (sf : string) :
  Dict.contains (merge_all inputs) sf = existsb (names sf) inputs.
Proof. unfold merge_all. now rewrite contains_inputs. Qed.

Lemma names_contains (d : coverage) (sf : string) : names sf d = Dict.contains d sf.
Proof.
  unfold names, Dict.contains. induction d as [|[k e] r IH];
    cbn [existsb Dict.get fst]; [reflexivity|].
  change (@keqb string _ k sf) with (String.eqb k sf).
  now destruct (String.eqb k sf).
Qed.

(** X1. Adding inputs never takes anything away: a source file of the
    aggregate stays, and a key keeps a count at least as high, in each
    of the three counters. *)
Theorem more_inputs_never_lower (inputs more : list coverage) (sf : string) :
  (Dict.contains (merge_all inputs) sf = true ->
   Dict.contains (merge_all (inputs ++ more)) sf = true) /\
  (forall name v,
     merged_count functions (merge_all inputs) sf name = Some v ->
     exists v', merged_count functions (merge_all (inputs ++ more)) sf name =
                Some v' /\ v <= v') /\
  (forall line_num v,
     merged_count lines (merge_all inputs) sf line_num = Some v ->
     exists v', merged_count lines (merge_all (inputs ++ more)) sf line_num =
                Some v' /\ v <= v') /\
  (forall key v,
     merged_count branches (merge_all inputs) sf key = Some v ->
     exists v', merged_count branches (merge_all (inputs ++ more)) sf key =
                Some v' /\ v <= v').
Proof.
  split; [|split; [|split]].
  - rewrite !contains_all, existsb_app. intros ->. reflexivity.
  - intros name v. now apply merged_count_more.
  - intros line_num v. now apply merged_count_more.
  - intros key v. now apply merged_count_more.
Qed.

(** X2. Merging two aggregates gives what merging all their inputs at
    once gives: the same source files and, for every key of the three
    counters, the same count. *)
Theorem merge_of_merges (l1 l2 : list coverage) (sf : string) :
  Dict.contains (merge_all [merge_all l1; merge_all l2]) sf =
  Dict.contains (merge_all (l1 ++ l2)) sf /\
  (forall name,
     merged_count functions (merge_all [merge_all l1; merge_all l2]) sf name =
     merged_count functions (merge_all (l1 ++ l2)) sf name) /\
  (forall line_num,
     merged_count lines (merge_all [merge_all l1; merge_all l2]) sf line_num =
     merged_count lines (merge_all (l1 ++ l2)) sf line_num) /\
  (forall key,
     merged_count branches (merge_all [merge_all l1; merge_all l2]) sf key =
     merged_count branches (merge_all (l1 ++ l2)) sf key).
Proof.
  split; [|split; [|split]].
  - rewrite !contains_all, existsb_app. cbn [existsb].
    now rewrite !names_contains, !contains_all, orb_false_r.
  - intros name. apply merged_count_join; try reflexivity.
    now intros e (Hf & _).
  - intros line_num. apply merged_count_join; try reflexivity.
    now intros e (_ & Hl & _).
  - intros key. apply merged_count_join; try reflexivity.
    now intros e (_ & _ & Hb).
Qed.

(** ** An input met again *)

Lemma set_same {K V : Type} `{EqKey K} (d : Dict.t K V) k v :
  Dict.get d k = Some v -> Dict.set d k v = d.
Proof.
  induction d as [|[k0 v0] r IH]; cbn [Dict.get Dict.set]; [discriminate|].
  destruct (keqb k0 k); [now intros [= ->] | intros G; now rewrite IH].
Qed.

Lemma update_same {K V : Type} `{EqKey K} (d : Dict.t K V) k f v :
  Dict.get d k = Some v -> f v = v -> Dict.update d k f = d.
Proof.
  induction d as [|[k0 v0] r IH]; cbn [Dict.get Dict.update]; [reflexivity|].
  destruct (keqb k0 k); [intros [= ->] ->; reflexivity|].
  intros G E. now rewrite IH.
Qed.

Section Domination.
Context {K : Type} `{EqKey K}.

Lemma merge_counts_dominated (agg incoming : Dict.t K Z) :
  dominates agg incoming -> merge_counts agg incoming = agg.
Proof.
  unfold merge_counts, Dict.items.
  induction incoming as [|[k c] r IH]; intros Hdom; cbn [fold_left fst snd];
    [reflexivity|].
  destruct (Hdom k c (or_introl eq_refl)) as (v & G & Hle).
  assert (E : max_into agg k c = agg).
  { unfold max_into, Dict.get_default. rewrite G, Z.max_l by exact Hle.
    now apply set_same. }
  rewrite E. apply IH. intros k' c' Hin. apply Hdom. now right.
Qed.

Lemma grows_refl (d : Dict.t K Z) : grows d d.
Proof. intros k v G. exists v. split; [exact G | lia]. Qed.

Lemma grows_trans (d1 d2 d3 : Dict.t K Z) : grows d1 d2 -> grows d2 d3 -> grows d1 d3.
Proof.
  intros H12 H23 k v G. destruct (H12 k v G) as (v2 & G2 & L2).
  destruct (H23 k v2 G2) as (v3 & G3 & L3). exists v3. split; [exact G3 | lia].
Qed.

Lemma grows_merge_counts (agg incoming : Dict.t K Z) :
  grows agg (merge_counts agg incoming).
Proof.
  intros k v G. rewrite get_merge_counts, G. apply fold_upd_grows.
Qed.

Lemma dominates_merge_counts (agg incoming : Dict.t K Z) :
  dominates (merge_counts agg incoming) incoming.
Proof.
  intros k c Hin. rewrite get_merge_counts. apply fold_upd_In.
  unfold hits. change c with (snd (k, c)). apply in_map. apply filter_In.
  split; [exact Hin | apply keqb_refl].
Qed.

Lemma dominates_grows (agg agg' incoming : Dict.t K Z) :
  dominates agg incoming -> grows agg agg' -> dominates agg' incoming.
Proof.
  intros Hdom Hg k c Hin. destruct (Hdom k c Hin) as (v & G & L).
  destruct (Hg k v G) as (v' & G' & L'). exists v'. split; [exact G' | lia].
Qed.

End Domination.

Lemma grows_coverage_refl (m : coverage) : grows_coverage m m.
Proof.
  intros sf e G. exists e. split; [exact G|]. repeat split; apply grows_refl.
Qed.

Lemma grows_coverage_trans (m1 m2 m3 : coverage) :
  grows_coverage m1 m2 -> grows_coverage m2 m3 -> grows_coverage m1 m3.
Proof.
  intros H12 H23 sf e G. destruct (H12 sf e G) as (e2 & G2 & F2 & L2 & B2).
  destruct (H23 sf e2 G2) as (e3 & G3 & F3 & L3 & B3). exists e3.
  split; [exact G3|]. repeat split; eapply grows_trans; eassumption.
Qed.

Lemma grows_coverage_source (m : coverage) (it : string * entry) :
  grows_coverage m (merge_source m it).
Proof.
  destruct it as [sf' data]. intros sf e G. unfold merge_source.
  rewrite get_update. change (@keqb string _ sf' sf) with (String.eqb sf' sf).
  destruct (String.eqb sf' sf) eqn:E.
  - apply String.eqb_eq in E. subst sf'. unfold Dict.contains. rewrite G, G.
    cbn [option_map]. eexists. split; [reflexivity|].
    cbn [merge_entry functions lines branches].
    repeat split; apply grows_merge_counts.
  - exists e. split; [|repeat split; apply grows_refl].
    destruct (Dict.contains m sf'); [exact G|].
    rewrite get_set_other; [exact G | now apply String.eqb_neq].
Qed.

Lemma grows_coverage_file (d m : coverage) : grows_coverage m (merge_file_data m d).
Proof.
  unfold merge_file_data, Dict.items. revert m.
  induction d as [|it r IH]; intros m; cbn [fold_left];
    [apply grows_coverage_refl|].
  eapply grows_coverage_trans; [apply grows_coverage_source | apply IH].
Qed.

Lemma grows_coverage_inputs (inputs : list coverage) (m : coverage) :
  grows_coverage m (fold_left merge_file_data inputs m).
Proof.
  revert m. induction inputs as [|d r IH]; intros m; cbn [fold_left];
    [apply grows_coverage_refl|].
  eapply grows_coverage_trans; [apply grows_coverage_file | apply IH].
Qed.

Lemma covers_grows (m m' d : coverage) :
  covers m d -> grows_coverage m m' -> covers m' d.
Proof.
  intros Hc Hg sf data Hin. destruct (Hc sf data Hin) as (e & G & Df & Dl & Db).
  destruct (Hg sf e G) as (e' & G' & Ff & Fl & Fb). exists e'.
  split; [exact G'|]. repeat split; eapply dominates_grows; eassumption.
Qed.

Lemma covers_source (m : coverage) (sf : string) (data : entry) :
  exists e, Dict.get (merge_source m (sf, data)) sf = Some e /\
            dominates (functions e) (functions data) /\
            dominates (lines e) (lines data) /\
            dominates (branches e) (branches data).
Proof.
  unfold merge_source. rewrite get_update, keqb_refl.
  destruct (Dict.contains m sf) eqn:C.
  - apply contains_get in C. destruct C as [e0 G]. rewrite G. cbn [option_map].
    eexists. split; [reflexivity|]. cbn [merge_entry functions lines branches].
    repeat split; apply dominates_merge_counts.
  - rewrite get_set_same. cbn [option_map]. eexists. split; [reflexivity|].
    cbn [merge_entry functions lines branches].
    repeat split; apply dominates_merge_counts.
Qed.

Lemma covers_file (d m : coverage) : covers (merge_file_data m d) d.
Proof.
  unfold merge_file_data, Dict.items. revert m.
  induction d as [|[sf data] r IH]; intros m; cbn [fold_left]; [intros ? ? []|].
  intros sf' data' [[= <- <-]|Hin].
  - destruct (covers_source m sf data) as (e & G & Df & Dl & Db).
    pose proof (grows_coverage_file r (merge_source m (sf, data))) as Hg.
    destruct (Hg sf e G) as (e' & G' & Ff & Fl & Fb). exists e'.
    split; [exact G'|]. repeat split; eapply dominates_grows; eassumption.
  - now apply IH.
Qed.

Lemma merge_entry_dominated (data e : entry) :
  dominates (functions e) (functions data) ->
  dominates (lines e) (lines data) ->
  dominates (branches e) (branches data) ->
  merge_entry data e = e.
Proof.
  intros Df Dl Db. unfold merge_entry.
  rewrite !merge_counts_dominated by assumption. now destruct e.
Qed.

Lemma merge_file_data_covered (d m : coverage) :
  covers m d -> merge_file_data m d = m.
Proof.
  unfold merge_file_data, Dict.items.
  induction d as [|[sf data] r IH]; intros Hc; cbn [fold_left]; [reflexivity|].
  destruct (Hc sf data (or_introl eq_refl)) as (e & G & Df & Dl & Db).
  assert (E : merge_source m (sf, data) = m).
  { unfold merge_source, Dict.contains. rewrite G.
    apply (update_same m sf _ e G). now apply merge_entry_dominated. }
  rewrite E. apply IH. intros sf' data' Hin. apply Hc. now right.
Qed.

Lemma covers_all (inputs : list coverage) (d : coverage) :
  In d inputs -> covers (merge_all inputs) d.
Proof.
  intros Hin. apply in_split in Hin. destruct Hin as (l1 & l2 & ->).
  unfold merge_all. rewrite fold_left_app. cbn [fold_left].
  eapply covers_grows; [apply covers_file | apply grows_coverage_inputs].
Qed.

(** X3. A path that the list of inputs already holds changes nothing when
    it is met again: the aggregate after the second visit is the
    aggregate without it, item for item and in the same order, and so
    is the text written from it. *)
Theorem repeated_input_changes_nothing (fs : filesystem)
    (before after : list string) (file_path : string) :
  In file_path before ->
  fst (merge_coverage_files fs (before ++ file_path :: after)) =
  fst (merge_coverage_files fs (before ++ after)) /\
  lcov_text (fst (merge_coverage_files fs (before ++ file_path :: after))) =
  lcov_text (fst (merge_coverage_files fs (before ++ after))).
Proof.
  intros Hin.
  assert (E : fst (merge_coverage_files fs (before ++ file_path :: after)) =
              fst (merge_coverage_files fs (before ++ after))).
  { rewrite !merge_coverage_files_all. unfold merge_all.
    change (file_path :: after) with ([file_path] ++ after).
    rewrite !parsed_inputs_app, !fold_left_app. f_equal.
    unfold parsed_inputs at 1. cbn [filter].
    destruct (path_exists fs file_path) eqn:Ex; [|reflexivity].
    cbn [map fold_left]. apply merge_file_data_covered.
    apply (covers_all (parsed_inputs fs before)).
    unfold parsed_inputs.
    apply (in_map (fun p => fst (parse_lcov_file fs p))).
    apply filter_In. now split. }
  split; [exact E | now rewrite E].
Qed.

(** ** The source files of the aggregate, in order *)

Lemma contains_mem {V : Type} (m : Dict.t string V) (sf : string) :
  Dict.contains m sf = mem sf (Dict.keys m).
Proof.
  unfold Dict.contains, mem, Dict.keys.
  induction m as [|[k e] r IH]; cbn [Dict.get map existsb fst]; [reflexivity|].
  change (@keqb string _ k sf) with (String.eqb k sf).
  rewrite (String.eqb_sym sf k). now destruct (String.eqb k sf).
Qed.

Lemma mem_ext (x : string) (seen seen' : list string) :
  (forall y, In y seen <-> In y seen') -> mem x seen = mem x seen'.
Proof.
  intros Hext. destruct (mem x seen) eqn:E, (mem x seen') eqn:E'; try reflexivity.
  - apply mem_In, Hext, mem_In in E. congruence.
  - apply mem_In, Hext, mem_In in E'. congruence.
Qed.

Lemma dedup_from_ext (l seen seen' : list string) :
  (forall y, In y seen <-> In y seen') ->
  dedup_from seen l = dedup_from seen' l.
Proof.
  revert seen seen'. induction l as [|x r IH]; intros seen seen' Hext;
    cbn [dedup_from]; [reflexivity|].
  rewrite (mem_ext x seen seen' Hext). destruct (mem x seen').
  - now apply IH.
  - f_equal. apply IH. intros y. cbn [In]. now rewrite Hext.
Qed.

Lemma dedup_from_app (l1 l2 seen : list string) :
  dedup_from seen (l1 ++ l2) =
  dedup_from seen l1 ++ dedup_from (seen ++ l1) l2.
Proof.
  revert seen. induction l1 as [|x r IH]; intros seen; cbn [app dedup_from].
  - now rewrite app_nil_r.
  - destruct (mem x seen) eqn:E.
    + rewrite IH. f_equal. apply dedup_from_ext. intros y.
      rewrite !in_app_iff. cbn [In]. apply mem_In in E.
      split; [tauto|]. intros [?|[<-|?]]; tauto.
    + cbn [app]. f_equal. rewrite IH. f_equal. apply dedup_from_ext.
      intros y. rewrite !in_app_iff. cbn [In]. tauto.
Qed.

Lemma in_or_dedup (seen l : list string) (y : string) :
  In y seen \/ In y (dedup_from seen l) <-> In y seen \/ In y l.
Proof.
  rewrite dedup_from_In. destruct (in_dec string_dec y seen); tauto.
Qed.

Lemma keys_source (m : coverage) (sf : string) (data : entry) :
  Dict.keys (merge_source m (sf, data)) =
  Dict.keys m ++ dedup_from (Dict.keys m) [sf].
Proof.
  unfold merge_source. rewrite keys_update. cbn [dedup_from].
  rewrite <- contains_mem. destruct (Dict.contains m sf) eqn:C.
  - now rewrite app_nil_r.
  - now rewrite keys_set, C.
Qed.

Lemma keys_file (d m : coverage) :
  Dict.keys (merge_file_data m d) =
  Dict.keys m ++ dedup_from (Dict.keys m) (Dict.keys d).
Proof.
  unfold merge_file_data, Dict.items. revert m.
  induction d as [|[sf data] r IH]; intros m; cbn [fold_left].
  - cbn. now rewrite app_nil_r.
  - rewrite IH, keys_source, <- app_assoc. f_equal.
    change (Dict.keys ((sf, data) :: r)) with ([sf] ++ Dict.keys r).
    rewrite (dedup_from_app [sf] (Dict.keys r)). f_equal.
    apply dedup_from_ext. intros y. rewrite !in_app_iff.
    apply in_or_dedup.
Qed.

Lemma keys_inputs (inputs : list coverage) (m : coverage) :
  Dict.keys (fold_left merge_file_data inputs m) =
  Dict.keys m ++ dedup_from (Dict.keys m) (flat_map Dict.keys inputs).
Proof.
  revert m. induction inputs as [|d r IH]; intros m; cbn [fold_left flat_map].
  - cbn. now rewrite app_nil_r.
  - rewrite IH, keys_file, <- app_assoc. f_equal.
    rewrite dedup_from_app. f_equal. apply dedup_from_ext. intros y.
    rewrite !in_app_iff. apply in_or_dedup.
Qed.

(** X4. The source files of the aggregate are the source files of the
    parse results of the existing input paths, each once, in the order in
    which the merge first meets them; the text written has its blocks in
    that order. *)
Theorem aggregate_files_in_first_seen_order (fs : filesystem)
    (file_paths : list string) :
  Dict.keys (fst (merge_coverage_files fs file_paths)) =
  dedup (flat_map Dict.keys (parsed_inputs fs file_paths)) /\
  NoDup (Dict.keys (fst (merge_coverage_files fs file_paths))) /\
  (forall sf,
     In sf (Dict.keys (fst (merge_coverage_files fs file_paths))) <->
     exists d, In d (parsed_inputs fs file_paths) /\ Dict.contains d sf = true).
Proof.
  assert (E : Dict.keys (fst (merge_coverage_files fs file_paths)) =
              dedup (flat_map Dict.keys (parsed_inputs fs file_paths))).
  { rewrite merge_coverage_files_all. unfold merge_all. now rewrite keys_inputs. }
  split; [exact E|]. rewrite E. split; [apply dedup_from_NoDup|].
  intros sf. unfold dedup. rewrite dedup_from_In, in_flat_map. split.
  - intros [(d & Hd & Hsf) _]. exists d. split; [exact Hd|].
    rewrite contains_mem. now apply mem_In.
  - intros (d & Hd & Hsf). split; [|intros []]. exists d. split; [exact Hd|].
    rewrite contains_mem in Hsf. now apply mem_In.
Qed.

(** ** The shape of the aggregate *)




(** ** What the merge prints, and inputs that give nothing *)

Lemma merge_step_messages (fs : filesystem) (m : coverage) (out : list event)
    (file_path : string) :
  snd (merge_step fs (m, out) file_path) = out ++ messages_of fs file_path.
Proof.
  unfold merge_step, messages_of. destruct (path_exists fs file_path);
    cbn [negb snd]; [|reflexivity].
  destruct (parse_lcov_file fs file_path) as [d out2]. cbn [snd].
  now rewrite <- app_assoc.
Qed.

Lemma merge_fold_messages (fs : filesystem) (file_paths : list string)
    (m : coverage) (out : list event) :
  snd (fold_left (merge_step fs) file_paths (m, out)) =
  out ++ flat_map (messages_of fs) file_paths.
Proof.
  revert m out. induction file_paths as [|p rest IH]; intros m out;
    cbn [fold_left flat_map].
  - now rewrite app_nil_r.
  - destruct (merge_step fs (m, out) p) as [m1 out1] eqn:E.
    rewrite IH. pose proof (merge_step_messages fs m out p) as Hs.
    rewrite E in Hs. cbn [snd] in Hs. now rewrite Hs, <- app_assoc.
Qed.

Lemma merge_messages (fs : filesystem) (file_paths : list string) :
  snd (merge_coverage_files fs file_paths) = flat_map (messages_of fs) file_paths.
Proof. unfold merge_coverage_files. now rewrite merge_fold_messages. Qed.

(** What [main] writes and how it ends depend on the aggregate and on
    the output path only. *)
Lemma main_same_aggregate (float_2f : Z -> Z -> string) (fs : filesystem)
    (a a' : args) :
  fst (merge_coverage_files fs (files a)) = fst (merge_coverage_files fs (files a')) ->
  output a = output a' ->
  written (main float_2f fs a) = written (main float_2f fs a') /\
  ended (main float_2f fs a) = ended (main float_2f fs a').
Proof.
  unfold main.
  destruct (merge_coverage_files fs (files a)) as [m out1].
  destruct (merge_coverage_files fs (files a')) as [m' out1'].
  cbn [fst]. intros <- <-.
  destruct (Dict.is_empty m); [split; reflexivity|].
  destruct (write_merged_lcov fs m (output a)); [|split; reflexivity].
  rewrite !print_summary_eq. split; reflexivity.
Qed.

(** X6. Whatever [merge_coverage_files] prints is, path by path in the
    order of the list, one [Processing:] line (followed by the error
    line when the parse failed) for a path that exists and one
    [Warning: File not found:] line for a path that does not; it does not
    depend on what the earlier files held. *)
Theorem merge_prints_per_path (fs : filesystem) (file_paths : list string) :
  snd (merge_coverage_files fs file_paths) = flat_map (messages_of fs) file_paths /\
  (forall p, path_exists fs p = false ->
             messages_of fs p = [Printed ("Warning: File not found: " ++ p)]) /\
  (forall p ls st, path_exists fs p = true -> read_lines fs p = Ok ls ->
                   parse_lines initial_pstate ls = Ok st ->
                   messages_of fs p = [Printed ("Processing: " ++ p)]) /\
  (forall p e, path_exists fs p = true -> read_lines fs p = Raise e ->
               messages_of fs p =
               [Printed ("Processing: " ++ p); PrintedErrorParsing p e]).
Proof.
  split; [apply merge_messages|]. split; [|split].
  - intros p Hp. unfold messages_of. now rewrite Hp.
  - intros p ls st Hp Hr Hs. unfold messages_of, parse_lcov_file.
    now rewrite Hp, Hr; cbn [bind]; rewrite Hs.
  - intros p e Hp Hr. unfold messages_of, parse_lcov_file. now rewrite Hp, Hr.
Qed.

(** X7. A path that does not exist adds nothing: with that path at any
    place of the list, the aggregate, the file written and the way the
    run ends are those of the run without it. *)
Theorem missing_input_is_skipped (float_2f : Z -> Z -> string) (fs : filesystem)
    (before after : list string) (file_path output_path : string) :
  path_exists fs file_path = false ->
  fst (merge_coverage_files fs (before ++ file_path :: after)) =
  fst (merge_coverage_files fs (before ++ after)) /\
  written (main float_2f fs {| files := before ++ file_path :: after;
                               output := output_path |}) =
  written (main float_2f fs {| files := before ++ after; output := output_path |}) /\
  ended (main float_2f fs {| files := before ++ file_path :: after;
                             output := output_path |}) =
  ended (main float_2f fs {| files := before ++ after; output := output_path |}).
Proof.
  intros Hp.
  assert (E : fst (merge_coverage_files fs (before ++ file_path :: after)) =
              fst (merge_coverage_files fs (before ++ after))).
  { rewrite !merge_coverage_files_all.
    change (file_path :: after) with ([file_path] ++ after).
    rewrite !parsed_inputs_app. unfold parsed_inputs at 2. cbn [filter].
    now rewrite Hp. }
  split; [exact E|]. now apply main_same_aggregate.
Qed.

(** X8. A file that exists but cannot be opened or read is reported once
    and adds nothing: the parse result is empty, and the aggregate, the
    file written and the way the run ends are those of the run without
    that path. *)
Theorem unreadable_input_is_skipped (float_2f : Z -> Z -> string)
    (fs : filesystem) (before after : list string)
    (file_path output_path : string) (e : exn) :
  read_lines fs file_path = Raise e ->
  parse_lcov_file fs file_path = (Dict.empty, [PrintedErrorParsing file_path e]) /\
  fst (merge_coverage_files fs (before ++ file_path :: after)) =
  fst (merge_coverage_files fs (before ++ after)) /\
  written (main float_2f fs {| files := before ++ file_path :: after;
                               output := output_path |}) =
  written (main float_2f fs {| files := before ++ after; output := output_path |}) /\
  ended (main float_2f fs {| files := before ++ file_path :: after;
                             output := output_path |}) =
  ended (main float_2f fs {| files := before ++ after; output := output_path |}).
Proof.
  intros Hr.
  assert (Hparse : parse_lcov_file fs file_path =
                   (Dict.empty, [PrintedErrorParsing file_path e]))
    by (unfold parse_lcov_file; now rewrite Hr).
  split; [exact Hparse|].
  assert (E : fst (merge_coverage_files fs (before ++ file_path :: after)) =
              fst (merge_coverage_files fs (before ++ after)))
    by (apply merge_skips_empty; now rewrite Hparse).
  split; [exact E|]. now apply main_same_aggregate.
Qed.

(** ** Exceptions of the parsing loop *)

Lemma int_raises (s : string) (e : exn) :
  PyStr.int s = Raise e -> e = ValueError s.
Proof.
  unfold PyStr.int. intros Hraise.
  repeat match type of Hraise with
         | context [match ?x with _ => _ end] => destruct x
         end; congruence.
Qed.

Lemma current_record (st : pstate) :
  pstate_ok st -> PyStr.truthy (current_file st) = true ->
  exists e, Dict.get (coverage_data st) (file_of st) = Some e.
Proof.
  intros [_ Hc] Ht. unfold file_of. destruct (current_file st) as [f|];
    [|discriminate].
  now apply contains_get.
Qed.

Lemma parse_line_raises (st : pstate) (raw : string) (e : exn) :
  pstate_ok st -> parse_line st raw = Raise e -> exists s, e = ValueError s.
Proof.
  intros Hst. unfold parse_line.
  destruct (PyStr.startswith (PyStr.strip raw) "SF:"); [discriminate|].
  destruct (PyStr.truthy (current_file st)) eqn:Ht;
    [|rewrite !andb_false_r; discriminate].
  destruct (current_record st Hst Ht) as [e0 G]. rewrite !andb_true_r.
  destruct (PyStr.startswith (PyStr.strip raw) "FN:").
  { rewrite (at_file_get _ _ _ e0 G). discriminate. }
  destruct (PyStr.startswith (PyStr.strip raw) "FNDA:").
  { destruct (PyStr.split_comma_1 _) as [|p0 [|p1 [|? ?]]]; try discriminate.
    destruct (PyStr.int _) as [count|e1] eqn:Ei; cbn [bind].
    - rewrite (at_file_get _ _ _ e0 G). discriminate.
    - intros [= <-]. apply int_raises in Ei. eauto. }
  destruct (PyStr.startswith (PyStr.strip raw) "DA:").
  { destruct (PyStr.split_comma _) as [|p0 [|p1 [|? ?]]]; try discriminate.
    destruct (PyStr.int (PyStr.slice_from 3 p0)) as [n|e1] eqn:Ei; cbn [bind];
      [|intros [= <-]; apply int_raises in Ei; eauto].
    destruct (PyStr.int p1) as [count|e2] eqn:Ec; cbn [bind];
      [|intros [= <-]; apply int_raises in Ec; eauto].
    rewrite (at_file_get _ _ _ e0 G). discriminate. }
  destruct (PyStr.startswith (PyStr.strip raw) "BRDA:"); [|discriminate].
  rewrite (at_file_get _ _ _ e0 G). cbn [bind].
  destruct (PyStr.split_comma _) as [|p0 [|p1 [|p2 [|p3 [|? ?]]]]];
    try discriminate.
  destruct (String.eqb p3 "-"); cbn [bind].
  - rewrite (at_file_get _ _ _ (append_branch_data (PyStr.strip raw) e0))
      by apply get_set_same.
    discriminate.
  - destruct (PyStr.int p3) as [count|e1] eqn:Ei; cbn [bind];
      [|intros [= <-]; apply int_raises in Ei; eauto].
    rewrite (at_file_get _ _ _ (append_branch_data (PyStr.strip raw) e0))
      by apply get_set_same.
    discriminate.
Qed.

Lemma parse_lines_raises_value (ls : list string) (st : pstate) (e : exn) :
  pstate_ok st -> parse_lines st ls = Raise e -> exists s, e = ValueError s.
Proof.
  revert st. induction ls as [|l rest IH]; intros st Hst; cbn [parse_lines];
    [discriminate|].
  destruct (parse_line st l) as [st1|e1] eqn:E; cbn [bind].
  - apply IH. now apply (parse_line_ok st st1 l).
  - intros [= <-]. now apply (parse_line_raises st l).
Qed.

(** X9. The parsing loop never looks up a source file that it has not
    recorded: the only exception that the lines of a file can raise is
    the [ValueError] of [int()].  When the file can be read, the parser
    either prints nothing or reports such a [ValueError], and it returns
    the empty mapping in the second case. *)
Theorem parser_raises_only_value_errors (fs : filesystem) (file_path : string)
    (ls : list string) :
  read_lines fs file_path = Ok ls ->
  (forall e, parse_lines initial_pstate ls = Raise e -> exists s, e = ValueError s) /\
  (snd (parse_lcov_file fs file_path) = [] \/
   exists s, parse_lcov_file fs file_path =
             (Dict.empty, [PrintedErrorParsing file_path (ValueError s)])).
Proof.
  intros Hr. split.
  - intros e. apply parse_lines_raises_value. apply pstate_ok_initial.
  - unfold parse_lcov_file. rewrite Hr. cbn [bind].
    destruct (parse_lines initial_pstate ls) as [st|e] eqn:E; cbn [bind snd];
      [now left|].
    right. destruct (parse_lines_raises_value ls _ e pstate_ok_initial E) as [s ->].
    now exists s.
Qed.

(** ** C10: a number that does not convert *)




(** ** Lines outside of a record *)

Lemma parse_lines_outside (pre : list string) (st : pstate) :
  PyStr.truthy (current_file st) = false ->
  Forall (fun raw => PyStr.startswith (PyStr.strip raw) "SF:" = false) pre ->
  parse_lines st pre = Ok st.
Proof.
  intros Ht. induction 1 as [|raw rest Hraw _ IH]; cbn [parse_lines];
    [reflexivity|].
  now rewrite (parse_line_outside st raw Hraw Ht).
Qed.

(** X10. Nothing is read before the first [SF:] line: the ASCII lines
    that come before it, whatever their tags and their content, can be
    taken away without changing the result of the parse, and none of
    them can make it fail. *)
Theorem lines_before_first_record_are_dropped (fs fs' : filesystem)
    (file_path : string) (pre rest : list string) :
  forallb PyStr.isascii pre = true ->
  Forall (fun raw => PyStr.startswith (PyStr.strip raw) "SF:" = false) pre ->
  parse_lines initial_pstate (pre ++ rest) = parse_lines initial_pstate rest /\
  (read_lines fs file_path = Ok (pre ++ rest) ->
   read_lines fs' file_path = Ok rest ->
   parse_lcov_file fs file_path = parse_lcov_file fs' file_path).
Proof.
  intros _ Hpre.
  assert (E : parse_lines initial_pstate (pre ++ rest) =
              parse_lines initial_pstate rest).
  { rewrite parse_lines_app.
    now rewrite (parse_lines_outside pre initial_pstate eq_refl Hpre). }
  split; [exact E|]. intros Hr Hr'. unfold parse_lcov_file.
  now rewrite Hr, Hr'; cbn [bind]; rewrite E.
Qed.

Lemma get_empty_path_set (cd : coverage) (file : string) (e : entry) :
  file <> EmptyString ->
  Dict.get (Dict.set cd file e) EmptyString = Dict.get cd EmptyString.
Proof. intros Hne. now apply get_set_other. Qed.

Lemma truthy_file_of (st : pstate) :
  PyStr.truthy (current_file st) = true -> file_of st <> EmptyString.
Proof.
  unfold file_of. destruct (current_file st) as [[|c r]|]; discriminate.
Qed.

Lemma at_file_empty_path (st : pstate) (cd cd' : coverage) (f : entry -> entry) :
  PyStr.truthy (current_file st) = true ->
  at_file cd (file_of st) f = Ok cd' ->
  Dict.get cd' EmptyString = Dict.get cd EmptyString.
Proof.
  intros Ht. unfold at_file. destruct (Dict.get cd (file_of st)); [|discriminate].
  intros [= <-]. apply get_empty_path_set. now apply truthy_file_of.
Qed.

Lemma parse_line_empty_path (st st' : pstate) (raw : string) :
  parse_line st raw = Ok st' ->
  (forall e, Dict.get (coverage_data st) EmptyString = Some e -> e = empty_entry) ->
  forall e, Dict.get (coverage_data st') EmptyString = Some e -> e = empty_entry.
Proof.
  unfold parse_line.
  destruct (PyStr.startswith (PyStr.strip raw) "SF:").
  { intros [= <-] Hinv e. cbn [coverage_data].
    destruct (Dict.contains _ _); [apply Hinv|].
    rewrite get_set.
    match goal with
    | |- context [if ?b then _ else _] => destruct b
    end; [now intros [= <-] | apply Hinv]. }
  destruct (PyStr.truthy (current_file st)) eqn:Ht;
    [|rewrite !andb_false_r; now intros [= <-]].
  rewrite !andb_true_r.
  destruct (PyStr.startswith (PyStr.strip raw) "FN:").
  { destruct (at_file _ _ _) as [cd'|] eqn:A; [|discriminate].
    intros [= <-] Hinv e. cbn [coverage_data].
    rewrite (at_file_empty_path st _ _ _ Ht A). apply Hinv. }
  destruct (PyStr.startswith (PyStr.strip raw) "FNDA:").
  { destruct (PyStr.split_comma_1 _) as [|p0 [|p1 [|? ?]]];
      try (intros [= <-]; tauto).
    destruct (PyStr.int _); [|discriminate]. cbn [bind].
    destruct (at_file _ _ _) as [cd'|] eqn:A; [|discriminate].
    intros [= <-] Hinv e. cbn [coverage_data].
    rewrite (at_file_empty_path st _ _ _ Ht A). apply Hinv. }
  destruct (PyStr.startswith (PyStr.strip raw) "DA:").
  { destruct (PyStr.split_comma _) as [|p0 [|p1 [|? ?]]];
      try (intros [= <-]; tauto).
    destruct (PyStr.int _); [|discriminate]. cbn [bind].
    destruct (PyStr.int _); [|discriminate]. cbn [bind].
    destruct (at_file _ _ _) as [cd'|] eqn:A; [|discriminate].
    intros [= <-] Hinv e. cbn [coverage_data].
    rewrite (at_file_empty_path st _ _ _ Ht A). apply Hinv. }
  destruct (PyStr.startswith (PyStr.strip raw) "BRDA:"); [|now intros [= <-]].
  destruct (at_file _ _ (append_branch_data _)) as [cd1|] eqn:A1; [|discriminate].
  cbn [bind]. pose proof (at_file_empty_path st _ _ _ Ht A1) as E1.
  destruct (PyStr.split_comma _) as [|p0 [|p1 [|p2 [|p3 [|? ?]]]]];
    try (intros [= <-] Hinv e; cbn [coverage_data]; rewrite E1; apply Hinv).
  destruct (if String.eqb p3 "-" then _ else _); [|discriminate]. cbn [bind].
  destruct (at_file cd1 _ _) as [cd2|] eqn:A2; [|discriminate].
  intros [= <-] Hinv e. cbn [coverage_data].
  rewrite (at_file_empty_path st _ _ _ Ht A2), E1. apply Hinv.
Qed.

Lemma parse_lines_empty_path (ls : list string) (st st' : pstate) :
  parse_lines st ls = Ok st' ->
  (forall e, Dict.get (coverage_data st) EmptyString = Some e -> e = empty_entry) ->
  forall e, Dict.get (coverage_data st') EmptyString = Some e -> e = empty_entry.
Proof.
  revert st. induction ls as [|l rest IH]; intros st; cbn [parse_lines].
  - now intros [= <-].
  - destruct (parse_line st l) as [st1|] eqn:E; cbn [bind]; [|discriminate].
    intros Hrest Hinv. apply (IH st1 Hrest).
    now apply (parse_line_empty_path st st1 l).
Qed.

Lemma parse_result_empty_path (fs : filesystem) (file_path : string) (e : entry) :
  Dict.get (fst (parse_lcov_file fs file_path)) EmptyString = Some e ->
  e = empty_entry.
Proof.
  unfold parse_lcov_file. destruct (read_lines fs file_path) as [ls|];
    cbn [bind]; [|discriminate].
  destruct (parse_lines initial_pstate ls) as [st|] eqn:E; cbn [bind fst];
    [|discriminate].
  apply (parse_lines_empty_path ls initial_pstate st E). discriminate.
Qed.

Lemma get_all_none {K V : Type} `{EqKey K} (d : Dict.t K V) :
  (forall k, Dict.get d k = None) -> d = [].
Proof.
  destruct d as [|[k v] r]; [reflexivity|]. intros Hnone.
  specialize (Hnone k). cbn [Dict.get] in Hnone. now rewrite keqb_refl in Hnone.
Qed.

Section EmptyPath.
Context {K : Type} `{EqKey K}.
Variable counter : entry -> Dict.t K Z.
Hypothesis counter_wf : forall e, entry_ok e -> counter_ok (counter e).
Hypothesis counter_merge : forall data e,
  counter (merge_entry data e) = merge_counts (counter e) (counter data).
Hypothesis counter_seed : forall data, counter (seed data) = Dict.empty.
Hypothesis counter_empty : counter empty_entry = Dict.empty.

Lemma empty_path_counter (fs : filesystem) (file_paths : list string) (e : entry) :
  Dict.get (fst (merge_coverage_files fs file_paths)) EmptyString = Some e ->
  counter e = [].
Proof.
  intros G. apply get_all_none. intros k.
  pose proof (merged_count_all counter counter_merge counter_seed
                (parsed_inputs fs file_paths) EmptyString k) as Hm.
  rewrite <- merge_coverage_files_all in Hm. unfold merged_count at 1 in Hm.
  rewrite G in Hm. rewrite Hm.
  rewrite (all_hits_observed counter counter_wf)
    by apply parsed_inputs_coverage_ok.
  replace (observed counter (parsed_inputs fs file_paths) EmptyString k)
    with (@nil Z); [reflexivity|].
  unfold observed, parsed_inputs. induction (filter (path_exists fs) file_paths)
    as [|p rest IH]; cbn [map flat_map]; [reflexivity|].
  rewrite <- IH, app_nil_r. unfold merged_count.
  destruct (Dict.get (fst (parse_lcov_file fs p)) EmptyString) as [e0|] eqn:G0;
    [|reflexivity].
  rewrite (parse_result_empty_path fs p e0 G0), counter_empty. reflexivity.
Qed.

End EmptyPath.

Lemma aggregate_empty_path (fs : filesystem) (file_paths : list string)
    (e : entry) :
  Dict.get (fst (merge_coverage_files fs file_paths)) EmptyString = Some e ->
  e = empty_entry.
Proof.
  intros G.
  assert (Hf : functions e = [])
    by (apply (empty_path_counter functions) with (fs := fs)
          (file_paths := file_paths); try reflexivity; [|exact G];
        now intros e0 (Hf & _)).
  assert (Hl : lines e = [])
    by (apply (empty_path_counter lines) with (fs := fs)
          (file_paths := file_paths); try reflexivity; [|exact G];
        now intros e0 (_ & Hl & _)).
  assert (Hb : branches e = [])
    by (apply (empty_path_counter branches) with (fs := fs)
          (file_paths := file_paths); try reflexivity; [|exact G];
        now intros e0 (_ & _ & Hb)).
  assert (Hd : function_data e = [] /\ branch_data e = []).
  { pose proof G as G'. rewrite merge_coverage_files_all in G'.
    unfold merge_all in G'.
    pose proof (defs_inputs (parsed_inputs fs file_paths) Dict.empty EmptyString)
      as Hdefs.
    rewrite G' in Hdefs. cbn [option_map Dict.get Dict.empty orelse] in Hdefs.
    symmetry in Hdefs.
    destruct (first_defs_In _ _ _ Hdefs) as (d & e0 & Hin & G0 & E0).
    unfold parsed_inputs in Hin. apply in_map_iff in Hin.
    destruct Hin as (p & <- & _).
    rewrite (parse_result_empty_path fs p e0 G0) in E0.
    injection E0 as -> ->. split; reflexivity. }
  destruct Hd as [Hfd Hbd]. destruct e. cbn in *. now subst.
Qed.

(** X11. An [SF:] line with an empty path opens a record that nothing
    can fill: the lines that follow it are not read.  In every parse
    result, and so in every aggregate, the record of the empty path,
    when there is one, has no counts and no definition lines. *)
Theorem empty_path_record_stays_empty :
  (forall (fs : filesystem) (file_path : string) (e : entry),
     Dict.get (fst (parse_lcov_file fs file_path)) EmptyString = Some e ->
     e = empty_entry) /\
  (forall (fs : filesystem) (file_paths : list string) (e : entry),
     Dict.get (fst (merge_coverage_files fs file_paths)) EmptyString = Some e ->
     e = empty_entry).
Proof.
  split; [exact parse_result_empty_path | exact aggregate_empty_path].
Qed.

(** ** Lines without a tag *)

Lemma parse_line_untagged (st : pstate) (raw : string) :
  untagged (PyStr.strip raw) = true -> parse_line st raw = Ok st.
Proof.
  unfold untagged. rewrite !andb_true_iff, !negb_true_iff.
  intros ((((E1 & E2) & E3) & E4) & E5). unfold parse_line.
  now rewrite E1, E2, E3, E4, E5.
Qed.

(** X12. An ASCII line that starts, once stripped, with none of [SF:],
    [FN:], [FNDA:], [DA:] and [BRDA:] changes nothing wherever it
    stands, so a file gives the same result and the same messages with
    and without it.  [end_of_record] is such a line: it does not close the record,
    and the counted lines after it still go to the last source file. *)
Theorem untagged_lines_do_not_matter (raw : string) :
  PyStr.isascii raw = true ->
  untagged (PyStr.strip raw) = true ->
  (forall st, parse_line st raw = Ok st) /\
  (forall st pre post,
     parse_lines st (pre ++ raw :: post) = parse_lines st (pre ++ post)) /\
  (forall (fs fs' : filesystem) (file_path : string) (pre post : list string),
     read_lines fs file_path = Ok (pre ++ raw :: post) ->
     read_lines fs' file_path = Ok (pre ++ post) ->
     parse_lcov_file fs file_path = parse_lcov_file fs' file_path).
Proof.
  intros _ Hu.
  assert (Hskip : forall st, parse_line st raw = Ok st)
    by (intros st; now apply parse_line_untagged).
  split; [exact Hskip|]. split.
  - intros st pre post. now apply parse_lines_without.
  - intros fs fs' file_path pre post Hr Hr'. unfold parse_lcov_file.
    rewrite Hr, Hr'. cbn [bind].
    now rewrite (parse_lines_without raw pre post initial_pstate Hskip).
Qed.

(** ** How a run ends *)

Lemma lcov_text_nonempty (m : coverage) :
  Dict.is_empty m = false -> exists rest, lcov_text m = ("TN:" ++ nl)%string :: rest.
Proof.
  destruct m as [|[sf data] r]; [discriminate|]. intros _.
  unfold lcov_text. rewrite lcov_text_from. cbn [app flat_map fst snd].
  unfold block. cbn [app]. eexists. reflexivity.
Qed.

Lemma write_merged_lcov_ok (fs : filesystem) (m : coverage) (p : string) :
  (exists text, write_merged_lcov fs m p = Ok text) <->
  dirname p <> EmptyString /\ mkdirs fs (dirname p) = None /\
  open_w fs p = None /\ write_w fs p (lcov_text m) = None.
Proof.
  unfold write_merged_lcov, os_makedirs, os_open_w, os_write.
  destruct (dirname p) as [|c d] eqn:Ed.
  { cbn [bind]. split; [intros [text Ht]; discriminate | intros [Hd _]; now contradiction Hd]. }
  destruct (mkdirs fs (String c d)) as [e|]; cbn [bind].
  { split; [intros [text Ht]; discriminate | intros (_ & Hm & _); discriminate]. }
  destruct (open_w fs p) as [e|]; cbn [bind].
  { split; [intros [text Ht]; discriminate | intros (_ & _ & Ho & _); discriminate]. }
  destruct (write_w fs p (lcov_text m)) as [[e kept]|]; cbn [bind].
  { split; [intros [text Ht]; discriminate | intros (_ & _ & _ & Hw); discriminate]. }
  split; [intros _; repeat split; discriminate | intros _; now eexists].
Qed.

Lemma write_merged_lcov_text (fs : filesystem) (m : coverage) (p : string)
    (text : file) :
  write_merged_lcov fs m p = Ok text -> text = lcov_text m.
Proof.
  unfold write_merged_lcov.
  destruct (os_makedirs fs (dirname p)); [|discriminate].
  destruct (os_open_w fs p); [|discriminate].
  destruct (os_write fs p (lcov_text m)); [|discriminate].
  cbn [bind]. now intros [= <-].
Qed.

Lemma left_behind_path (fs : filesystem) (m : coverage) (p q : string)
    (text : file) :
  left_behind fs m p = Some (q, text) -> q = p /\ open_w fs p = None.
Proof.
  unfold left_behind, os_open_w.
  destruct (os_makedirs fs (dirname p)); [|discriminate].
  destruct (open_w fs p); [discriminate|].
  destruct (write_w fs p (lcov_text m)) as [[e kept]|]; intros [= <- _];
    now split.
Qed.

(** X13. How a run ends when the standard output takes what is printed.
    On a parsed command line the status is 0 or 1, and it is 0 exactly
    when the aggregate is not empty, the output path has a directory
    part, this directory is made, the file is opened and every write up
    to its close succeeds; the file then holds the serialized aggregate,
    which is never empty: it starts with a [TN:] line.  Whenever the run
    leaves a file, whole or not, it is the one named by [--output], and
    the aggregate was not empty.  The help ends with 0 and a usage error
    with 2, both without a file. *)
Theorem how_a_run_ends (float_2f : Z -> Z -> string) (fs : filesystem)
    (c : cmdline) (stdout_accepts : bool) (r : run) :
  script float_2f fs stdout_accepts c = Some r ->
  match c with
  | HelpExit => exit_status (ended r) = 0 /\ written r = None
  | UsageExit => exit_status (ended r) = 2 /\ written r = None
  | Parsed a =>
      (exit_status (ended r) = 0 \/ exit_status (ended r) = 1) /\
      (exit_status (ended r) = 0 <->
       Dict.is_empty (fst (merge_coverage_files fs (files a))) = false /\
       dirname (output a) <> EmptyString /\
       mkdirs fs (dirname (output a)) = None /\
       open_w fs (output a) = None /\
       write_w fs (output a)
         (lcov_text (fst (merge_coverage_files fs (files a)))) = None) /\
      (exit_status (ended r) = 0 ->
       written r =
         Some (output a, lcov_text (fst (merge_coverage_files fs (files a)))) /\
       exists rest,
         lcov_text (fst (merge_coverage_files fs (files a))) =
         ("TN:" ++ nl)%string :: rest) /\
      (forall p text,
         written r = Some (p, text) ->
         p = output a /\
         Dict.is_empty (fst (merge_coverage_files fs (files a))) = false /\
         open_w fs (output a) = None)
  end.
Proof.
  unfold script. destruct stdout_accepts; [|discriminate]. intros [= <-].
  destruct c as [a| |]; [|now split|now split].
  destruct (Dict.is_empty (fst (merge_coverage_files fs (files a)))) eqn:He.
  - rewrite (main_empty float_2f fs a He). cbn [written ended exit_status].
    split; [now right|]. split; [|split].
    + split; [discriminate | intros [Hf _]; discriminate].
    + discriminate.
    + discriminate.
  - destruct (write_merged_lcov fs (fst (merge_coverage_files fs (files a)))
                (output a)) as [text|e] eqn:Hw.
    + pose proof (write_merged_lcov_text _ _ _ _ Hw) as ->.
      destruct (main_written float_2f fs a _ He Hw) as (out2 & _ & ->).
      cbn [written ended exit_status]. split; [now left|]. split; [|split].
      * split; [|reflexivity]. intros _. split; [reflexivity|].
        apply write_merged_lcov_ok. eexists. exact Hw.
      * intros _. split; [reflexivity | now apply lcov_text_nonempty].
      * intros p text [= <- _]. split; [reflexivity|]. split; [reflexivity|].
        apply (write_merged_lcov_ok fs (fst (merge_coverage_files fs (files a)))
                 (output a)).
        eexists. exact Hw.
    + rewrite (main_failed float_2f fs a e He Hw).
      cbn [written ended exit_status]. split; [now right|]. split; [|split].
      * split; [discriminate|]. intros [_ Hok].
        apply write_merged_lcov_ok in Hok. destruct Hok as [text Ht].
        rewrite Ht in Hw. discriminate.
      * discriminate.
      * intros p text Hl. apply left_behind_path in Hl. destruct Hl as [-> Ho].
        repeat split; assumption.
Qed.

(** * Numbers written and read back *)

Lemma scan_digit_char (c : ascii) (v : Z) (r : string) (acc : Z) (n : nat) :
  Ascii.eqb c "_" = false -> PyStr.digit c = Some v ->
  PyStr.scan_digits (String c r) acc n false =
  PyStr.scan_digits r (10 * acc + v) (S n) false.
Proof. intros Hu Hd. cbn [PyStr.scan_digits]. now rewrite Hu, Hd. Qed.

Ltac scan_one :=
  match goal with
  | |- context [PyStr.scan_digits (String ?c ?r) ?acc ?n false] =>
      let dv := eval vm_compute in (PyStr.digit c) in
      match dv with
      | Some ?v => rewrite (scan_digit_char c v r acc n eq_refl eq_refl)
      end
  end.

Lemma scan_digits_acc (d : Decimal.uint) (acc : positive) (n : nat) :
  PyStr.scan_digits (NilEmpty.string_of_uint d) (Z.pos acc) n false =
  Some (Z.pos (Pos.of_uint_acc d acc), (n + Decimal.nb_digits d)%nat).
Proof.
  revert acc n. induction d as [|d IH|d IH|d IH|d IH|d IH|d IH|d IH|d IH|d IH|d IH];
    intros acc n;
    cbn [NilEmpty.string_of_uint Decimal.nb_digits Pos.of_uint_acc].
  1: { cbn [PyStr.scan_digits]. now rewrite Nat.add_0_r. }
  all: scan_one;
    match goal with
    | |- PyStr.scan_digits _ ?z _ _ = Some (Z.pos (Pos.of_uint_acc _ ?a), _) =>
        replace z with (Z.pos a) by lia
    end;
    rewrite IH; do 2 f_equal; lia.
Qed.

Lemma scan_digits_zero (d : Decimal.uint) (n : nat) :
  PyStr.scan_digits (NilEmpty.string_of_uint d) 0 n false =
  Some (Z.of_N (Pos.of_uint d), (n + Decimal.nb_digits d)%nat).
Proof.
  revert n. induction d as [|d IH|d IH|d IH|d IH|d IH|d IH|d IH|d IH|d IH|d IH];
    intros n; cbn [NilEmpty.string_of_uint Decimal.nb_digits Pos.of_uint].
  1: { cbn [PyStr.scan_digits Z.of_N]. now rewrite Nat.add_0_r. }
  1: { scan_one. cbn [Z.mul Z.add]. rewrite IH. do 2 f_equal. lia. }
  all: scan_one; cbn [Z.mul Z.add Z.of_N];
    rewrite scan_digits_acc; do 2 f_equal; lia.
Qed.

Lemma length_string_of_uint (d : Decimal.uint) :
  String.length (NilEmpty.string_of_uint d) = Decimal.nb_digits d.
Proof.
  induction d; cbn [NilEmpty.string_of_uint String.length Decimal.nb_digits];
    congruence.
Qed.

Lemma uint_chars (p : ascii -> bool) (d : Decimal.uint) :
  (forall c, is_numeral_char c = true -> p c = true) ->
  all_chars p (NilEmpty.string_of_uint d) = true.
Proof.
  intros Hp. induction d; cbn [NilEmpty.string_of_uint all_chars];
    [reflexivity|..]; rewrite IHd, Hp; reflexivity.
Qed.

Lemma numeral_char_cases (p : ascii -> bool) :
  p "0"%char = true -> p "1"%char = true -> p "2"%char = true ->
  p "3"%char = true -> p "4"%char = true -> p "5"%char = true ->
  p "6"%char = true -> p "7"%char = true -> p "8"%char = true ->
  p "9"%char = true -> p "-"%char = true ->
  forall c, is_numeral_char c = true -> p c = true.
Proof.
  intros H0 H1 H2 H3 H4 H5 H6 H7 H8 H9 Hm c.
  destruct c as [[] [] [] [] [] [] [] []]; intros Hc; try assumption;
    vm_compute in Hc; discriminate.
Qed.

Lemma numeral_not_space (c : ascii) :
  is_numeral_char c = true -> negb (PyStr.isspace c) = true.
Proof. revert c. apply numeral_char_cases; reflexivity. Qed.

Lemma numeral_not_int_space (c : ascii) :
  is_numeral_char c = true -> negb (PyStr.is_int_space c) = true.
Proof. revert c. apply numeral_char_cases; reflexivity. Qed.

Lemma numeral_not_comma (c : ascii) : is_numeral_char c = true -> not_comma c = true.
Proof. revert c. apply numeral_char_cases; reflexivity. Qed.

Lemma lstrip_keep (sp : ascii -> bool) (s : string) :
  all_chars (fun c => negb (sp c)) s = true -> PyStr.lstrip sp s = s.
Proof.
  destruct s as [|c r]; cbn [all_chars PyStr.lstrip]; [reflexivity|].
  intros Hc. apply andb_true_iff in Hc. destruct Hc as [Hc _].
  apply negb_true_iff in Hc. now rewrite Hc.
Qed.

Lemma rstrip_keep (sp : ascii -> bool) (s : string) :
  all_chars (fun c => negb (sp c)) s = true -> PyStr.rstrip sp s = s.
Proof.
  induction s as [|c r IH]; cbn [all_chars PyStr.rstrip]; [reflexivity|].
  intros Hc. apply andb_true_iff in Hc. destruct Hc as [Hc Hr].
  apply negb_true_iff in Hc. rewrite (IH Hr), Hc. now destruct r.
Qed.

Lemma rstrip_app_keep (sp : ascii -> bool) (x y : string) :
  y <> EmptyString -> PyStr.rstrip sp y = y ->
  PyStr.rstrip sp (x ++ y) = (x ++ y)%string.
Proof.
  intros Hy Hk. induction x as [|c x IH]; cbn [String.append PyStr.rstrip];
    [exact Hk|].
  rewrite IH. destruct (x ++ y)%string eqn:E; [|reflexivity].
  destruct x; cbn [String.append] in E; [contradiction | discriminate].
Qed.

Lemma rstrip_snoc_space (sp : ascii -> bool) (s : string) (c : ascii) :
  sp c = true -> PyStr.rstrip sp (s ++ String c EmptyString) = PyStr.rstrip sp s.
Proof.
  intros Hc. induction s as [|a s IH]; cbn [String.append PyStr.rstrip].
  - now rewrite Hc.
  - now rewrite IH.
Qed.

(** The line end of a line does not count. *)
Lemma strip_with_nl (s : string) : PyStr.strip (s ++ nl) = PyStr.strip s.
Proof.
  unfold PyStr.strip. induction s as [|c r IH]; cbn [String.append PyStr.lstrip].
  - reflexivity.
  - destruct (PyStr.isspace c); [exact IH|].
    change (String c (r ++ nl)) with (String c r ++ nl)%string.
    now apply rstrip_snoc_space.
Qed.

Lemma split_comma_free (s : string) :
  all_chars not_comma s = true -> PyStr.split_comma s = [s].
Proof.
  induction s as [|c r IH]; cbn [all_chars PyStr.split_comma]; [reflexivity|].
  intros Hc. apply andb_true_iff in Hc. destruct Hc as [Hc Hr].
  apply negb_true_iff in Hc. now rewrite Hc, (IH Hr).
Qed.

Lemma split_comma_app (x y : string) :
  all_chars not_comma x = true ->
  PyStr.split_comma (x ++ String "," y) = x :: PyStr.split_comma y.
Proof.
  induction x as [|c r IH]; cbn [all_chars String.append PyStr.split_comma].
  - reflexivity.
  - intros Hc. apply andb_true_iff in Hc. destruct Hc as [Hc Hr].
    apply negb_true_iff in Hc. now rewrite Hc, (IH Hr).
Qed.

Lemma split_comma_1_app (x y : string) :
  all_chars not_comma x = true ->
  PyStr.split_comma_1 (x ++ String "," y) = [x; y].
Proof.
  induction x as [|c r IH]; cbn [all_chars String.append PyStr.split_comma_1].
  - reflexivity.
  - intros Hc. apply andb_true_iff in Hc. destruct Hc as [Hc Hr].
    apply negb_true_iff in Hc. now rewrite Hc, (IH Hr).
Qed.

Lemma str_chars (p : ascii -> bool) (z : Z) :
  (forall c, is_numeral_char c = true -> p c = true) ->
  all_chars p (PyStr.str z) = true.
Proof.
  intros Hp. unfold PyStr.str.
  destruct z as [|q|q]; cbn [Z.to_int NilZero.string_of_int].
  - cbn. now rewrite Hp.
  - unfold NilZero.string_of_uint.
    destruct (Pos.to_uint q); try (apply uint_chars; exact Hp).
    cbn. now rewrite Hp.
  - cbn [all_chars]. rewrite Hp by reflexivity. cbn [andb].
    unfold NilZero.string_of_uint.
    destruct (Pos.to_uint q); try (apply uint_chars; exact Hp).
    cbn. now rewrite Hp.
Qed.

Lemma str_nonempty (z : Z) : PyStr.str z <> EmptyString.
Proof.
  unfold PyStr.str. destruct z as [|q|q]; cbn [Z.to_int NilZero.string_of_int];
    try discriminate.
  unfold NilZero.string_of_uint. destruct (Pos.to_uint q); discriminate.
Qed.

Lemma all_chars_app (p : ascii -> bool) (x y : string) :
  all_chars p (x ++ y) = all_chars p x && all_chars p y.
Proof.
  induction x as [|c r IH]; cbn [String.append all_chars]; [reflexivity|].
  now rewrite IH, andb_assoc.
Qed.

Lemma nilzero_nonnil (d : Decimal.uint) :
  d <> Decimal.Nil -> NilZero.string_of_uint d = NilEmpty.string_of_uint d.
Proof. destruct d; [contradiction | reflexivity..]. Qed.

Lemma int_of_uint (d : Decimal.uint) :
  d <> Decimal.Nil -> (Decimal.nb_digits d <= PyStr.int_max_str_digits)%nat ->
  PyStr.int (NilEmpty.string_of_uint d) = Ok (Z.of_N (Pos.of_uint d)).
Proof.
  intros Hd Hn. unfold PyStr.int.
  rewrite lstrip_keep by (apply uint_chars; exact numeral_not_int_space).
  rewrite rstrip_keep by (apply uint_chars; exact numeral_not_int_space).
  pose proof (scan_digits_zero d 0) as Hs. cbn [Nat.add] in Hs.
  apply Nat.leb_le in Hn.
  destruct d; [contradiction|..]; cbn [NilEmpty.string_of_uint] in *;
    cbv beta iota; cbn [Ascii.eqb Bool.eqb]; cbv beta iota;
    rewrite Hs, Hn; reflexivity.
Qed.

Lemma int_of_minus_uint (d : Decimal.uint) :
  d <> Decimal.Nil -> (Decimal.nb_digits d <= PyStr.int_max_str_digits)%nat ->
  PyStr.int (String "-" (NilEmpty.string_of_uint d)) =
  Ok (- Z.of_N (Pos.of_uint d)).
Proof.
  intros Hd Hn. unfold PyStr.int.
  assert (Hc : all_chars (fun c => negb (PyStr.is_int_space c))
                 (String "-" (NilEmpty.string_of_uint d)) = true).
  { cbn [all_chars]. rewrite uint_chars by exact numeral_not_int_space.
    reflexivity. }
  rewrite (lstrip_keep _ _ Hc), (rstrip_keep _ _ Hc).
  pose proof (scan_digits_zero d 0) as Hs. cbn [Nat.add] in Hs.
  apply Nat.leb_le in Hn. cbv beta iota.
  destruct d; [contradiction|..]; cbn [NilEmpty.string_of_uint] in *;
    cbv beta iota; cbn [Ascii.eqb Bool.eqb]; cbv beta iota;
    rewrite Hs, Hn; reflexivity.
Qed.

(** What [str] writes for an integer of at most 4300 digits, [int]
    reads back as that integer. *)
Lemma int_str (z : Z) : capped z -> PyStr.int (PyStr.str z) = Ok z.
Proof.
  unfold capped, PyStr.str.
  destruct z as [|q|q]; cbn [Z.abs Z.to_int NilZero.string_of_int].
  - intros _. vm_compute. reflexivity.
  - rewrite (nilzero_nonnil _ (DecimalPos.Unsigned.to_uint_nonnil q)).
    rewrite length_string_of_uint. intros Hn.
    rewrite (int_of_uint _ (DecimalPos.Unsigned.to_uint_nonnil q) Hn).
    now rewrite DecimalPos.Unsigned.of_to.
  - rewrite (nilzero_nonnil _ (DecimalPos.Unsigned.to_uint_nonnil q)).
    rewrite length_string_of_uint. intros Hn.
    rewrite (int_of_minus_uint _ (DecimalPos.Unsigned.to_uint_nonnil q) Hn).
    now rewrite DecimalPos.Unsigned.of_to.
Qed.

Lemma append_assoc_s (a b c : string) :
  ((a ++ b) ++ c = a ++ (b ++ c))%string.
Proof.
  induction a as [|x a IH]; cbn [String.append]; [reflexivity | now rewrite IH].
Qed.

Lemma append_empty_r (a : string) : (a ++ EmptyString)%string = a.
Proof.
  induction a as [|x a IH]; cbn [String.append]; [reflexivity | now rewrite IH].
Qed.

Lemma rstrip_str (z : Z) : PyStr.rstrip PyStr.isspace (PyStr.str z) = PyStr.str z.
Proof. apply rstrip_keep, str_chars. exact numeral_not_space. Qed.

(** A written line that starts with a visible character and ends with
    [y] and the line end strips to itself without the line end. *)
Lemma strip_written (c0 : ascii) (x y : string) :
  PyStr.isspace c0 = false -> y <> EmptyString ->
  PyStr.rstrip PyStr.isspace y = y ->
  PyStr.strip (String c0 x ++ y ++ nl) = (String c0 x ++ y)%string.
Proof.
  intros Hc Hy Hk. rewrite <- append_assoc_s, strip_with_nl. unfold PyStr.strip.
  cbn [String.append PyStr.lstrip]. rewrite Hc.
  change (String c0 (x ++ y)) with (String c0 x ++ y)%string.
  now apply rstrip_app_keep.
Qed.

Lemma da_line_stripped (n c : Z) :
  PyStr.strip (da_line (n, c)) =
  (("DA:" ++ PyStr.str n) ++ String "," (PyStr.str c))%string.
Proof.
  unfold da_line. cbn [fst snd].
  replace ("DA:" ++ PyStr.str n ++ "," ++ PyStr.str c ++ nl)%string
    with (String "D" ("A:" ++ PyStr.str n ++ ",") ++ PyStr.str c ++ nl)%string
    by (cbn [String.append]; now rewrite ?append_assoc_s).
  rewrite strip_written; [|reflexivity | apply str_nonempty | apply rstrip_str].
  cbn [String.append]. now rewrite ?append_assoc_s.
Qed.

Lemma fnda_line_stripped (name : string) (c : Z) :
  PyStr.rstrip PyStr.isspace name = name ->
  PyStr.strip (fnda_line (name, c)) =
  (("FNDA:" ++ PyStr.str c) ++ String "," name)%string.
Proof.
  intros Hname. unfold fnda_line. cbn [fst snd].
  destruct name as [|a name'].
  - replace ("FNDA:" ++ PyStr.str c ++ "," ++ "" ++ nl)%string
      with (String "F" ("NDA:" ++ PyStr.str c) ++ "," ++ nl)%string
      by (cbn [String.append]; now rewrite ?append_assoc_s).
    rewrite strip_written; [|reflexivity | discriminate | reflexivity].
    reflexivity.
  - replace ("FNDA:" ++ PyStr.str c ++ "," ++ String a name' ++ nl)%string
      with (String "F" ("NDA:" ++ PyStr.str c ++ ",") ++ String a name' ++ nl)%string
      by (cbn [String.append]; now rewrite ?append_assoc_s).
    rewrite strip_written; [|reflexivity | discriminate | exact Hname].
    cbn [String.append]. now rewrite ?append_assoc_s.
Qed.

Lemma tag_and_number_no_comma (tag : string) (z : Z) :
  all_chars not_comma tag = true ->
  all_chars not_comma (tag ++ PyStr.str z) = true.
Proof.
  intros Ht. rewrite all_chars_app, Ht. apply str_chars. exact numeral_not_comma.
Qed.

(** X14. A [DA] line as the serializer writes it is read back, inside a
    record, as the line number and the count it was written from: the
    parser max-merges exactly that pair into the line counter.  The two
    numbers must not have more digits than [int()] accepts. *)
Theorem da_line_reads_back (st : pstate) (e : entry) (line_num count : Z) :
  PyStr.truthy (current_file st) = true ->
  Dict.get (coverage_data st) (file_of st) = Some e ->
  capped line_num -> capped count ->
  parse_line st (da_line (line_num, count)) =
  Ok (put_current st (with_lines e (max_into (lines e) line_num count))).
Proof.
  intros Ht G Hn Hc.
  assert (Hs : PyStr.strip (da_line (line_num, count)) =
               (("DA:" ++ PyStr.str line_num) ++ String "," (PyStr.str count))%string)
    by apply da_line_stripped.
  rewrite parse_line_DA; [|now rewrite Hs | exact Ht].
  rewrite Hs, split_comma_app by (now apply tag_and_number_no_comma).
  rewrite split_comma_free by (apply str_chars; exact numeral_not_comma).
  cbn [String.append PyStr.slice_from].
  rewrite (int_str _ Hn). cbn [bind]. rewrite (int_str _ Hc). cbn [bind].
  now rewrite (at_file_get _ _ _ e G).
Qed.

(** X15. An [FNDA] line as the serializer writes it is read back, inside
    a record, as the function name and the count it was written from,
    commas in the name included.  The name must be plain (ASCII, and
    without a line end in it: the chunk written is then one line of the
    file) and not end in white space, and the count must not have more
    digits than [int()] accepts. *)
Theorem fnda_line_reads_back (st : pstate) (e : entry) (name : string) (count : Z) :
  PyStr.truthy (current_file st) = true ->
  Dict.get (coverage_data st) (file_of st) = Some e ->
  plain name ->
  PyStr.rstrip PyStr.isspace name = name -> capped count ->
  parse_line st (fnda_line (name, count)) =
  Ok (put_current st (with_functions e (max_into (functions e) name count))).
Proof.
  intros Ht G _ Hname Hc.
  pose proof (fnda_line_stripped name count Hname) as Hs.
  rewrite parse_line_FNDA; [|now rewrite Hs | exact Ht].
  rewrite Hs, split_comma_1_app by (now apply tag_and_number_no_comma).
  cbn [String.append PyStr.slice_from].
  rewrite (int_str _ Hc). cbn [bind].
  now rewrite (at_file_get _ _ _ e G).
Qed.

(** ** The further properties at concrete inputs *)

Lemma more_inputs_never_lower_witness :
  Dict.contains (merge_all ([parsed_A] ++ [parsed_B])) "x.c" = true /\
  exists v', merged_count lines (merge_all ([parsed_A] ++ [parsed_B])) "x.c" 1 =
             Some v' /\ 5 <= v'.
Proof.
  destruct (more_inputs_never_lower [parsed_A] [parsed_B] "x.c")
    as (Hc & _ & Hl & _).
  split; [apply Hc; reflexivity | apply Hl; reflexivity].
Defined.

Lemma repeated_input_changes_nothing_witness :
  fst (merge_coverage_files scenario_fs (["a.info"; "b.info"] ++ "a.info" :: [])) =
  fst (merge_coverage_files scenario_fs (["a.info"; "b.info"] ++ [])) /\
  lcov_text (fst (merge_coverage_files scenario_fs
                    (["a.info"; "b.info"] ++ "a.info" :: []))) =
  lcov_text (fst (merge_coverage_files scenario_fs (["a.info"; "b.info"] ++ []))).
Proof.
  apply (repeated_input_changes_nothing scenario_fs ["a.info"; "b.info"] []
           "a.info").
  now left.
Defined.

Lemma aggregate_files_in_first_seen_order_witness :
  In "x.c" (Dict.keys (fst (merge_coverage_files scenario_fs ["a.info"; "b.info"]))).
Proof.
  apply (proj2 (proj2 (aggregate_files_in_first_seen_order scenario_fs
                         ["a.info"; "b.info"]))).
  exists parsed_A. split; [now left | reflexivity].
Defined.


Lemma merge_prints_per_path_witness :
  messages_of broken_fs "a.info" = [Printed "Processing: a.info"] /\
  messages_of broken_fs "b.info" =
  [Printed "Processing: b.info";
   PrintedErrorParsing "b.info" (OSError "[Errno 5] Input/output error")] /\
  messages_of scenario_fs "c.info" = [Printed "Warning: File not found: c.info"].
Proof.
  destruct (merge_prints_per_path broken_fs []) as (_ & _ & Hok & Hbad).
  destruct (merge_prints_per_path scenario_fs []) as (_ & Hmiss & _).
  split; [|split].
  - exact (Hok "a.info" scenario_A
             {| coverage_data := parsed_A; current_file := Some "x.c" |}
             eq_refl eq_refl eq_refl).
  - exact (Hbad "b.info" _ eq_refl eq_refl).
  - exact (Hmiss "c.info" eq_refl).
Defined.

Lemma missing_input_is_skipped_witness :
  fst (merge_coverage_files scenario_fs (["a.info"] ++ "c.info" :: ["b.info"])) =
  fst (merge_coverage_files scenario_fs (["a.info"] ++ ["b.info"])) /\
  written (main (fun _ _ => EmptyString) scenario_fs
             {| files := ["a.info"] ++ "c.info" :: ["b.info"];
                output := "out/m.info" |}) =
  written (main (fun _ _ => EmptyString) scenario_fs
             {| files := ["a.info"] ++ ["b.info"]; output := "out/m.info" |}) /\
  ended (main (fun _ _ => EmptyString) scenario_fs
           {| files := ["a.info"] ++ "c.info" :: ["b.info"];
              output := "out/m.info" |}) =
  ended (main (fun _ _ => EmptyString) scenario_fs
           {| files := ["a.info"] ++ ["b.info"]; output := "out/m.info" |}).
Proof.
  exact (missing_input_is_skipped (fun _ _ => EmptyString) scenario_fs ["a.info"]
           ["b.info"] "c.info" "out/m.info" eq_refl).
Defined.

Lemma unreadable_input_is_skipped_witness :
  parse_lcov_file broken_fs "b.info" =
  (Dict.empty,
   [PrintedErrorParsing "b.info" (OSError "[Errno 5] Input/output error")]) /\
  fst (merge_coverage_files broken_fs (["a.info"] ++ "b.info" :: [])) =
  fst (merge_coverage_files broken_fs (["a.info"] ++ [])).
Proof.
  destruct (unreadable_input_is_skipped (fun _ _ => EmptyString) broken_fs
              ["a.info"] [] "b.info" "out/m.info"
              (OSError "[Errno 5] Input/output error") eq_refl)
    as (Hp & Hm & _).
  split; [exact Hp | exact Hm].
Defined.

Lemma parser_raises_only_value_errors_witness :
  snd (parse_lcov_file bad_count_fs "a.info") = [] \/
  exists s, parse_lcov_file bad_count_fs "a.info" =
            (Dict.empty, [PrintedErrorParsing "a.info" (ValueError s)]).
Proof.
  exact (proj2 (parser_raises_only_value_errors bad_count_fs "a.info"
                  ["SF:a.c"; "DA:1,5"; "DA:1,abc"; "DA:2,2"] eq_refl)).
Defined.

Lemma lines_before_first_record_are_dropped_witness :
  parse_lines initial_pstate (["TN:suite"; "DA:9,9"; "FNDA:x,f"] ++ ["SF:a.c"; "DA:1,5"]) =
  parse_lines initial_pstate ["SF:a.c"; "DA:1,5"].
Proof.
  apply (lines_before_first_record_are_dropped scenario_fs scenario_fs "a.info"
           ["TN:suite"; "DA:9,9"; "FNDA:x,f"] ["SF:a.c"; "DA:1,5"]);
    [reflexivity | repeat constructor].
Defined.

Lemma empty_path_record_stays_empty_witness :
  Dict.get (fst (parse_lcov_file (fs_of [("a.info", odd_lines)]) "a.info"))
    EmptyString = Some empty_entry /\
  Dict.get (fst (merge_coverage_files (fs_of [("a.info", odd_lines)]) ["a.info"]))
    EmptyString = Some empty_entry.
Proof.
  destruct empty_path_record_stays_empty as [Hp Hm].
  split.
  - destruct (Dict.get (fst (parse_lcov_file (fs_of [("a.info", odd_lines)])
                               "a.info")) EmptyString) as [e|] eqn:G;
      [|discriminate G].
    now rewrite (Hp _ _ e G).
  - destruct (Dict.get (fst (merge_coverage_files (fs_of [("a.info", odd_lines)])
                               ["a.info"])) EmptyString) as [e|] eqn:G;
      [|discriminate G].
    now rewrite (Hm _ _ e G).
Defined.

Lemma untagged_lines_do_not_matter_witness :
  untagged (PyStr.strip "end_of_record") = true /\
  parse_lines initial_pstate (["SF:a.c"; "DA:1,5"] ++ "end_of_record" :: ["DA:2,3"]) =
  parse_lines initial_pstate (["SF:a.c"; "DA:1,5"] ++ ["DA:2,3"]).
Proof.
  split; [reflexivity|].
  exact (proj1 (proj2 (untagged_lines_do_not_matter "end_of_record" eq_refl
                         eq_refl))
           initial_pstate ["SF:a.c"; "DA:1,5"] ["DA:2,3"]).
Defined.

Lemma how_a_run_ends_witness :
  exit_status (ended (main (fun _ _ => EmptyString) scenario_fs
                        {| files := ["a.info"]; output := "out/m.info" |})) = 0 /\
  written (main (fun _ _ => EmptyString) full_fs
             {| files := ["a.info"]; output := "out/m.info" |}) =
    Some ("out/m.info", []) /\
  exit_status (ended (main (fun _ _ => EmptyString) full_fs
                        {| files := ["a.info"]; output := "out/m.info" |})) = 1 /\
  exit_status (ended (main (fun _ _ => EmptyString) scenario_fs UsageExit)) = 2.
Proof.
  pose proof (how_a_run_ends (fun _ _ => EmptyString) scenario_fs
                (Parsed {| files := ["a.info"]; output := "out/m.info" |}) true
                _ eq_refl) as (_ & Hok & _).
  pose proof (how_a_run_ends (fun _ _ => EmptyString) full_fs
                (Parsed {| files := ["a.info"]; output := "out/m.info" |}) true
                _ eq_refl) as ([H0|H1] & Hfull & _).
  - exfalso. apply Hfull in H0. destruct H0 as (_ & _ & _ & _ & Hw).
    discriminate Hw.
  - split; [|split; [reflexivity|split; [exact H1|]]].
    + apply Hok. repeat split; try reflexivity. vm_compute. discriminate.
    + exact (proj1 (how_a_run_ends (fun _ _ => EmptyString) scenario_fs UsageExit
                      true _ eq_refl)).
Defined.

Lemma capped_small (z : Z) :
  (String.length (PyStr.str (Z.abs z)) <=? PyStr.int_max_str_digits)%nat = true ->
  capped z.
Proof. apply Nat.leb_le. Qed.

Lemma da_line_reads_back_witness :
  parse_line in_a_c (da_line (12, 340)) =
  Ok (put_current in_a_c (with_lines empty_entry (max_into (lines empty_entry) 12 340))).
Proof.
  apply (da_line_reads_back in_a_c empty_entry 12 340); try reflexivity;
    apply capped_small; vm_compute; reflexivity.
Defined.

Lemma fnda_line_reads_back_witness :
  parse_line in_a_c (fnda_line ("ns::f(int, int)", 7)) =
  Ok (put_current in_a_c
        (with_functions empty_entry
           (max_into (functions empty_entry) "ns::f(int, int)" 7))).
Proof.
  apply (fnda_line_reads_back in_a_c empty_entry "ns::f(int, int)" 7);
    try reflexivity.
  apply capped_small. vm_compute. reflexivity.
Defined.

(** * The written text read back *)

Lemma put_current_same (st : pstate) (e : entry) :
  Dict.get (coverage_data st) (file_of st) = Some e -> put_current st e = st.
Proof.
  intros G. unfold put_current. rewrite (set_same _ _ _ G). now destruct st.
Qed.

Lemma put_current_twice (st : pstate) (e1 e2 : entry) :
  put_current (put_current st e1) e2 = put_current st e2.
Proof.
  unfold put_current, file_of. cbn [coverage_data current_file].
  now rewrite set_set.
Qed.

Lemma put_current_get (st : pstate) (e : entry) :
  Dict.get (coverage_data (put_current st e)) (file_of (put_current st e)) = Some e.
Proof. unfold put_current, file_of. cbn [coverage_data current_file]. apply get_set_same. Qed.

Lemma acts_nil : acts [] (fun e => e).
Proof. intros st e Ht G. cbn [parse_lines]. now rewrite put_current_same. Qed.

Lemma acts_app (l1 l2 : list string) (f1 f2 : entry -> entry) :
  acts l1 f1 -> acts l2 f2 -> acts (l1 ++ l2) (fun e => f2 (f1 e)).
Proof.
  intros H1 H2 st e Ht G. rewrite parse_lines_app, (H1 st e Ht G). cbn [bind].
  rewrite (H2 (put_current st (f1 e)) (f1 e)); [apply f_equal, put_current_twice | exact Ht | apply put_current_get].
Qed.

Lemma acts_one (raw : string) (f : entry -> entry) :
  (forall st e, PyStr.truthy (current_file st) = true ->
                Dict.get (coverage_data st) (file_of st) = Some e ->
                parse_line st raw = Ok (put_current st (f e))) ->
  acts [raw] f.
Proof.
  intros H st e Ht G. cbn [parse_lines]. now rewrite (H st e Ht G).
Qed.

Lemma acts_ext (ls : list string) (f g : entry -> entry) :
  (forall e, f e = g e) -> acts ls f -> acts ls g.
Proof. intros Hfg Hf st e Ht G. rewrite <- Hfg. now apply Hf. Qed.

Lemma acts_map {A : Type} (g : A -> string) (f : A -> entry -> entry) (xs : list A) :
  (forall x, In x xs -> acts [g x] (f x)) ->
  acts (map g xs) (fun e => fold_left (fun e x => f x e) xs e).
Proof.
  induction xs as [|x r IH]; intros Hx; cbn [map fold_left]; [apply acts_nil|].
  change (g x :: map g r) with ([g x] ++ map g r).
  apply (acts_app [g x] (map g r) (f x)
           (fun e => fold_left (fun e x => f x e) r e)).
  - apply Hx. now left.
  - apply IH. intros y Hy. apply Hx. now right.
Qed.

Lemma acts_untagged (raw : string) :
  untagged (PyStr.strip raw) = true -> acts [raw] (fun e => e).
Proof.
  intros Hu. apply acts_one. intros st e Ht G.
  now rewrite (parse_line_untagged st raw Hu), put_current_same.
Qed.

Lemma strip_stripped_nl (l : string) :
  PyStr.strip l = l -> PyStr.strip (with_nl l) = l.
Proof. intros Hs. unfold with_nl. now rewrite strip_with_nl. Qed.

Lemma fn_line_acts (l : string) :
  PyStr.strip l = l -> PyStr.startswith l "FN:" = true ->
  acts [with_nl l] (append_function_data l).
Proof.
  intros Hs Hfn. apply acts_one. intros st e Ht G.
  unfold parse_line. rewrite (strip_stripped_nl l Hs).
  assert (Hsf : PyStr.startswith l "SF:" = false).
  { destruct (startswith_app _ _ Hfn) as [r ->]. reflexivity. }
  rewrite Hsf, Hfn, Ht. cbn [andb]. now rewrite (at_file_get _ _ _ e G).
Qed.

Lemma with_branches_same (e : entry) : with_branches e (branches e) = e.
Proof. now destruct e. Qed.

Lemma brda_line_acts (l : string) :
  PyStr.strip l = l -> PyStr.startswith l "BRDA:" = true ->
  brda_reads l = true ->
  acts [with_nl l]
       (fun e => with_branches (append_branch_data l e)
                               (brda_count_step (branches e) l)).
Proof.
  intros Hs Hb Hr. apply acts_one. intros st e Ht G.
  rewrite parse_line_BRDA;
    [|now rewrite (strip_stripped_nl l Hs) | exact Ht].
  rewrite (strip_stripped_nl l Hs).
  rewrite (at_file_get _ _ _ e G). cbn [bind].
  unfold brda_reads in Hr. unfold brda_count_step.
  assert (Hplain :
    Ok {| coverage_data :=
            Dict.set (coverage_data st) (file_of st) (append_branch_data l e);
          current_file := current_file st |} =
    Ok (put_current st (with_branches (append_branch_data l e) (branches e)))).
  { change (branches e) with (branches (append_branch_data l e)).
    now rewrite with_branches_same. }
  destruct (PyStr.split_comma l) as [|p0 [|p1 [|p2 [|p3 [|p4 r]]]]];
    try exact Hplain.
  destruct (branch_count p3) as [c|x]; [|discriminate]. cbn [bind].
  rewrite (at_file_get _ _ _ (append_branch_data l e)) by apply get_set_same.
  now rewrite set_set.
Qed.

Lemma da_line_acts (line_num count : Z) :
  capped line_num -> capped count ->
  acts [da_line (line_num, count)]
       (fun e => with_lines e (max_into (lines e) line_num count)).
Proof.
  intros Hn Hc. apply acts_one. intros st e Ht G.
  pose proof (da_line_stripped line_num count) as Hs.
  rewrite parse_line_DA; [|now rewrite Hs | exact Ht].
  rewrite Hs, split_comma_app by (now apply tag_and_number_no_comma).
  rewrite split_comma_free by (apply str_chars; exact numeral_not_comma).
  cbn [String.append PyStr.slice_from].
  rewrite (int_str _ Hn). cbn [bind]. rewrite (int_str _ Hc). cbn [bind].
  now rewrite (at_file_get _ _ _ e G).
Qed.

Lemma fnda_line_acts (name : string) (count : Z) :
  rstripped name -> capped count ->
  acts [fnda_line (name, count)]
       (fun e => with_functions e (max_into (functions e) name count)).
Proof.
  intros Hname Hc. apply acts_one. intros st e Ht G.
  pose proof (fnda_line_stripped name count Hname) as Hs.
  rewrite parse_line_FNDA; [|now rewrite Hs | exact Ht].
  rewrite Hs, split_comma_1_app by (now apply tag_and_number_no_comma).
  cbn [String.append PyStr.slice_from].
  rewrite (int_str _ Hc). cbn [bind].
  now rewrite (at_file_get _ _ _ e G).
Qed.

(** A summary line: a tag without any of the five prefixes, a number,
    the line end. *)
Lemma summary_line_acts (c0 : ascii) (tag : string) (z : Z) :
  PyStr.isspace c0 = false ->
  (forall r, untagged (String c0 tag ++ r) = true) ->
  acts [(String c0 tag ++ PyStr.str z ++ nl)%string] (fun e => e).
Proof.
  intros Hc Hu. apply acts_untagged.
  rewrite strip_written; [apply Hu | exact Hc | apply str_nonempty | apply rstrip_str].
Qed.

Lemma fold_function_data (ls : list string) (e : entry) :
  fold_left (fun e l => append_function_data l e) ls e =
  {| functions := functions e; lines := lines e; branches := branches e;
     function_data := function_data e ++ ls; branch_data := branch_data e |}.
Proof.
  revert e. induction ls as [|l r IH]; intros e; cbn [fold_left].
  - rewrite app_nil_r. now destruct e.
  - rewrite IH. unfold append_function_data.
    cbn [functions lines branches function_data branch_data].
    now rewrite <- app_assoc.
Qed.

Lemma fold_branch_data (ls : list string) (e : entry) :
  fold_left (fun e l => with_branches (append_branch_data l e)
                                      (brda_count_step (branches e) l)) ls e =
  {| functions := functions e; lines := lines e;
     branches := fold_left brda_count_step ls (branches e);
     function_data := function_data e; branch_data := branch_data e ++ ls |}.
Proof.
  revert e. induction ls as [|l r IH]; intros e; cbn [fold_left].
  - rewrite app_nil_r. now destruct e.
  - rewrite IH. unfold with_branches, append_branch_data.
    cbn [functions lines branches function_data branch_data].
    now rewrite <- app_assoc.
Qed.

Lemma fold_functions (d : Dict.t string Z) (e : entry) :
  fold_left (fun e kc => with_functions e (max_into (functions e) (fst kc) (snd kc)))
            d e =
  with_functions e (merge_counts (functions e) d).
Proof.
  unfold merge_counts, Dict.items. revert e.
  induction d as [|kc r IH]; intros e; cbn [fold_left].
  - now destruct e.
  - now rewrite IH.
Qed.

Lemma fold_lines (d : Dict.t Z Z) (e : entry) :
  fold_left (fun e kc => with_lines e (max_into (lines e) (fst kc) (snd kc)))
            d e =
  with_lines e (merge_counts (lines e) d).
Proof.
  unfold merge_counts, Dict.items. revert e.
  induction d as [|kc r IH]; intros e; cbn [fold_left].
  - now destruct e.
  - now rewrite IH.
Qed.

(** Merging a well-formed counter into one that has none of its keys
    appends it. *)
Lemma merge_counts_fresh {K : Type} `{EqKey K} (agg d : Dict.t K Z) :
  (forall k, In k (Dict.keys d) -> Dict.get agg k = None) ->
  counter_ok d -> merge_counts agg d = agg ++ d.
Proof.
  unfold merge_counts, Dict.items, counter_ok, Dict.keys, Dict.values. revert agg.
  induction d as [|[k c] r IH]; intros agg Hfresh [Hnd Hpos];
    cbn [fold_left map fst snd] in *; [now rewrite app_nil_r|].
  inversion Hnd as [|? ? Hk Hnd']; subst. inversion Hpos as [|? ? Hc Hpos']; subst.
  assert (G : Dict.get agg k = None) by (apply Hfresh; now left).
  assert (E : max_into agg k c = agg ++ [(k, c)]).
  { unfold max_into, Dict.get_default. rewrite G.
    replace (Z.max 0 c) with c by lia. now apply set_absent. }
  rewrite IH; [rewrite E; now rewrite <- app_assoc | | now split].
  intros k' Hk'. unfold max_into. rewrite get_set_other.
  - apply Hfresh. now right.
  - intros ->. now apply Hk.
Qed.

Lemma untagged_lines_act (ls : list string) :
  Forall (fun l => untagged (PyStr.strip l) = true) ls ->
  forall st, parse_lines st ls = Ok st.
Proof.
  induction 1 as [|l r Hl _ IH]; intros st; cbn [parse_lines]; [reflexivity|].
  rewrite (parse_line_untagged st l Hl). cbn [bind]. apply IH.
Qed.

Lemma record_body_acts (data : entry) :
  rereadable_entry data ->
  acts (record_body data)
       (fun e =>
          fold_left (fun e kc => with_lines e (max_into (lines e) (fst kc) (snd kc)))
            (sorted (lines data))
            (fold_left (fun e l => with_branches (append_branch_data l e)
                                     (brda_count_step (branches e) l))
               (dedup (branch_data data))
               (fold_left (fun e kc => with_functions e
                                         (max_into (functions e) (fst kc) (snd kc)))
                  (functions data)
                  (fold_left (fun e l => append_function_data l e)
                     (dedup (function_data data)) e)))).
Proof.
  intros (_ & Hf & Hl & Hfd & Hbd). unfold record_body.
  rewrite Forall_forall in Hf, Hl, Hfd, Hbd.
  apply (acts_app _ _ _ (fun e1 => fold_left _ _ (fold_left _ _ (fold_left _ _ e1)))).
  { apply (acts_map with_nl (fun l e => append_function_data l e)).
    intros l Hin. apply dedup_from_In in Hin.
    destruct (Hfd l) as [Hs Ht]; [tauto|]. now apply fn_line_acts. }
  apply (acts_app _ _ _ (fun e1 => fold_left _ _ (fold_left _ _ e1))).
  { apply (acts_map fnda_line
             (fun kc e => with_functions e (max_into (functions e) (fst kc) (snd kc)))).
    intros [name c] Hin. destruct (Hf _ Hin) as [Hn Hc]. now apply fnda_line_acts. }
  apply (acts_app [_; _] _ (fun e => e) (fun e1 => fold_left _ _ (fold_left _ _ e1))).
  { apply (acts_app [_] [_] (fun e => e) (fun e => e));
      apply summary_line_acts; reflexivity. }
  apply (acts_app _ _ _ (fun e1 => fold_left _ _ e1)).
  { apply (acts_map with_nl
             (fun l e => with_branches (append_branch_data l e)
                                       (brda_count_step (branches e) l))).
    intros l Hin. apply dedup_from_In in Hin.
    destruct (Hbd l) as (Hs & Ht & Hr); [tauto|]. now apply brda_line_acts. }
  apply (acts_app [_; _] _ (fun e => e) (fun e1 => fold_left _ _ e1)).
  { apply (acts_app [_] [_] (fun e => e) (fun e => e));
      apply summary_line_acts; reflexivity. }
  apply (acts_app _ [_; _; _] _ (fun e => e)).
  { apply (acts_map da_line
             (fun kc e => with_lines e (max_into (lines e) (fst kc) (snd kc)))).
    intros [n c] Hin.
    destruct (Hl (n, c)) as [Hn Hc];
      [apply (Permutation_in _ (sorted_perm _) Hin)|]. now apply da_line_acts. }
  apply (acts_app [_; _] [_] (fun e => e) (fun e => e)).
  { apply (acts_app [_] [_] (fun e => e) (fun e => e));
      apply summary_line_acts; reflexivity. }
  apply acts_untagged. reflexivity.
Qed.

Lemma sorted_counter_ok (d : Dict.t Z Z) : counter_ok d -> counter_ok (sorted d).
Proof.
  unfold counter_ok, Dict.keys, Dict.values. intros [Hnd Hpos].
  pose proof (Permutation_sym (sorted_perm d)) as Hp. split.
  - apply (Permutation_NoDup (Permutation_map fst Hp) Hnd).
  - apply (Permutation_Forall (Permutation_map snd Hp) Hpos).
Qed.

Lemma record_body_result (data : entry) :
  entry_ok data ->
  fold_left (fun e kc => with_lines e (max_into (lines e) (fst kc) (snd kc)))
    (sorted (lines data))
    (fold_left (fun e l => with_branches (append_branch_data l e)
                             (brda_count_step (branches e) l))
       (dedup (branch_data data))
       (fold_left (fun e kc => with_functions e
                                 (max_into (functions e) (fst kc) (snd kc)))
          (functions data)
          (fold_left (fun e l => append_function_data l e)
             (dedup (function_data data)) empty_entry))) =
  reread data.
Proof.
  intros (Hf & Hl & _).
  rewrite fold_function_data, fold_functions, fold_branch_data, fold_lines.
  unfold with_lines, with_functions, reread, empty_entry.
  cbn [functions lines branches function_data branch_data app].
  rewrite (merge_counts_fresh [] (functions data)), (merge_counts_fresh [] (sorted (lines data)));
    [reflexivity | reflexivity | now apply sorted_counter_ok | reflexivity | exact Hf].
Qed.

Lemma source_line_stripped (sf : string) :
  rstripped sf -> PyStr.strip ("SF:" ++ sf ++ nl) = ("SF:" ++ sf)%string.
Proof.
  intros Hs. destruct sf as [|a r].
  - reflexivity.
  - exact (strip_written "S" "F:" (String a r) eq_refl ltac:(discriminate) Hs).
Qed.

Lemma put_current_fresh (cd : coverage) (sf : string) (e e' : entry) :
  Dict.get cd sf = None ->
  put_current {| coverage_data := Dict.set cd sf e; current_file := Some sf |} e' =
  {| coverage_data := cd ++ [(sf, e')]; current_file := Some sf |}.
Proof.
  intros G. unfold put_current, file_of. cbn [coverage_data current_file].
  now rewrite set_set, (set_absent _ _ _ G).
Qed.

(** The block of one record, read in a state that does not know the
    source file yet, adds the record that [reread] describes. *)
Lemma block_reads (st : pstate) (sf : string) (data : entry) :
  rstripped sf -> rereadable_entry data ->
  (sf = EmptyString -> data = empty_entry) ->
  Dict.get (coverage_data st) sf = None ->
  parse_lines st (block sf data) =
  Ok {| coverage_data := coverage_data st ++ [(sf, reread data)];
        current_file := Some sf |}.
Proof.
  intros Hsf Hdata Hempty G.
  change (block sf data)
    with ([("TN:" ++ nl)%string] ++ [("SF:" ++ sf ++ nl)%string] ++ record_body data).
  rewrite parse_lines_app, (untagged_lines_act [("TN:" ++ nl)%string]);
    [|repeat constructor]. cbn [bind].
  rewrite parse_lines_app. cbn [parse_lines].
  rewrite parse_line_SF; rewrite (source_line_stripped sf Hsf); [|reflexivity].
  cbn [String.append PyStr.slice_from bind].
  unfold Dict.contains. rewrite G.
  destruct sf as [|a r].
  - rewrite (Hempty eq_refl). rewrite untagged_lines_act.
    + now rewrite (set_absent _ _ _ G).
    + repeat constructor.
  - rewrite (record_body_acts data Hdata _ empty_entry);
      [| reflexivity | apply get_set_same].
    rewrite record_body_result by apply Hdata.
    now rewrite put_current_fresh.
Qed.

Lemma get_app_none {K V : Type} `{EqKey K} (a b : Dict.t K V) k :
  Dict.get a k = None -> Dict.get b k = None -> Dict.get (a ++ b) k = None.
Proof.
  rewrite !get_none_keys. unfold Dict.keys. rewrite map_app, in_app_iff. tauto.
Qed.

Lemma get_single_other {K V : Type} `{EqKey K} (k k' : K) (v : V) :
  k <> k' -> Dict.get [(k, v)] k' = None.
Proof.
  intros Hne. apply get_none_keys. cbn. tauto.
Qed.

Lemma blocks_read (m : coverage) :
  forall st,
    NoDup (Dict.keys m) ->
    (forall k, In k (Dict.keys m) -> Dict.get (coverage_data st) k = None) ->
    Forall (fun it => rstripped (fst it) /\ rereadable_entry (snd it) /\
                      (fst it = EmptyString -> snd it = empty_entry)) m ->
    parse_lines st (flat_map (fun it => block (fst it) (snd it)) m) =
    Ok {| coverage_data := coverage_data st ++ reread_all m;
          current_file := last_source m (current_file st) |}.
Proof.
  unfold Dict.keys, reread_all, last_source.
  induction m as [|[sf data] r IH]; intros st Hnd Hfresh Hall;
    cbn [flat_map map fold_left fst snd] in *.
  - rewrite app_nil_r. now destruct st.
  - inversion Hnd as [|? ? Hsf Hnd']; subst.
    inversion Hall as [|? ? (Hs & Hd & He) Hall']; subst. cbn [fst snd] in *.
    rewrite parse_lines_app, (block_reads st sf data Hs Hd He) by (apply Hfresh; now left).
    cbn [bind]. rewrite IH; [|exact Hnd'| |exact Hall'].
    + cbn [coverage_data current_file]. now rewrite <- app_assoc.
    + intros k Hk. cbn [coverage_data]. apply get_app_none.
      * apply Hfresh. now right.
      * apply get_single_other. intros ->. now apply Hsf.
Qed.

Lemma text_reads_back (m : coverage) :
  rereadable m ->
  parse_lines initial_pstate (lcov_text m) =
  Ok {| coverage_data := reread_all m; current_file := last_source m None |}.
Proof.
  intros [Hnd Hall]. unfold lcov_text. rewrite lcov_text_from. cbn [app].
  now rewrite (blocks_read m initial_pstate Hnd) by reflexivity || exact Hall.
Qed.

Lemma get_reread_all (m : coverage) (sf : string) :
  Dict.get (reread_all m) sf = option_map reread (Dict.get m sf).
Proof.
  unfold reread_all. induction m as [|[k e] r IH]; cbn [map Dict.get fst snd];
    [reflexivity|].
  destruct (keqb k sf); [reflexivity | exact IH].
Qed.

(** * Every aggregate can be read back *)

(** ** What [int()] returns has no more digits than it accepts *)

Lemma digit_cases (c : ascii) (d : Z) :
  PyStr.digit c = Some d ->
  d = 0 \/ d = 1 \/ d = 2 \/ d = 3 \/ d = 4 \/ d = 5 \/ d = 6 \/ d = 7 \/
  d = 8 \/ d = 9.
Proof.
  unfold PyStr.digit.
  destruct ((48 <=? nat_of_ascii c) && (nat_of_ascii c <=? 57))%nat eqn:E;
    [|discriminate].
  apply andb_true_iff in E. destruct E as [E1 E2].
  apply Nat.leb_le in E1. apply Nat.leb_le in E2. intros [= <-]. lia.
Qed.

(** Underscores do not change what the scan returns. *)
Lemma scan_digits_plain (s : string) :
  forall acc k b w n,
    PyStr.scan_digits s acc k b = Some (w, n) ->
    PyStr.scan_digits (NilEmpty.string_of_uint (uint_of_digits s)) acc k false =
    Some (w, n).
Proof.
  induction s as [|c r IH]; intros acc k b w n; cbn [PyStr.scan_digits uint_of_digits].
  - destruct b; [discriminate|]. now intros [= <- <-].
  - destruct (Ascii.eqb c "_") eqn:Eu.
    + apply Ascii.eqb_eq in Eu. subst c. destruct b; [discriminate|].
      intros Hs. apply (IH _ _ _ _ _ Hs).
    + destruct (PyStr.digit c) as [d|] eqn:Ed; [|discriminate].
      intros Hs. specialize (IH _ _ _ _ _ Hs).
      destruct (digit_cases c d Ed) as [->|[->|[->|[->|[->|[->|[->|[->|[->| ->]]]]]]]]];
        cbn [NilEmpty.string_of_uint]; scan_one; exact IH.
Qed.

Lemma capped_of_uint (d : Decimal.uint) :
  (Decimal.nb_digits d <= PyStr.int_max_str_digits)%nat ->
  capped (Z.of_N (Pos.of_uint d)) /\ capped (- Z.of_N (Pos.of_uint d)).
Proof.
  intros Hn.
  assert (Hc : capped (Z.of_N (Pos.of_uint d))).
  { unfold capped, PyStr.str.
    destruct (Pos.of_uint d) as [|q] eqn:E.
    - apply Nat.leb_le. reflexivity.
    - cbn [Z.of_N Z.abs Z.to_int NilZero.string_of_int].
      rewrite (nilzero_nonnil _ (DecimalPos.Unsigned.to_uint_nonnil q)).
      rewrite length_string_of_uint.
      pose proof (DecimalPos.Unsigned.to_of d) as Hto. rewrite E in Hto.
      cbn [N.to_uint] in Hto. rewrite Hto.
      etransitivity; [apply DecimalFacts.nb_digits_unorm | exact Hn].
      intros ->. discriminate. }
  split; [exact Hc|]. unfold capped in *. now rewrite Z.abs_opp.
Qed.

Lemma int_capped (s : string) (v : Z) : PyStr.int s = Ok v -> capped v.
Proof.
  unfold PyStr.int.
  set (t := PyStr.rstrip PyStr.is_int_space (PyStr.lstrip PyStr.is_int_space s)).
  assert (Hbody : forall (negative : bool) (body : string),
    match body with
    | EmptyString => Raise (ValueError s)
    | String c _ =>
        if Ascii.eqb c "_" then Raise (ValueError s)
        else
          match PyStr.scan_digits body 0 0 false with
          | Some (v, n) =>
              if (n <=? PyStr.int_max_str_digits)%nat
              then Ok (if negative then - v else v)
              else Raise (ValueError s)
          | None => Raise (ValueError s)
          end
    end = Ok v -> capped v).
  { intros negative body. destruct body as [|c r]; [discriminate|].
    destruct (Ascii.eqb c "_"); [discriminate|].
    destruct (PyStr.scan_digits (String c r) 0 0 false) as [[w n]|] eqn:Es;
      [|discriminate].
    destruct (n <=? PyStr.int_max_str_digits)%nat eqn:En; [|discriminate].
    apply Nat.leb_le in En. intros [= <-].
    apply scan_digits_plain in Es. rewrite scan_digits_zero in Es.
    injection Es as <- <-. cbn [Nat.add] in En.
    destruct (capped_of_uint _ En). now destruct negative. }
  destruct t as [|a r]; [exact (Hbody false EmptyString)|].
  destruct a as [[] [] [] [] [] [] [] []];
    first [exact (Hbody true r) | exact (Hbody false r)
          | match goal with
            | |- context [PyStr.scan_digits (String ?c r)] =>
                exact (Hbody false (String c r))
            end].
Qed.

(** ** Stripped lines and their fields *)

Lemma rstrip_idem (sp : ascii -> bool) (s : string) :
  PyStr.rstrip sp (PyStr.rstrip sp s) = PyStr.rstrip sp s.
Proof.
  induction s as [|c r IH]; cbn [PyStr.rstrip]; [reflexivity|].
  destruct (PyStr.rstrip sp r) as [|a t] eqn:E.
  - destruct (sp c) eqn:Ec; cbn [PyStr.rstrip]; [reflexivity | now rewrite Ec].
  - cbn [PyStr.rstrip] in *. now rewrite IH.
Qed.

Lemma lstrip_starts_visible (sp : ascii -> bool) (s : string) :
  starts_visible sp (PyStr.lstrip sp s).
Proof.
  induction s as [|c r IH]; cbn [PyStr.lstrip]; [exact I|].
  destruct (sp c) eqn:Ec; [exact IH | exact Ec].
Qed.

Lemma rstrip_starts_visible (sp : ascii -> bool) (s : string) :
  starts_visible sp s -> starts_visible sp (PyStr.rstrip sp s).
Proof.
  destruct s as [|c r]; cbn [PyStr.rstrip starts_visible]; [trivial|].
  intros Hc. rewrite Hc. now destruct (PyStr.rstrip sp r).
Qed.

Lemma lstrip_visible (sp : ascii -> bool) (s : string) :
  starts_visible sp s -> PyStr.lstrip sp s = s.
Proof.
  destruct s as [|c r]; cbn [PyStr.lstrip starts_visible]; [trivial|].
  now intros ->.
Qed.

Lemma strip_idem (s : string) : PyStr.strip (PyStr.strip s) = PyStr.strip s.
Proof.
  unfold PyStr.strip.
  rewrite (lstrip_visible _ (PyStr.rstrip _ _))
    by apply rstrip_starts_visible, lstrip_starts_visible.
  apply rstrip_idem.
Qed.

Lemma strip_rstripped (s : string) : rstripped (PyStr.strip s).
Proof. unfold rstripped, PyStr.strip. apply rstrip_idem. Qed.

Lemma rstripped_suffix (x y : string) : rstripped (x ++ y) -> rstripped y.
Proof.
  unfold rstripped. induction x as [|c x IH]; cbn [String.append PyStr.rstrip];
    [trivial|].
  destruct (PyStr.rstrip PyStr.isspace (x ++ y)) as [|a t] eqn:E.
  - destruct (PyStr.isspace c); [discriminate|]. intros [= Hxy].
    destruct x; cbn [String.append] in Hxy; [|discriminate]. now rewrite <- Hxy.
  - intros [= Hxy]. apply IH. exact Hxy.
Qed.

Lemma split_comma_1_parts (s p0 p1 : string) :
  PyStr.split_comma_1 s = [p0; p1] -> s = (p0 ++ String "," p1)%string.
Proof.
  revert p0. induction s as [|c r IH]; intros p0; cbn [PyStr.split_comma_1];
    [discriminate|].
  destruct (Ascii.eqb c ",") eqn:Ec.
  - apply Ascii.eqb_eq in Ec. subst c. now intros [= <- <-].
  - destruct (PyStr.split_comma_1 r) as [|h t]; [discriminate|].
    intros [= <- ->]. cbn [String.append]. now rewrite (IH h eq_refl).
Qed.

(** ** The texts of the records, through the parser and the merger *)

Lemma Forall_item_set {K V : Type} `{EqKey K} (P : K * V -> Prop) (d : Dict.t K V) k v :
  Forall P d -> P (k, v) -> Forall P (Dict.set d k v).
Proof.
  intros Hd Hkv. induction Hd as [|[k0 v0] r H0 Hr IH]; cbn [Dict.set].
  - now constructor.
  - destruct (keqb k0 k) eqn:E.
    + apply keqb_true in E. subst k0. now constructor.
    + now constructor.
Qed.

Lemma Forall_item_update {K V : Type} `{EqKey K} (P : K * V -> Prop) (d : Dict.t K V)
    k (f : V -> V) :
  Forall P d -> (forall v, P (k, v) -> P (k, f v)) -> Forall P (Dict.update d k f).
Proof.
  intros Hd Hf. induction Hd as [|[k0 v0] r H0 Hr IH]; cbn [Dict.update].
  - constructor.
  - destruct (keqb k0 k) eqn:E.
    + apply keqb_true in E. subst k0. constructor; [now apply Hf | exact Hr].
    + now constructor.
Qed.

Lemma capped_max (a b : Z) : capped a -> capped b -> capped (Z.max a b).
Proof. intros Ha Hb. now destruct (Z.max_dec a b) as [-> | ->]. Qed.

Lemma capped_0 : capped 0.
Proof. apply Nat.leb_le. reflexivity. Qed.

Lemma Forall_max_into {K : Type} `{EqKey K} (P : K -> Prop) (d : Dict.t K Z) k c :
  Forall (fun kc => P (fst kc) /\ capped (snd kc)) d -> P k -> capped c ->
  Forall (fun kc => P (fst kc) /\ capped (snd kc)) (max_into d k c).
Proof.
  intros Hd Hk Hc. unfold max_into. apply Forall_item_set; [exact Hd|].
  cbn [fst snd]. split; [exact Hk|]. apply capped_max; [|exact Hc].
  unfold Dict.get_default. destruct (Dict.get d k) as [old|] eqn:G; [|apply capped_0].
  apply get_In in G. rewrite Forall_forall in Hd. now destruct (Hd _ G).
Qed.

Lemma Forall_merge_counts {K : Type} `{EqKey K} (P : K -> Prop)
    (agg incoming : Dict.t K Z) :
  Forall (fun kc => P (fst kc) /\ capped (snd kc)) agg ->
  Forall (fun kc => P (fst kc) /\ capped (snd kc)) incoming ->
  Forall (fun kc => P (fst kc) /\ capped (snd kc)) (merge_counts agg incoming).
Proof.
  unfold merge_counts, Dict.items. intros Ha Hi. revert agg Ha.
  induction Hi as [|[k c] r [Hk Hc] Hr IH]; intros agg Ha; cbn [fold_left fst snd];
    [exact Ha|].
  apply IH. now apply Forall_max_into.
Qed.

Lemma texts_ok_empty : texts_ok empty_entry.
Proof. repeat split; constructor. Qed.

Lemma at_file_texts (cd cd' : coverage) (file : string) (f : entry -> entry) :
  all_texts_ok cd -> (forall e, texts_ok e -> texts_ok (f e)) ->
  at_file cd file f = Ok cd' -> all_texts_ok cd'.
Proof.
  unfold at_file, all_texts_ok. intros Hcd Hf.
  destruct (Dict.get cd file) as [e|] eqn:G; [|discriminate]. intros [= <-].
  apply Forall_item_set; [exact Hcd|]. apply get_In in G.
  rewrite Forall_forall in Hcd. destruct (Hcd _ G) as [Hk He].
  split; [exact Hk | now apply Hf].
Qed.

Lemma parse_line_texts (st st' : pstate) (raw : string) :
  all_texts_ok (coverage_data st) -> parse_line st raw = Ok st' ->
  all_texts_ok (coverage_data st').
Proof.
  intros Hst. unfold parse_line.
  pose proof (strip_idem raw) as Hidem. pose proof (strip_rstripped raw) as Hrs.
  set (line := PyStr.strip raw) in *.
  destruct (PyStr.startswith line "SF:") eqn:Esf.
  { intros [= <-]. cbn [coverage_data].
    destruct (Dict.contains (coverage_data st) _); [exact Hst|].
    apply Forall_item_set; [exact Hst|]. split; [|apply texts_ok_empty].
    destruct (startswith_app _ _ Esf) as [r Hr]. rewrite Hr in Hrs |- *.
    cbn [String.append PyStr.slice_from fst].
    apply (rstripped_suffix "SF:" r Hrs). }
  destruct (PyStr.startswith line "FN:" && _) eqn:Efn.
  { apply andb_true_iff in Efn. destruct Efn as [Efn _].
    destruct (at_file _ _ _) as [cd'|] eqn:A; [|discriminate].
    intros [= <-]. cbn [coverage_data].
    apply (at_file_texts _ _ _ _ Hst) in A; [exact A|].
    intros e (Hf & Hl & Hfd & Hbd). repeat split; try assumption.
    cbn [function_data append_function_data]. apply Forall_app.
    split; [exact Hfd | now repeat constructor]. }
  destruct (PyStr.startswith line "FNDA:" && _) eqn:Efnda.
  { destruct (PyStr.split_comma_1 line) as [|p0 [|p1 [|? ?]]] eqn:Es;
      try (intros [= <-]; exact Hst).
    destruct (PyStr.int _) as [count|] eqn:Ec; [|discriminate]. cbn [bind].
    destruct (at_file _ _ _) as [cd'|] eqn:A; [|discriminate].
    intros [= <-]. cbn [coverage_data].
    apply (at_file_texts _ _ _ _ Hst) in A; [exact A|].
    intros e (Hf & Hl & Hfd & Hbd). repeat split; try assumption.
    cbn [functions with_functions].
    apply (Forall_max_into rstripped); [exact Hf | | exact (int_capped _ _ Ec)].
    apply split_comma_1_parts in Es. rewrite Es in Hrs.
    apply (rstripped_suffix (p0 ++ ",") p1). now rewrite append_assoc_s. }
  destruct (PyStr.startswith line "DA:" && _) eqn:Eda.
  { destruct (PyStr.split_comma line) as [|p0 [|p1 [|? ?]]];
      try (intros [= <-]; exact Hst).
    destruct (PyStr.int (PyStr.slice_from 3 p0)) as [line_num|] eqn:En;
      [|discriminate]. cbn [bind].
    destruct (PyStr.int p1) as [count|] eqn:Ec; [|discriminate]. cbn [bind].
    destruct (at_file _ _ _) as [cd'|] eqn:A; [|discriminate].
    intros [= <-]. cbn [coverage_data].
    apply (at_file_texts _ _ _ _ Hst) in A; [exact A|].
    intros e (Hf & Hl & Hfd & Hbd). repeat split; try assumption.
    cbn [lines with_lines].
    apply (Forall_max_into capped);
      [exact Hl | exact (int_capped _ _ En) | exact (int_capped _ _ Ec)]. }
  destruct (PyStr.startswith line "BRDA:" && _) eqn:Ebrda.
  { apply andb_true_iff in Ebrda. destruct Ebrda as [Ebrda _].
    destruct (at_file _ _ (append_branch_data line)) as [cd1|] eqn:A1;
      [|discriminate]. cbn [bind].
    assert (H1 : brda_reads line = true -> all_texts_ok cd1).
    { intros Hr. apply (at_file_texts _ _ _ _ Hst) in A1; [exact A1|].
      intros e (Hf & Hl & Hfd & Hbd). repeat split; try assumption.
      cbn [branch_data append_branch_data]. apply Forall_app.
      split; [exact Hbd | now repeat constructor]. }
    unfold brda_reads, branch_count in H1.
    destruct (PyStr.split_comma line) as [|p0 [|p1 [|p2 [|p3 [|? ?]]]]];
      try (intros [= <-]; exact (H1 eq_refl)).
    destruct (if String.eqb p3 "-" then _ else _) as [count|]; [|discriminate].
    cbn [bind].
    destruct (at_file cd1 _ _) as [cd2|] eqn:A2; [|discriminate].
    intros [= <-]. cbn [coverage_data].
    apply (at_file_texts _ _ _ _ (H1 eq_refl)) in A2; [exact A2|].
    intros e (Hf & Hl & Hfd & Hbd). repeat split; assumption. }
  intros [= <-]. exact Hst.
Qed.

Lemma parse_lines_texts (ls : list string) (st st' : pstate) :
  all_texts_ok (coverage_data st) -> parse_lines st ls = Ok st' ->
  all_texts_ok (coverage_data st').
Proof.
  revert st. induction ls as [|l rest IH]; intros st Hst; cbn [parse_lines].
  - now intros [= <-].
  - destruct (parse_line st l) as [st1|] eqn:E; cbn [bind]; [|discriminate].
    apply IH. now apply (parse_line_texts st st1 l).
Qed.

Lemma parse_result_texts (fs : filesystem) (file_path : string) :
  all_texts_ok (fst (parse_lcov_file fs file_path)).
Proof.
  unfold parse_lcov_file. destruct (read_lines fs file_path) as [ls|];
    cbn [bind]; [|constructor].
  destruct (parse_lines initial_pstate ls) as [st|] eqn:E; cbn [bind fst];
    [|constructor].
  apply (parse_lines_texts ls initial_pstate st); [constructor | exact E].
Qed.

Lemma texts_ok_seed (data : entry) : texts_ok data -> texts_ok (seed data).
Proof.
  intros (_ & _ & Hfd & Hbd). repeat split; try assumption; constructor.
Qed.

Lemma texts_ok_merge (data e : entry) :
  texts_ok data -> texts_ok e -> texts_ok (merge_entry data e).
Proof.
  intros (Hf & Hl & _ & _) (Hf' & Hl' & Hfd & Hbd).
  repeat split; try assumption; cbn [functions lines merge_entry].
  - now apply (Forall_merge_counts rstripped).
  - now apply (Forall_merge_counts capped).
Qed.

Lemma merge_source_texts (m : coverage) (it : string * entry) :
  all_texts_ok m -> rstripped (fst it) -> texts_ok (snd it) ->
  all_texts_ok (merge_source m it).
Proof.
  destruct it as [sf data]. cbn [fst snd]. intros Hm Hsf Hdata.
  unfold merge_source, all_texts_ok. apply Forall_item_update.
  - destruct (Dict.contains m sf); [exact Hm|].
    apply Forall_item_set; [exact Hm|]. split; [exact Hsf | now apply texts_ok_seed].
  - intros e [Hk He]. split; [exact Hk | now apply texts_ok_merge].
Qed.

Lemma merge_file_data_texts (d m : coverage) :
  all_texts_ok m -> all_texts_ok d -> all_texts_ok (merge_file_data m d).
Proof.
  unfold merge_file_data, Dict.items. intros Hm Hd. revert m Hm.
  induction Hd as [|it r [Hk He] Hr IH]; intros m Hm; cbn [fold_left]; [exact Hm|].
  apply IH. now apply merge_source_texts.
Qed.

Lemma merge_inputs_texts (inputs : list coverage) (m : coverage) :
  Forall all_texts_ok inputs -> all_texts_ok m ->
  all_texts_ok (fold_left merge_file_data inputs m).
Proof.
  intros Hin. revert m.
  induction Hin as [|d r Hd Hr IH]; intros m Hm; cbn [fold_left]; [exact Hm|].
  apply IH. now apply merge_file_data_texts.
Qed.

Lemma aggregate_texts (fs : filesystem) (file_paths : list string) :
  all_texts_ok (fst (merge_coverage_files fs file_paths)).
Proof.
  rewrite merge_coverage_files_all. unfold merge_all.
  apply merge_inputs_texts; [|constructor].
  unfold parsed_inputs. apply Forall_forall. intros d Hd.
  apply in_map_iff in Hd. destruct Hd as [p [<- _]]. apply parse_result_texts.
Qed.

Lemma aggregate_rereadable (fs : filesystem) (file_paths : list string) :
  rereadable (fst (merge_coverage_files fs file_paths)).
Proof.
  pose proof (aggregate_texts fs file_paths) as Ht.
  assert (Hok : coverage_ok (fst (merge_coverage_files fs file_paths)))
    by (rewrite merge_coverage_files_all; apply coverage_ok_all).
  destruct Hok as [Hnd Hok]. split; [exact Hnd|].
  unfold all_texts_ok in Ht. rewrite Forall_forall in Ht, Hok |- *.
  intros [sf e] Hin. destruct (Ht _ Hin) as [Hsf (Hf & Hl & Hfd & Hbd)].
  cbn [fst snd] in *. split; [exact Hsf|]. split.
  - split; [exact (Hok _ Hin) | repeat split; assumption].
  - intros ->. apply (aggregate_empty_path fs file_paths).
    now apply In_get.
Qed.

(** ** A single input *)

Lemma update_app_fresh {K V : Type} `{EqKey K} (m l : Dict.t K V) k (f : V -> V) :
  Dict.get m k = None -> Dict.update (m ++ l) k f = m ++ Dict.update l k f.
Proof.
  induction m as [|[k0 v0] r IH]; cbn [Dict.get Dict.update app]; [reflexivity|].
  destruct (keqb k0 k); [discriminate|]. intros G. now rewrite IH.
Qed.

Lemma merge_entry_seed (data : entry) :
  entry_ok data -> merge_entry data (seed data) = data.
Proof.
  intros (Hf & Hl & Hb). unfold merge_entry, seed.
  cbn [functions lines branches function_data branch_data].
  rewrite !merge_counts_fresh by (reflexivity || assumption).
  now destruct data.
Qed.

Lemma merge_source_fresh (m : coverage) (sf : string) (data : entry) :
  Dict.get m sf = None -> entry_ok data ->
  merge_source m (sf, data) = m ++ [(sf, data)].
Proof.
  intros G Hd. unfold merge_source, Dict.contains. rewrite G.
  rewrite (set_absent _ _ _ G), (update_app_fresh _ _ _ _ G).
  cbn [Dict.update]. rewrite keqb_refl. now rewrite merge_entry_seed.
Qed.

(** Merging a well-formed parse result into an aggregate that has none
    of its source files appends it as it is. *)
Lemma merge_file_data_fresh (d m : coverage) :
  coverage_ok d -> (forall k, In k (Dict.keys d) -> Dict.get m k = None) ->
  merge_file_data m d = m ++ d.
Proof.
  unfold merge_file_data, Dict.items, coverage_ok, Dict.keys. revert m.
  induction d as [|[sf data] r IH]; intros m [Hnd Hok] Hfresh;
    cbn [fold_left map fst snd] in *; [now rewrite app_nil_r|].
  inversion Hnd as [|? ? Hsf Hnd']; subst. inversion Hok as [|? ? Hd Hok']; subst.
  cbn [snd] in Hd.
  rewrite merge_source_fresh by (assumption || apply Hfresh; now left).
  rewrite IH; [now rewrite <- app_assoc | now split |].
  intros k Hk. apply get_app_none; [apply Hfresh; now right|].
  apply get_single_other. intros ->. now apply Hsf.
Qed.

Lemma merge_single (fs : filesystem) (file_path : string) :
  path_exists fs file_path = true ->
  fst (merge_coverage_files fs [file_path]) = fst (parse_lcov_file fs file_path).
Proof.
  intros He. unfold merge_coverage_files. cbn [fold_left merge_step]. rewrite He.
  cbn [negb]. pose proof (parse_lcov_file_ok fs file_path) as [Hok _].
  destruct (parse_lcov_file fs file_path) as [d out]. cbn [fst] in *.
  now rewrite (merge_file_data_fresh d Dict.empty Hok).
Qed.

Lemma output_aggregate (fs : filesystem) (file_paths : list string)
    (fs' : filesystem) (output_path : string) :
  read_lines fs' output_path =
    Ok (lcov_text (fst (merge_coverage_files fs file_paths))) ->
  path_exists fs' output_path = true ->
  parse_lcov_file fs' output_path =
    (reread_all (fst (merge_coverage_files fs file_paths)), []) /\
  fst (merge_coverage_files fs' [output_path]) =
    reread_all (fst (merge_coverage_files fs file_paths)).
Proof.
  intros Hr He. pose proof (aggregate_rereadable fs file_paths) as Hm.
  assert (Hp : parse_lcov_file fs' output_path =
               (reread_all (fst (merge_coverage_files fs file_paths)), [])).
  { unfold parse_lcov_file. rewrite Hr. cbn [bind].
    now rewrite (text_reads_back _ Hm). }
  split; [exact Hp|].
  now rewrite (merge_single fs' output_path He), Hp.
Qed.

(** X17. Every aggregate that the merger builds, from any inputs, can
    be read back from the text written for it: no name of a source file
    or of a function ends in white space, every line number and count
    is one that [int()] accepts again (so [str()] of it stays within
    the conversion limit as well), every stored definition line is
    stripped and tagged, and every stored [BRDA] line with four fields
    has a readable count.  So a second run on the output file alone,
    on a file system that gives the written chunks back as the lines of
    that file, parses it without a message and finds the same source
    files, the same function counters and the same line counters, the
    latter in the order of the line numbers. *)
Theorem aggregate_reads_back (fs : filesystem) (file_paths : list string)
    (fs' : filesystem) (output_path : string) :
  read_lines fs' output_path =
    Ok (lcov_text (fst (merge_coverage_files fs file_paths))) ->
  path_exists fs' output_path = true ->
  rereadable (fst (merge_coverage_files fs file_paths)) /\
  parse_lcov_file fs' output_path =
    (reread_all (fst (merge_coverage_files fs file_paths)), []) /\
  fst (merge_coverage_files fs' [output_path]) =
    reread_all (fst (merge_coverage_files fs file_paths)).
Proof.
  intros Hr He. split; [apply aggregate_rereadable|].
  now apply output_aggregate.
Qed.

(** X18. A run on a single input that exists keeps the parse result as
    it is: the same source files in the same order, the same counters
    in the same order and the same definition lines. *)
Theorem single_input_is_kept (fs : filesystem) (file_path : string) :
  path_exists fs file_path = true ->
  fst (merge_coverage_files fs [file_path]) = fst (parse_lcov_file fs file_path) /\
  snd (merge_coverage_files fs [file_path]) =
    Printed ("Processing: " ++ file_path) :: snd (parse_lcov_file fs file_path).
Proof.
  intros He. split; [now apply merge_single|].
  unfold merge_coverage_files. cbn [fold_left merge_step]. rewrite He.
  cbn [negb]. now destruct (parse_lcov_file fs file_path).
Qed.

(** ** A run on its own output *)

Lemma pair_leb_spec (a b : Z * Z) :
  pair_leb a b = true <->
  fst a < fst b \/ (fst a = fst b /\ snd a <= snd b).
Proof.
  unfold pair_leb. rewrite orb_true_iff, andb_true_iff, Z.ltb_lt, Z.eqb_eq, Z.leb_le.
  tauto.
Qed.

Lemma insert_sorted_leb (x : Z * Z) (l : list (Z * Z)) :
  StronglySorted (fun a b => pair_leb a b = true) l ->
  StronglySorted (fun a b => pair_leb a b = true) (insert_sorted x l).
Proof.
  induction 1 as [|y r Hr IH Hy]; cbn [insert_sorted].
  - repeat constructor.
  - destruct (pair_leb x y) eqn:E.
    + constructor; [now constructor|]. constructor; [exact E|].
      rewrite Forall_forall in *. intros z Hz. specialize (Hy z Hz).
      rewrite pair_leb_spec in *. lia.
    + apply pair_leb_total in E. constructor; [exact IH|].
      rewrite Forall_forall in *. intros z Hz.
      apply (Permutation_in _ (insert_sorted_perm x r)) in Hz.
      destruct Hz as [<-|Hz]; [exact E | now apply Hy].
Qed.

Lemma sorted_leb (l : list (Z * Z)) :
  StronglySorted (fun a b => pair_leb a b = true) (sorted l).
Proof.
  induction l as [|x r IH]; cbn [sorted]; [constructor|].
  now apply insert_sorted_leb.
Qed.

Lemma sorted_fixed (l : list (Z * Z)) :
  StronglySorted (fun a b => pair_leb a b = true) l -> sorted l = l.
Proof.
  induction 1 as [|x r Hr IH Hx]; cbn [sorted]; [reflexivity|].
  rewrite IH. destruct r as [|y r']; cbn [insert_sorted]; [reflexivity|].
  inversion Hx as [|? ? Hxy _]; subst. now rewrite Hxy.
Qed.

Lemma sorted_twice (l : list (Z * Z)) : sorted (sorted l) = sorted l.
Proof. apply sorted_fixed, sorted_leb. Qed.

Lemma dedup_from_fixed (l seen : list string) :
  NoDup l -> (forall x, In x l -> ~ In x seen) -> dedup_from seen l = l.
Proof.
  intros Hnd. revert seen. induction Hnd as [|x r Hx Hr IH]; intros seen Hdis;
    cbn [dedup_from]; [reflexivity|].
  destruct (mem x seen) eqn:E.
  - apply mem_In in E. exfalso. apply (Hdis x); [now left | exact E].
  - rewrite IH; [reflexivity|]. intros y Hy [<-|Hs]; [contradiction|].
    apply (Hdis y); [now right | exact Hs].
Qed.

Lemma dedup_twice (l : list string) : dedup (dedup l) = dedup l.
Proof.
  unfold dedup at 1. apply dedup_from_fixed; [apply dedup_from_NoDup|].
  intros x _ [].
Qed.

Lemma reread_twice (e : entry) : reread (reread e) = reread e.
Proof.
  unfold reread. cbn [functions lines branches function_data branch_data].
  now rewrite sorted_twice, !dedup_twice.
Qed.

Lemma reread_all_twice (m : coverage) : reread_all (reread_all m) = reread_all m.
Proof.
  unfold reread_all. rewrite map_map. apply map_ext. intros [sf e]. cbn [fst snd].
  now rewrite reread_twice.
Qed.

(** X19. Run on its own output, the tool reaches a fixed point after
    one pass: the aggregate of a third run, on the output of the second,
    is the aggregate of the second run, so the third output file is the
    second one.  (The first output need not be a fixed point: its
    branch summary counts the merged branches, the second one those of
    the written [BRDA] lines.) *)
Theorem rerun_is_stable (fs : filesystem) (file_paths : list string)
    (fs1 : filesystem) (out1 : string) (fs2 : filesystem) (out2 : string) :
  read_lines fs1 out1 = Ok (lcov_text (fst (merge_coverage_files fs file_paths))) ->
  path_exists fs1 out1 = true ->
  read_lines fs2 out2 = Ok (lcov_text (fst (merge_coverage_files fs1 [out1]))) ->
  path_exists fs2 out2 = true ->
  fst (merge_coverage_files fs2 [out2]) = fst (merge_coverage_files fs1 [out1]) /\
  lcov_text (fst (merge_coverage_files fs2 [out2])) =
  lcov_text (fst (merge_coverage_files fs1 [out1])).
Proof.
  intros Hr1 He1 Hr2 He2.
  destruct (output_aggregate fs file_paths fs1 out1 Hr1 He1) as [_ H1].
  destruct (output_aggregate fs1 [out1] fs2 out2 Hr2 He2) as [_ H2].
  assert (E : fst (merge_coverage_files fs2 [out2]) =
              fst (merge_coverage_files fs1 [out1])).
  { rewrite H2, H1. apply reread_all_twice. }
  split; [exact E | now rewrite E].
Qed.

(** ** An output path without a directory part *)

Lemma upto_last_slash_empty (p : string) :
  upto_last_slash p = EmptyString <-> all_chars not_slash p = true.
Proof.
  unfold not_slash.
  induction p as [|c r IH]; cbn [upto_last_slash all_chars]; [tauto|].
  rewrite andb_true_iff, <- IH, negb_true_iff.
  destruct (upto_last_slash r) as [|h t]; destruct (Ascii.eqb c "/");
    split; try discriminate; try tauto; intros [? ?]; discriminate.
Qed.

Lemma rstrip_slashes_empty (s : string) :
  PyStr.rstrip (fun c => Ascii.eqb c "/") s = EmptyString -> all_slashes s = true.
Proof.
  induction s as [|c r IH]; cbn [PyStr.rstrip all_slashes]; [reflexivity|].
  destruct (PyStr.rstrip _ r) as [|h t]; [|discriminate].
  destruct (Ascii.eqb c "/"); [|discriminate]. intros _. now apply IH.
Qed.

Lemma dirname_empty (p : string) :
  dirname p = EmptyString <-> all_chars not_slash p = true.
Proof.
  rewrite <- upto_last_slash_empty. unfold dirname.
  destruct (all_slashes (upto_last_slash p)) eqn:E; cbn [negb]; [tauto|].
  split.
  - intros Hr. apply rstrip_slashes_empty in Hr. congruence.
  - intros Hu. rewrite Hu in E. discriminate.
Qed.

(** X20. [os.path.dirname] of a path is empty exactly when the path has
    no slash, and [os.makedirs] refuses the empty path.  So whenever the
    aggregate is not empty and the output is a bare file name, the run
    ends in an uncaught [FileNotFoundError] on every file system: no
    file is written, no summary is printed, the status is 1. *)
Theorem output_without_directory_is_fatal (float_2f : Z -> Z -> string)
    (fs : filesystem) (a : args) :
  all_chars not_slash (output a) = true ->
  Dict.is_empty (fst (merge_coverage_files fs (files a))) = false ->
  dirname (output a) = EmptyString /\
  written (main float_2f fs a) = None /\
  ended (main float_2f fs a) =
    Uncaught (OSError "[Errno 2] No such file or directory: ''") /\
  exit_status (ended (main float_2f fs a)) = 1 /\
  stdout (main float_2f fs a) =
    Printed ("Merging " ++ PyStr.str (Z.of_nat (List.length (files a)))
             ++ " coverage files...")
    :: snd (merge_coverage_files fs (files a)).
Proof.
  intros Hp Hne. apply dirname_empty in Hp. split; [exact Hp|].
  unfold main. destruct (merge_coverage_files fs (files a)) as [m out1].
  cbn [fst snd] in *. rewrite Hne. unfold write_merged_lcov, left_behind.
  rewrite Hp.
  cbn [os_makedirs bind written ended stdout exit_status app]. repeat split.
Qed.

(** ** A chunk of the output is a line *)

Lemma all_chars_lstrip (p sp : ascii -> bool) (s : string) :
  all_chars p s = true -> all_chars p (PyStr.lstrip sp s) = true.
Proof.
  induction s as [|c r IH]; cbn [PyStr.lstrip all_chars]; [trivial|].
  intros Hc. destruct (sp c); [|exact Hc].
  apply andb_true_iff in Hc. now apply IH.
Qed.

Lemma all_chars_rstrip (p sp : ascii -> bool) (s : string) :
  all_chars p s = true -> all_chars p (PyStr.rstrip sp s) = true.
Proof.
  induction s as [|c r IH]; cbn [PyStr.rstrip all_chars]; [trivial|].
  intros Hc. apply andb_true_iff in Hc. destruct Hc as [Hc Hr].
  specialize (IH Hr). destruct (PyStr.rstrip sp r) as [|a t].
  - destruct (sp c); cbn [all_chars]; [reflexivity | now rewrite Hc].
  - cbn [all_chars] in *. now rewrite Hc.
Qed.

Lemma all_chars_slice (p : ascii -> bool) (n : nat) (s : string) :
  all_chars p s = true -> all_chars p (PyStr.slice_from n s) = true.
Proof.
  revert s. induction n as [|n IH]; intros s; cbn [PyStr.slice_from]; [trivial|].
  destruct s as [|c r]; [trivial|]. cbn [all_chars]. intros Hc.
  apply andb_true_iff in Hc. now apply IH.
Qed.

Lemma one_line_stripped (raw : string) : one_line raw -> no_break (PyStr.strip raw).
Proof.
  intros (l & Hl & [-> | ->]); [|rewrite strip_with_nl];
    unfold PyStr.strip; now apply all_chars_rstrip, all_chars_lstrip.
Qed.

Lemma no_break_app (x y : string) : no_break x -> no_break y -> no_break (x ++ y).
Proof. unfold no_break. intros Hx Hy. now rewrite all_chars_app, Hx, Hy. Qed.

Lemma no_break_str (z : Z) : no_break (PyStr.str z).
Proof. apply str_chars. apply numeral_char_cases; reflexivity. Qed.

Lemma at_file_items (P : string * entry -> Prop) (cd cd' : coverage)
    (file : string) (f : entry -> entry) :
  Forall P cd -> (forall e, P (file, e) -> P (file, f e)) ->
  at_file cd file f = Ok cd' -> Forall P cd'.
Proof.
  unfold at_file. intros Hcd Hf.
  destruct (Dict.get cd file) as [e|] eqn:G; [|discriminate]. intros [= <-].
  apply Forall_item_set; [exact Hcd|]. apply get_In in G.
  rewrite Forall_forall in Hcd. apply Hf. exact (Hcd _ G).
Qed.

Lemma parse_line_breaks (st st' : pstate) (raw : string) :
  all_breaks_ok (coverage_data st) -> no_break (PyStr.strip raw) ->
  parse_line st raw = Ok st' -> all_breaks_ok (coverage_data st').
Proof.
  intros Hst Hline. unfold parse_line, all_breaks_ok in *.
  set (line := PyStr.strip raw) in *.
  destruct (PyStr.startswith line "SF:") eqn:Esf.
  { intros [= <-]. cbn [coverage_data].
    destruct (Dict.contains (coverage_data st) _); [exact Hst|].
    apply Forall_item_set; [exact Hst|].
    split; [exact (all_chars_slice _ 3 line Hline) | repeat split; constructor]. }
  destruct (PyStr.startswith line "FN:" && _) eqn:Efn.
  { destruct (at_file _ _ _) as [cd'|] eqn:A; [|discriminate].
    intros [= <-]. cbn [coverage_data].
    apply (at_file_items _ _ _ _ _ Hst) in A; [exact A|].
    intros e [Hk (Hf & Hfd & Hbd)]. split; [exact Hk|]. repeat split; try assumption.
    cbn [function_data append_function_data]. apply Forall_app.
    split; [exact Hfd | now repeat constructor]. }
  destruct (PyStr.startswith line "FNDA:" && _) eqn:Efnda.
  { destruct (PyStr.split_comma_1 line) as [|p0 [|p1 [|? ?]]] eqn:Es;
      try (intros [= <-]; exact Hst).
    destruct (PyStr.int _) as [count|]; [|discriminate]. cbn [bind].
    destruct (at_file _ _ _) as [cd'|] eqn:A; [|discriminate].
    intros [= <-]. cbn [coverage_data].
    apply (at_file_items _ _ _ _ _ Hst) in A; [exact A|].
    intros e [Hk (Hf & Hfd & Hbd)]. split; [exact Hk|]. repeat split; try assumption.
    cbn [functions with_functions]. unfold max_into.
    apply Forall_item_set; [exact Hf|]. cbn [fst].
    apply split_comma_1_parts in Es. unfold no_break in Hline.
    rewrite Es, all_chars_app in Hline. apply andb_true_iff in Hline.
    destruct Hline as [_ Hline]. cbn [all_chars] in Hline.
    apply andb_true_iff in Hline. now destruct Hline. }
  destruct (PyStr.startswith line "DA:" && _) eqn:Eda.
  { destruct (PyStr.split_comma line) as [|p0 [|p1 [|? ?]]];
      try (intros [= <-]; exact Hst).
    destruct (PyStr.int (PyStr.slice_from 3 p0)) as [line_num|]; [|discriminate].
    cbn [bind].
    destruct (PyStr.int p1) as [count|]; [|discriminate]. cbn [bind].
    destruct (at_file _ _ _) as [cd'|] eqn:A; [|discriminate].
    intros [= <-]. cbn [coverage_data].
    apply (at_file_items _ _ _ _ _ Hst) in A; [exact A|].
    intros e [Hk (Hf & Hfd & Hbd)]. split; [exact Hk|]. repeat split; assumption. }
  destruct (PyStr.startswith line "BRDA:" && _) eqn:Ebrda.
  { destruct (at_file _ _ (append_branch_data line)) as [cd1|] eqn:A1;
      [|discriminate]. cbn [bind].
    apply (at_file_items _ _ _ _ _ Hst) in A1.
    2: { intros e [Hk (Hf & Hfd & Hbd)]. split; [exact Hk|].
         repeat split; try assumption.
         cbn [branch_data append_branch_data]. apply Forall_app.
         split; [exact Hbd | now repeat constructor]. }
    destruct (PyStr.split_comma line) as [|p0 [|p1 [|p2 [|p3 [|? ?]]]]];
      try (intros [= <-]; exact A1).
    destruct (if String.eqb p3 "-" then _ else _) as [count|]; [|discriminate].
    cbn [bind].
    destruct (at_file cd1 _ _) as [cd2|] eqn:A2; [|discriminate].
    intros [= <-]. cbn [coverage_data].
    apply (at_file_items _ _ _ _ _ A1) in A2; [exact A2|].
    intros e [Hk (Hf & Hfd & Hbd)]. split; [exact Hk|]. repeat split; assumption. }
  intros [= <-]. exact Hst.
Qed.

Lemma parse_lines_breaks (ls : list string) (st st' : pstate) :
  Forall one_line ls -> all_breaks_ok (coverage_data st) ->
  parse_lines st ls = Ok st' -> all_breaks_ok (coverage_data st').
Proof.
  intros Hls. revert st. induction Hls as [|l rest Hl Hrest IH]; intros st Hst;
    cbn [parse_lines].
  - now intros [= <-].
  - destruct (parse_line st l) as [st1|] eqn:E; cbn [bind]; [|discriminate].
    apply IH. apply (parse_line_breaks st st1 l Hst); [|exact E].
    now apply one_line_stripped.
Qed.

Lemma parse_result_breaks (fs : filesystem) (file_path : string) :
  (forall ls, read_lines fs file_path = Ok ls -> Forall one_line ls) ->
  all_breaks_ok (fst (parse_lcov_file fs file_path)).
Proof.
  intros Hfs. unfold parse_lcov_file.
  destruct (read_lines fs file_path) as [ls|]; cbn [bind]; [|constructor].
  destruct (parse_lines initial_pstate ls) as [st|] eqn:E; cbn [bind fst];
    [|constructor].
  apply (parse_lines_breaks ls initial_pstate st); [now apply Hfs | constructor | exact E].
Qed.

Lemma merge_counts_keys_pass {K : Type} `{EqKey K} (P : K -> Prop)
    (agg incoming : Dict.t K Z) :
  Forall (fun kc => P (fst kc)) agg -> Forall (fun kc => P (fst kc)) incoming ->
  Forall (fun kc => P (fst kc)) (merge_counts agg incoming).
Proof.
  unfold merge_counts, Dict.items. intros Ha Hi. revert agg Ha.
  induction Hi as [|[k c] r Hk Hr IH]; intros agg Ha; cbn [fold_left fst snd];
    [exact Ha|].
  apply IH. unfold max_into. now apply Forall_item_set.
Qed.

Lemma merge_source_breaks (m : coverage) (it : string * entry) :
  all_breaks_ok m -> no_break (fst it) -> breaks_ok (snd it) ->
  all_breaks_ok (merge_source m it).
Proof.
  destruct it as [sf data]. cbn [fst snd]. intros Hm Hsf (Hf & Hfd & Hbd).
  unfold merge_source, all_breaks_ok. apply Forall_item_update.
  - destruct (Dict.contains m sf); [exact Hm|].
    apply Forall_item_set; [exact Hm|]. split; [exact Hsf|].
    repeat split; try assumption. constructor.
  - intros e [Hk (Hf' & Hfd' & Hbd')]. split; [exact Hk|].
    repeat split; try assumption. cbn [functions merge_entry].
    now apply (merge_counts_keys_pass no_break).
Qed.

Lemma merge_file_data_breaks (d m : coverage) :
  all_breaks_ok m -> all_breaks_ok d -> all_breaks_ok (merge_file_data m d).
Proof.
  unfold merge_file_data, Dict.items. intros Hm Hd. revert m Hm.
  induction Hd as [|it r [Hk He] Hr IH]; intros m Hm; cbn [fold_left]; [exact Hm|].
  apply IH. now apply merge_source_breaks.
Qed.

Lemma aggregate_breaks (fs : filesystem) (file_paths : list string) :
  (forall p ls, read_lines fs p = Ok ls -> Forall one_line ls) ->
  all_breaks_ok (fst (merge_coverage_files fs file_paths)).
Proof.
  intros Hfs. rewrite merge_coverage_files_all. unfold merge_all, parsed_inputs.
  assert (Hin : Forall all_breaks_ok
                  (map (fun p => fst (parse_lcov_file fs p))
                       (filter (path_exists fs) file_paths))).
  { apply Forall_forall. intros d Hd. apply in_map_iff in Hd.
    destruct Hd as [p [<- _]]. apply parse_result_breaks. apply Hfs. }
  assert (Hm : all_breaks_ok (@Dict.empty string entry)) by constructor.
  revert Hm. generalize (@Dict.empty string entry).
  induction Hin as [|d r Hd Hr IH]; intros m Hm; cbn [fold_left]; [exact Hm|].
  apply IH. now apply merge_file_data_breaks.
Qed.

Lemma line_chunk_intro (l chunk : string) :
  no_break l -> chunk = (l ++ nl)%string -> line_chunk chunk.
Proof. intros Hl ->. now exists l. Qed.

Lemma summary_chunk (tag : string) (z : Z) :
  no_break tag -> line_chunk (tag ++ PyStr.str z ++ nl).
Proof.
  intros Ht. apply (line_chunk_intro (tag ++ PyStr.str z)).
  - apply no_break_app; [exact Ht | apply no_break_str].
  - now rewrite append_assoc_s.
Qed.

Lemma block_chunks (sf : string) (data : entry) :
  no_break sf -> breaks_ok data -> Forall line_chunk (block sf data).
Proof.
  intros Hsf (Hf & Hfd & Hbd). unfold block.
  assert (Hdefs : forall ls, Forall no_break ls ->
                  Forall line_chunk (map with_nl (dedup ls))).
  { intros ls Hls. rewrite Forall_forall in *. intros c Hc.
    apply in_map_iff in Hc. destruct Hc as (l & <- & Hin).
    apply dedup_from_In in Hin. exists l. split; [reflexivity|].
    apply Hls. tauto. }
  repeat (apply Forall_app; split); try (now apply Hdefs).
  - constructor; [now apply (line_chunk_intro "TN:")|]. constructor; [|constructor].
    apply (line_chunk_intro ("SF:" ++ sf)); [now apply no_break_app|].
    now rewrite append_assoc_s.
  - rewrite Forall_forall in *. intros c Hc. apply in_map_iff in Hc.
    destruct Hc as ([name count] & <- & Hin). specialize (Hf _ Hin).
    unfold fnda_line. cbn [fst snd] in *.
    apply (line_chunk_intro ("FNDA:" ++ PyStr.str count ++ "," ++ name)).
    + repeat apply no_break_app; try reflexivity; [apply no_break_str | exact Hf].
    + now rewrite !append_assoc_s.
  - repeat constructor; now apply summary_chunk.
  - repeat constructor; now apply summary_chunk.
  - rewrite Forall_forall. intros c Hc. apply in_map_iff in Hc.
    destruct Hc as ([n count] & <- & _). unfold da_line. cbn [fst snd].
    apply (line_chunk_intro ("DA:" ++ PyStr.str n ++ "," ++ PyStr.str count)).
    + repeat apply no_break_app; try reflexivity; apply no_break_str.
    + now rewrite !append_assoc_s.
  - constructor; [now apply summary_chunk|]. constructor; [now apply summary_chunk|].
    constructor; [|constructor]. now apply (line_chunk_intro "end_of_record").
Qed.

(** X21. When every input is read as lines, with a line break at the end
    of a line only, every chunk that the serializer writes for the
    aggregate is one line: a text without a line break and the line end
    after it.  No name and no definition line can carry a line break
    into the output, so the output file has one line per [f.write]. *)
Theorem written_chunks_are_lines (fs : filesystem) (file_paths : list string) :
  (forall p ls, read_lines fs p = Ok ls -> Forall one_line ls) ->
  Forall line_chunk (lcov_text (fst (merge_coverage_files fs file_paths))) /\
  Forall one_line (lcov_text (fst (merge_coverage_files fs file_paths))).
Proof.
  intros Hfs. pose proof (aggregate_breaks fs file_paths Hfs) as Hm.
  assert (Hc : Forall line_chunk
                 (lcov_text (fst (merge_coverage_files fs file_paths)))).
  { unfold lcov_text. rewrite lcov_text_from. cbn [app].
    induction Hm as [|[sf data] r [Hsf Hd] Hr IH]; cbn [flat_map fst snd];
      [constructor|].
    apply Forall_app. split; [now apply block_chunks | exact IH]. }
  split; [exact Hc|]. apply (Forall_impl _ (P := line_chunk)); [|exact Hc].
  intros c (l & -> & Hl). exists l. split; [exact Hl | now right].
Qed.

(** ** The written text, read back *)

Lemma plain_ascii (s : string) : plain s -> PyStr.isascii s = true /\ no_break s.
Proof.
  unfold plain, no_break.
  induction s as [|c r IH]; cbn [all_chars PyStr.isascii]; [now split|].
  intros H. apply andb_true_iff in H. destruct H as [Hc Hr].
  destruct (IH Hr) as [Ha Hb]. rewrite Ha, Hb.
  unfold plain_char in Hc. apply andb_true_iff in Hc. destruct Hc as [Hc1 Hc2].
  rewrite Hc1. split; [reflexivity|]. rewrite andb_true_r.
  unfold line_end in Hc2. unfold not_newline.
  destruct (Ascii.eqb c (ascii_of_nat 10)); [discriminate | reflexivity].
Qed.

Lemma plain_app (x y : string) : plain x -> plain y -> plain (x ++ y).
Proof. unfold plain. intros Hx Hy. now rewrite all_chars_app, Hx, Hy. Qed.

Lemma plain_str (z : Z) : plain (PyStr.str z).
Proof. apply str_chars. apply numeral_char_cases; reflexivity. Qed.

Lemma plain_chunk_intro (l chunk : string) :
  plain l -> chunk = (l ++ nl)%string -> plain_chunk chunk.
Proof. intros Hl ->. now exists l. Qed.

Lemma summary_plain (tag : string) (z : Z) :
  plain tag -> plain_chunk (tag ++ PyStr.str z ++ nl).
Proof.
  intros Ht. apply (plain_chunk_intro (tag ++ PyStr.str z)).
  - apply plain_app; [exact Ht | apply plain_str].
  - now rewrite append_assoc_s.
Qed.

Lemma block_plain (sf : string) (data : entry) :
  plain sf -> plain_entry data -> Forall plain_chunk (block sf data).
Proof.
  intros Hsf (Hf & Hfd & Hbd). unfold block.
  assert (Hdefs : forall ls, Forall plain ls ->
                  Forall plain_chunk (map with_nl (dedup ls))).
  { intros ls Hls. rewrite Forall_forall in *. intros c Hc.
    apply in_map_iff in Hc. destruct Hc as (l & <- & Hin).
    apply dedup_from_In in Hin. exists l. split; [reflexivity|].
    apply Hls. tauto. }
  repeat (apply Forall_app; split); try (now apply Hdefs).
  - constructor; [now apply (plain_chunk_intro "TN:")|]. constructor; [|constructor].
    apply (plain_chunk_intro ("SF:" ++ sf)); [now apply plain_app|].
    now rewrite append_assoc_s.
  - rewrite Forall_forall in *. intros c Hc. apply in_map_iff in Hc.
    destruct Hc as ([name count] & <- & Hin). specialize (Hf _ Hin).
    cbn [fst snd] in *.
    apply (plain_chunk_intro ("FNDA:" ++ PyStr.str count ++ "," ++ name)).
    + repeat apply plain_app; try reflexivity; [apply plain_str | exact Hf].
    + now rewrite !append_assoc_s.
  - repeat constructor; now apply summary_plain.
  - repeat constructor; now apply summary_plain.
  - rewrite Forall_forall. intros c Hc. apply in_map_iff in Hc.
    destruct Hc as ([n count] & <- & _). cbn [fst snd].
    apply (plain_chunk_intro ("DA:" ++ PyStr.str n ++ "," ++ PyStr.str count)).
    + repeat apply plain_app; try reflexivity; apply plain_str.
    + now rewrite !append_assoc_s.
  - constructor; [now apply summary_plain|]. constructor; [now apply summary_plain|].
    constructor; [|constructor]. now apply (plain_chunk_intro "end_of_record").
Qed.

(** X16. Take an aggregate of plain text (ASCII names and definition
    lines, with no line end inside them), without trailing white space
    in its names, with numbers that [int()] accepts and with definition
    lines as the parser stores them.  Every chunk that the serializer
    writes for it is then one plain line with its line end, so that a
    file holding the text is read as these lines; and the parser reads
    them back without an exception and without a message.  The source
    files come back in the same order; of each record the function
    counter comes back as it was, the line counter comes back in the
    order of the line numbers, and the definition lines come back once
    each.  The branch counter that comes back is the one that the
    written [BRDA] lines carry, not the merged one. *)
Theorem written_text_reads_back (m : coverage) :
  plain_coverage m -> rereadable m ->
  Forall plain_chunk (lcov_text m) /\
  (forall (fs : filesystem) (file_path : string),
     read_lines fs file_path = Ok (lcov_text m) ->
     parse_lcov_file fs file_path = (reread_all m, [])) /\
  Dict.keys (reread_all m) = Dict.keys m /\
  (forall sf data,
     Dict.get m sf = Some data ->
     exists data',
       Dict.get (reread_all m) sf = Some data' /\
       functions data' = functions data /\
       lines data' = sorted (lines data) /\
       function_data data' = dedup (function_data data) /\
       branch_data data' = dedup (branch_data data) /\
       branches data' =
         fold_left brda_count_step (dedup (branch_data data)) Dict.empty).
Proof.
  intros Hp Hm. split; [|split; [|split]].
  - clear Hm. unfold lcov_text. rewrite lcov_text_from. cbn [app].
    induction Hp as [|[sf data] r [Hsf Hd] Hr IH]; cbn [flat_map fst snd];
      [constructor|].
    apply Forall_app. split; [now apply block_plain | exact IH].
  - intros fs file_path Hr. unfold parse_lcov_file.
    rewrite Hr. cbn [bind]. now rewrite (text_reads_back m Hm).
  - unfold Dict.keys, reread_all. rewrite map_map. now apply map_ext.
  - intros sf data G. exists (reread data). rewrite get_reread_all, G.
    repeat split.
Qed.

(** ** The read-back properties at concrete inputs *)

Ltac side_by_evaluation :=
  repeat match goal with
         | |- _ /\ _ => split
         | |- Forall _ _ => constructor
         | |- NoDup _ => constructor
         | |- ~ In _ _ => cbn [In]; intuition discriminate
         | |- capped _ => apply capped_small; vm_compute; reflexivity
         | |- rstripped _ => vm_compute; reflexivity
         | |- (0 <= _)%Z => cbn [fst snd]; lia
         | |- _ = _ -> _ => discriminate
         | |- _ = _ => vm_compute; reflexivity
         end.

Lemma written_text_reads_back_witness :
  parse_lcov_file (holding "m.info" (lcov_text sample_aggregate)) "m.info" =
  ([("x.c",
     {| functions := [("f", 2)];
        lines := [(1, 5); (3, 4)];
        branches := [("1:0:0", 1)];
        function_data := ["FN:1,f"];
        branch_data := ["BRDA:1,0,0,1"] |})], []).
Proof.
  assert (Hm : rereadable sample_aggregate).
  { unfold rereadable, sample_aggregate, rereadable_entry, entry_ok, counter_ok.
    cbn [functions lines branches function_data branch_data Dict.keys Dict.values
         map fst snd].
    side_by_evaluation. }
  assert (Hp : plain_coverage sample_aggregate).
  { unfold plain_coverage, sample_aggregate, plain_entry, plain.
    cbn [functions function_data branch_data fst snd].
    repeat constructor. }
  assert (Hr : read_lines (holding "m.info" (lcov_text sample_aggregate)) "m.info" =
               Ok (lcov_text sample_aggregate)) by reflexivity.
  exact (proj1 (proj2 (written_text_reads_back sample_aggregate Hp Hm)) _ _ Hr).
Defined.

Lemma aggregate_reads_back_witness :
  fst (merge_coverage_files
         (holding "out.info"
            (lcov_text (fst (merge_coverage_files scenario_fs ["a.info"; "b.info"]))))
         ["out.info"]) =
  [("x.c", with_lines empty_entry [(1, 5); (2, 0); (3, 4)])].
Proof.
  assert (Hr : read_lines
                 (holding "out.info"
                    (lcov_text (fst (merge_coverage_files scenario_fs
                                       ["a.info"; "b.info"])))) "out.info" =
               Ok (lcov_text (fst (merge_coverage_files scenario_fs
                                     ["a.info"; "b.info"]))))
    by reflexivity.
  exact (proj2 (proj2 (aggregate_reads_back scenario_fs ["a.info"; "b.info"]
                         (holding "out.info"
                            (lcov_text (fst (merge_coverage_files scenario_fs
                                               ["a.info"; "b.info"]))))
                         "out.info" Hr eq_refl))).
Defined.

Lemma single_input_is_kept_witness :
  fst (merge_coverage_files scenario_fs ["a.info"]) =
  fst (parse_lcov_file scenario_fs "a.info").
Proof.
  exact (proj1 (single_input_is_kept scenario_fs "a.info" eq_refl)).
Defined.

Lemma rerun_is_stable_witness :
  fst (merge_coverage_files
         (holding "out2.info"
            (lcov_text
               (fst (merge_coverage_files
                       (holding "out1.info"
                          (lcov_text (fst (merge_coverage_files scenario_fs
                                             ["a.info"; "b.info"]))))
                       ["out1.info"]))))
         ["out2.info"]) =
  fst (merge_coverage_files
         (holding "out1.info"
            (lcov_text (fst (merge_coverage_files scenario_fs ["a.info"; "b.info"]))))
         ["out1.info"]).
Proof.
  assert (Hr1 : read_lines
                  (holding "out1.info"
                     (lcov_text (fst (merge_coverage_files scenario_fs
                                        ["a.info"; "b.info"])))) "out1.info" =
                Ok (lcov_text (fst (merge_coverage_files scenario_fs
                                      ["a.info"; "b.info"]))))
    by reflexivity.
  assert (Hr2 : read_lines
                  (holding "out2.info"
                     (lcov_text
                        (fst (merge_coverage_files
                                (holding "out1.info"
                                   (lcov_text (fst (merge_coverage_files scenario_fs
                                                      ["a.info"; "b.info"]))))
                                ["out1.info"])))) "out2.info" =
                Ok (lcov_text
                      (fst (merge_coverage_files
                              (holding "out1.info"
                                 (lcov_text (fst (merge_coverage_files scenario_fs
                                                    ["a.info"; "b.info"]))))
                              ["out1.info"]))))
    by reflexivity.
  exact (proj1 (rerun_is_stable scenario_fs ["a.info"; "b.info"] _ "out1.info"
                  _ "out2.info" Hr1 eq_refl Hr2 eq_refl)).
Defined.

Lemma output_without_directory_is_fatal_witness :
  ended (main (fun _ _ => EmptyString) scenario_fs
           {| files := ["a.info"; "b.info"]; output := "merged.info" |}) =
  Uncaught (OSError "[Errno 2] No such file or directory: ''").
Proof.
  exact (proj1 (proj2 (proj2
           (output_without_directory_is_fatal (fun _ _ => EmptyString) scenario_fs
              {| files := ["a.info"; "b.info"]; output := "merged.info" |}
              eq_refl eq_refl)))).
Defined.

Lemma one_line_intro (l : string) :
  all_chars not_newline l = true -> one_line (l ++ nl).
Proof. intros Hl. exists l. split; [exact Hl | now right]. Qed.

Lemma written_chunks_are_lines_witness :
  Forall line_chunk
    (lcov_text (fst (merge_coverage_files scenario_fs ["a.info"; "b.info"]))).
Proof.
  assert (Hfs : forall p ls, read_lines scenario_fs p = Ok ls -> Forall one_line ls).
  { intros p ls. unfold scenario_fs, fs_of. cbn [read_lines Dict.get].
    destruct (keqb "a.info" p);
      [|destruct (keqb "b.info" p); [|discriminate]];
      intros [= <-]; repeat constructor; apply one_line_intro; reflexivity. }
  exact (proj1 (written_chunks_are_lines scenario_fs ["a.info"; "b.info"] Hfs)).
Defined.
